(** * Route optimisation service (ACO + 2-opt over an OSRM distance oracle)

    A shallow embedding of [backend/app/services/route_optimizer.py] and
    of the endpoint of [backend/app/routers/optimize.py] that calls it.

    Python floats are idealised as real numbers ([R]); numpy arrays are
    lists of rows; the [geometry_cache] dict is a [gmap]; exceptions and
    loops that may fail to terminate live in the [result] monad; the
    process-wide random generator is an explicit stream of draws. *)

From Stdlib Require Import Reals Lra Lia ZArith String Ascii.
From Stdlib Require Import List Permutation.
From stdpp Require Import base option list gmap.

(** ** Exceptions and divergence *)

Inductive exn : Type :=
| ValueError (msg : string)
| ZeroDivisionError
| IndexError
| RequestException.

(** [OutOfFuel] stands for a loop that has not finished within the
    allotted number of rounds. *)
Inductive result (A : Type) : Type :=
| Ok (a : A)
| Raise (e : exn)
| OutOfFuel.

Arguments Ok {A} a.
Arguments Raise {A} e.
Arguments OutOfFuel {A}.

Definition result_bind {A B : Type} (f : A -> result B) (c : result A)
  : result B :=
  match c with
  | Ok a => f a
  | Raise e => Raise e
  | OutOfFuel => OutOfFuel
  end.

#[global] Instance result_ret : MRet result := fun _ a => Ok a.
#[global] Instance result_mbind : MBind result := fun _ _ f c => result_bind f c.

(** [try: c except h] runs [c] and hands a raised exception to [h]. *)
Definition try_except {A : Type} (c : result A) (h : exn -> result A)
  : result A :=
  match c with
  | Raise e => h e
  | _ => c
  end.

(** [for x in xs: s = body x s] *)
Fixpoint for_each {A S : Type} (xs : list A) (body : A -> S -> result S)
  (s : S) : result S :=
  match xs with
  | [] => Ok s
  | x :: xs' => s' ← body x s; for_each xs' body s'
  end.

(** Python list indexing with a non-negative index. *)
Definition index {A : Type} (l : list A) (i : nat) : result A :=
  match l !! i with
  | Some x => Ok x
  | None => Raise IndexError
  end.

(** ** Data model *)

(** A location dict with keys ['lat'] and ['lon']. *)
Record Point : Type := { lat : R; lon : R }.

(** A geojson coordinate list, [[lon, lat], ...]. *)
Definition Geometry : Type := list (R * R).

Record Container : Type := {
  container_id : Z;
  latitude : R;
  longitude : R;
  vehicle_type : string
}.

Record RouteStop : Type := {
  stop_container_id : Z;
  stop_latitude : R;
  stop_longitude : R;
  distance_from_previous : R;
  cumulative_distance : R;
  order : nat;
  geometry_to_here : option Geometry
}.

Record RouteResult : Type := {
  neighborhood : string;
  route_vehicle_type : string;
  total_distance_km : R;
  total_containers : nat;
  stops : list RouteStop;
  requires_multiple_trips : bool;
  trip_count : Z
}.

Definition DEPOT_LOCATION : Point :=
  {| lat := 40.19653566137532%R; lon := 28.93751059947524%R |}.

(** ACO parameters.  [ACO_ALPHA] and [ACO_BETA] are the integral floats
    [1.0] and [2.0]; they are used as exponents only. *)
Definition ACO_NUM_ANTS : nat := 100.
Definition ACO_NUM_ITERATIONS : nat := 20.
Definition ACO_ALPHA : nat := 1.
Definition ACO_BETA : nat := 2.
Definition ACO_RHO : R := 0.1%R.
Definition ACO_Q : R := 100%R.
Definition ACO_ELITE_WEIGHT : R := 2%R.
Definition ACO_INITIAL_PHEROMONE : R := 0.01%R.

(** ** numpy matrices *)

Abbreviation Matrix := (list (list R)).

(** [np.full((n, n), v)] *)
Definition np_full (n : nat) (v : R) : Matrix := replicate n (replicate n v).

(** [m[i][j]] read.  Every read of the program is in range (rows and
    columns are location indices below [len(containers) + 1]); outside
    that range, where numpy raises, the model reads [0]. *)
Definition mget (m : Matrix) (i j : nat) : R := nth j (nth i m []) 0%R.

(** [m[i][j] = x] *)
Definition mset (m : Matrix) (i j : nat) (x : R) : result Matrix :=
  match m !! i with
  | Some row =>
      if decide (j < length row) then Ok (<[i := <[j := x]> row]> m)
      else Raise IndexError
  | None => Raise IndexError
  end.

(** [sum(xs)] over floats. *)
Fixpoint sum_list (xs : list R) : R :=
  match xs with
  | [] => 0%R
  | x :: xs' => (x + sum_list xs')%R
  end.

(** ** OSRMClient *)

(** One entry of the ["routes"] array of an OSRM answer. *)
Record OsrmRoute : Type := {
  route_distance : R;            (* metres *)
  route_geometry : Geometry
}.

(** What the HTTP round trip of [get_distance] yields: either
    [requests.get], [raise_for_status] or [json] raises a
    [RequestException], or the provider answers with a ["code"] and a
    list of ["routes"]. *)
Inductive HttpOutcome : Type :=
| RequestFails
| Responds (code : string) (routes : list OsrmRoute).

Definition math_radians (deg : R) : R := (deg * PI / 180)%R.

(** [OSRMClient._euclidean_distance]: the haversine formula. *)
Definition _euclidean_distance (from_point to_point : Point) : R :=
  let lat1 := math_radians (lat from_point) in
  let lon1 := math_radians (lon from_point) in
  let lat2 := math_radians (lat to_point) in
  let lon2 := math_radians (lon to_point) in
  let dlat := (lat2 - lat1)%R in
  let dlon := (lon2 - lon1)%R in
  let a := (sin (dlat / 2) ^ 2 + cos lat1 * cos lat2 * sin (dlon / 2) ^ 2)%R in
  let c := (2 * asin (sqrt a))%R in
  let r := 6371%R in
  (c * r)%R.

(** The [geometry_cache] dict: keys are index pairs, values a geometry or
    Python's [None]. *)
Abbreviation GeometryCache := (gmap (nat * nat) (option Geometry)).

Section Optimizer.

(** The routing provider, as seen from the client: the outcome of the
    HTTP query for an ordered pair of points. *)
Variable osrm : Point -> Point -> HttpOutcome.

Definition requests_get (from_point to_point : Point)
  : result (string * list OsrmRoute) :=
  match osrm from_point to_point with
  | RequestFails => Raise RequestException
  | Responds code routes => Ok (code, routes)
  end.

(** [OSRMClient.get_distance] *)
Definition get_distance (from_point to_point : Point)
  : result (option R * option Geometry) :=
  try_except
    (data ← requests_get from_point to_point;
     match data with
     | ("Ok"%string, route :: _) =>
         Ok (Some (route_distance route / 1000)%R, Some (route_geometry route))
     | _ => Ok (None, None)
     end)
    (fun e =>
       match e with
       | RequestException =>
           Ok (Some (_euclidean_distance from_point to_point), None)
       | _ => Raise e
       end).

(** ** RouteOptimizer._build_distance_matrix *)

(** [geometry_cache.get(key)] *)
Definition cache_get (c : GeometryCache) (key : nat * nat)
  : option Geometry :=
  match c !! key with
  | Some g => g
  | None => None
  end.

Definition container_point (c : Container) : Point :=
  {| lat := latitude c; lon := longitude c |}.

Definition build_cell (locations : list Point) (i j : nat)
  (s : Matrix * GeometryCache) : result (Matrix * GeometryCache) :=
  let '(distance_matrix, geometry_cache) := s in
  if decide (i = j) then
    m ← mset distance_matrix i j 0%R; Ok (m, geometry_cache)
  else
    from_point ← index locations i;
    to_point ← index locations j;
    r ← get_distance from_point to_point;
    match r with
    | (Some distance, geometry) =>
        m ← mset distance_matrix i j distance;
        Ok (m, <[(i, j) := geometry]> geometry_cache)
    | (None, _) =>
        m ← mset distance_matrix i j 999%R; Ok (m, geometry_cache)
    end.

Definition _build_distance_matrix (depot : Point) (containers : list Container)
  : result (Matrix * GeometryCache) :=
  let n := (length containers + 1)%nat in
  let distance_matrix := np_full n 0%R in
  let geometry_cache : GeometryCache := ∅ in
  let locations := depot :: map container_point containers in
  for_each (seq 0 n)
    (fun i s => for_each (seq 0 n) (fun j s' => build_cell locations i j s') s)
    (distance_matrix, geometry_cache).


(** ** The random source *)

(** The state of Python's [random] module: the draws still to come, each
    the value of one later call of [random.random()]. *)
Definition Rng : Type := nat -> R.

Definition random (g : Rng) : R * Rng := (g 0%nat, fun k => g (S k)).

(** [itertools.accumulate(weights)] *)
Fixpoint accumulate_from (acc : R) (ws : list R) : list R :=
  match ws with
  | [] => []
  | w :: ws' => (acc + w)%R :: accumulate_from (acc + w)%R ws'
  end.

Definition accumulate (ws : list R) : list R :=
  match ws with
  | [] => []
  | w :: ws' => w :: accumulate_from w ws'
  end.

(** [bisect.bisect_right(a, x, 0, hi)] on a non-decreasing [a]: the number
    of entries among the first [hi] that are [<= x]. *)
Fixpoint bisect (a : list R) (x : R) (hi : nat) : nat :=
  match hi, a with
  | S hi', e :: a' => if Rle_dec e x then S (bisect a' x hi') else 0%nat
  | _, _ => 0%nat
  end.

(** [random.choices(population, weights=weights)[0]], after CPython's
    [Random.choices]. *)
Definition random_choices {A : Type} (population : list A) (weights : list R)
  (g : Rng) : result (A * Rng) :=
  let n := length population in
  let cum_weights := accumulate weights in
  if decide (length cum_weights = n) then
    match last cum_weights with
    | None => Raise IndexError
    | Some total =>
        if Rle_dec total 0 then
          Raise (ValueError "Total of weights must be greater than zero"%string)
        else
          let '(u, g') := random g in
          x ← index population (bisect cum_weights (u * total)%R (n - 1));
          Ok (x, g')
    end
  else Raise (ValueError "The number of weights does not match the population"%string).

(** ** RouteOptimizer._select_next_container *)

(** The entry appended to [probabilities] for candidate [idx]. *)
Definition selection_weight (pheromones distances : Matrix)
  (current_idx idx : nat) : R :=
  let tau := (mget pheromones current_idx idx ^ ACO_ALPHA)%R in
  let eta :=
    if Rlt_dec 0 (mget distances current_idx idx)
    then ((1 / mget distances current_idx idx) ^ ACO_BETA)%R
    else 0%R in
  (tau * eta)%R.

(** The list [probabilities] as handed to [random.choices]. *)
Definition selection_probabilities (pheromones distances : Matrix)
  (current_idx : nat) (unvisited_indices : list nat) : result (list R) :=
  let probabilities :=
    map (selection_weight pheromones distances current_idx) unvisited_indices in
  let total := sum_list probabilities in
  if Rlt_dec 0 total then Ok (map (fun p => (p / total)%R) probabilities)
  else
    match length unvisited_indices with
    | O => Raise ZeroDivisionError
    | S _ =>
        Ok (replicate (length unvisited_indices)
              (1 / INR (length unvisited_indices))%R)
    end.

Definition _select_next_container (current_idx : nat)
  (unvisited_indices : list nat) (pheromones distances : Matrix) (g : Rng)
  : result (nat * Rng) :=
  probabilities ←
    selection_probabilities pheromones distances current_idx unvisited_indices;
  random_choices unvisited_indices probabilities g.

(** ** RouteOptimizer._construct_ant_solution *)

(** [l.remove(x)] *)
Fixpoint list_remove (x : nat) (l : list nat) : result (list nat) :=
  match l with
  | [] => Raise (ValueError "list.remove(x): x not in list"%string)
  | y :: l' =>
      if decide (y = x) then Ok l'
      else (r ← list_remove x l'; Ok (y :: r))
  end.

(** The [while unvisited] loop.  Every round removes one entry of
    [unvisited], so [rounds = len(unvisited)] rounds are all it can take. *)
Fixpoint construct_loop (rounds : nat) (pheromones distances : Matrix)
  (current_idx : nat) (unvisited tour : list nat) (total_distance : R)
  (g : Rng) : result (list nat * R * Rng) :=
  match unvisited with
  | [] => Ok (tour, (total_distance + mget distances current_idx 0)%R, g)
  | _ :: _ =>
      match rounds with
      | O => OutOfFuel
      | S rounds' =>
          '(next_idx, g') ←
            _select_next_container current_idx unvisited pheromones distances g;
          unvisited' ← list_remove next_idx unvisited;
          construct_loop rounds' pheromones distances next_idx unvisited'
            (tour ++ [(next_idx - 1)%nat])
            (total_distance + mget distances current_idx next_idx)%R g'
      end
  end.

Definition _construct_ant_solution (pheromones distances : Matrix)
  (num_containers : nat) (g : Rng) : result (list nat * R * Rng) :=
  let unvisited := seq 1 num_containers in
  construct_loop (length unvisited) pheromones distances 0 unvisited [] 0%R g.

(** ** RouteOptimizer._update_pheromones *)

(** [pheromones[i][j] += deposit] *)
Definition madd (m : Matrix) (i j : nat) (deposit : R) : result Matrix :=
  mset m i j (mget m i j + deposit)%R.

(** The three deposit steps along one tour: depot to first container,
    between containers, last container to depot. *)
Definition deposit_along (pheromones : Matrix) (tour_indices : list nat)
  (deposit : R) : result Matrix :=
  first ← index tour_indices 0;
  p ← madd pheromones 0 (first + 1) deposit;
  p ← for_each (seq 0 (length tour_indices - 1))
        (fun i p =>
           from_idx ← index tour_indices i;
           to_idx ← index tour_indices (i + 1);
           madd p (from_idx + 1) (to_idx + 1) deposit)
        p;
  final ← index tour_indices (length tour_indices - 1);
  madd p (final + 1) 0 deposit.

Definition _update_pheromones (pheromones : Matrix)
  (all_tours : list (list nat * R)) (best_tour : list nat * R)
  (global_best_tour : option (list nat * R)) : result Matrix :=
  let pheromones := map (map (fun x => ((1 - ACO_RHO) * x)%R)) pheromones in
  pheromones ←
    (let '(tour_indices, tour_distance) := best_tour in
     if Rlt_dec 0 tour_distance
     then deposit_along pheromones tour_indices (ACO_Q / tour_distance)%R
     else Ok pheromones);
  match global_best_tour with
  | Some (tour_indices, tour_distance) =>
      if Rlt_dec 0 tour_distance
      then deposit_along pheromones tour_indices
             (ACO_ELITE_WEIGHT * ACO_Q / tour_distance)%R
      else Ok pheromones
  | None => Ok pheromones
  end.

(** ** RouteOptimizer._two_opt *)

(** [[0] + [i + 1 for i in tour] + [0]] *)
Definition full_path (tour : list nat) : list nat :=
  0%nat :: map (fun i => (i + 1)%nat) tour ++ [0%nat].

(** [path[i:j+1] = reversed(path[i:j+1])] *)
Definition reverse_segment (path : list nat) (i j : nat) : list nat :=
  take i path ++ rev (take (j + 1 - i) (drop i path)) ++ drop (j + 1) path.

Definition improves (distance_matrix : Matrix) (path : list nat) (i j : nat)
  : bool :=
  let current_dist :=
    (mget distance_matrix (nth (i - 1) path 0%nat) (nth i path 0%nat)
     + mget distance_matrix (nth j path 0%nat) (nth (j + 1) path 0%nat))%R in
  let new_dist :=
    (mget distance_matrix (nth (i - 1) path 0%nat) (nth j path 0%nat)
     + mget distance_matrix (nth i path 0%nat) (nth (j + 1) path 0%nat))%R in
  if Rlt_dec new_dist current_dist then true else false.

(** The inner [for j] loop: the path after the first improving reversal,
    or [None] when the loop runs to its end. *)
Fixpoint scan_j (distance_matrix : Matrix) (path : list nat) (i : nat)
  (js : list nat) : option (list nat) :=
  match js with
  | [] => None
  | j :: js' =>
      if improves distance_matrix path i j
      then Some (reverse_segment path i j)
      else scan_j distance_matrix path i js'
  end.

(** The outer [for i] loop, left by [break] once [improved] is set. *)
Fixpoint scan_i (distance_matrix : Matrix) (path : list nat) (rows : list nat)
  : option (list nat) :=
  match rows with
  | [] => None
  | i :: rows' =>
      match scan_j distance_matrix path i
              (seq (i + 1) (length path - 1 - (i + 1))) with
      | Some path' => Some path'
      | None => scan_i distance_matrix path rows'
      end
  end.

(** One round of [while improved]. *)
Definition two_opt_scan (distance_matrix : Matrix) (path : list nat)
  : option (list nat) :=
  scan_i distance_matrix path (seq 1 (length path - 2 - 1)).

Fixpoint two_opt_loop (fuel : nat) (distance_matrix : Matrix)
  (path : list nat) : result (list nat) :=
  match fuel with
  | O => OutOfFuel
  | S fuel' =>
      match two_opt_scan distance_matrix path with
      | Some path' => two_opt_loop fuel' distance_matrix path'
      | None => Ok path
      end
  end.

Definition _two_opt (fuel : nat) (tour : list nat) (distance_matrix : Matrix)
  : result (list nat) :=
  path ← two_opt_loop fuel distance_matrix (full_path tour);
  Ok (map (fun node => (node - 1)%nat) (removelast (tail path))).

(** ** RouteOptimizer._create_aco_route *)

(** The closed-path cost recomputed for a refined tour:
    the sum of [distance_matrix[path[k], path[k+1]]]. *)
Fixpoint path_cost (distance_matrix : Matrix) (path : list nat) : R :=
  match path with
  | a :: (b :: _) as rest =>
      (mget distance_matrix a b + path_cost distance_matrix rest)%R
  | _ => 0%R
  end.

Definition tour_cost (distance_matrix : Matrix) (tour : list nat) : R :=
  path_cost distance_matrix (full_path tour).

(** A float that may be [float('inf')]. *)
Inductive bound : Type :=
| Inf
| Fin (x : R).

Definition below (x : R) (b : bound) : bool :=
  match b with
  | Inf => true
  | Fin y => if Rlt_dec x y then true else false
  end.

(** [min(iteration_tours, key=lambda x: x[1])]: the first entry of least
    cost. *)
Fixpoint min_from (best : list nat * R) (rest : list (list nat * R))
  : list nat * R :=
  match rest with
  | [] => best
  | x :: rest' =>
      if Rlt_dec (snd x) (snd best) then min_from x rest'
      else min_from best rest'
  end.

Definition min_by_cost (tours : list (list nat * R))
  : result (list nat * R) :=
  match tours with
  | [] => Raise (ValueError "min() arg is an empty sequence"%string)
  | x :: rest => Ok (min_from x rest)
  end.

(** One ant: construct, refine, re-cost, append. *)
Definition ant_step (fuel : nat) (pheromones distance_matrix : Matrix)
  (num_containers : nat) (s : list (list nat * R) * Rng)
  : result (list (list nat * R) * Rng) :=
  let '(iteration_tours, g) := s in
  '(tour, distance, g') ←
    _construct_ant_solution pheromones distance_matrix num_containers g;
  refined_tour ← _two_opt fuel tour distance_matrix;
  let refined_distance := tour_cost distance_matrix refined_tour in
  Ok (iteration_tours ++ [(refined_tour, refined_distance)], g').

Record colony : Type := {
  pheromones : Matrix;
  global_best_tour : option (list nat * R);
  global_best_distance : bound;
  rng : Rng
}.

(** One round of the [for iteration] loop. *)
Definition iteration_step (fuel : nat) (distance_matrix : Matrix)
  (num_containers : nat) (s : colony) : result colony :=
  '(iteration_tours, g) ←
    for_each (seq 0 ACO_NUM_ANTS)
      (fun _ => ant_step fuel (pheromones s) distance_matrix num_containers)
      ([], rng s);
  best_iter_tour ← min_by_cost iteration_tours;
  let best_iter_distance := snd best_iter_tour in
  let '(gbt, gbd) :=
    if below best_iter_distance (global_best_distance s)
    then (Some best_iter_tour, Fin best_iter_distance)
    else (global_best_tour s, global_best_distance s) in
  p ← _update_pheromones (pheromones s) iteration_tours best_iter_tour gbt;
  Ok {| pheromones := p; global_best_tour := gbt;
        global_best_distance := gbd; rng := g |}.

(** Step 4: the [for order, container_idx in enumerate(tour_indices,
    start=1)] loop. *)
Fixpoint assemble (distance_matrix : Matrix)
  (geometry_cache : GeometryCache)
  (containers : list Container) (tour_indices : list nat) (order : nat)
  (prev_idx : nat) (cumulative_distance : R) : result (list RouteStop) :=
  match tour_indices with
  | [] => Ok []
  | container_idx :: tour' =>
      let curr_idx := (container_idx + 1)%nat in
      let segment_distance := mget distance_matrix prev_idx curr_idx in
      let geometry := cache_get geometry_cache (prev_idx, curr_idx) in
      let cumulative_distance := (cumulative_distance + segment_distance)%R in
      container ← index containers container_idx;
      let stop :=
        {| stop_container_id := container_id container;
           stop_latitude := latitude container;
           stop_longitude := longitude container;
           distance_from_previous := segment_distance;
           cumulative_distance := cumulative_distance;
           order := order;
           geometry_to_here := geometry |} in
      rest ← assemble distance_matrix geometry_cache containers tour'
               (S order) curr_idx cumulative_distance;
      Ok (stop :: rest)
  end.

Definition _create_aco_route (fuel : nat) (depot : Point)
  (containers : list Container) (g : Rng) : result (list RouteStop) :=
  match containers with
  | [] => Ok []
  | _ :: _ =>
      '(distance_matrix, geometry_cache) ←
        _build_distance_matrix depot containers;
      let n := (length containers + 1)%nat in
      let start :=
        {| pheromones := np_full n ACO_INITIAL_PHEROMONE;
           global_best_tour := None;
           global_best_distance := Inf;
           rng := g |} in
      final ←
        for_each (seq 0 ACO_NUM_ITERATIONS)
          (fun _ => iteration_step fuel distance_matrix (length containers))
          start;
      match global_best_tour final with
      | None => Ok []
      | Some (tour_indices, _) =>
          assemble distance_matrix geometry_cache containers tour_indices
            1 0 0%R
      end
  end.

(** ** RouteOptimizer.optimize_route *)

(** [containers[:vehicle_capacity]] for a Python int bound. *)
Definition slice_to {A : Type} (l : list A) (stop : Z) : list A :=
  if decide (0 <= stop)%Z then take (Z.to_nat stop) l
  else take (Z.to_nat (Z.of_nat (length l) + stop)) l.

(** [a // b] on Python ints. *)
Definition floordiv (a b : Z) : result Z :=
  if decide (b = 0%Z) then Raise ZeroDivisionError else Ok (a / b)%Z.

Definition optimize_route (fuel : nat) (neighborhood : string)
  (containers : list Container) (vehicle_capacity : Z)
  (depot : option Point) (g : Rng) : result RouteResult :=
  match containers with
  | [] => Raise (ValueError "No containers provided"%string)
  | first :: _ =>
      let depot := default DEPOT_LOCATION depot in
      let vehicle_type := vehicle_type first in
      let requires_multiple_trips :=
        bool_decide (Z.of_nat (length containers) > vehicle_capacity)%Z in
      trip_count ←
        floordiv (Z.of_nat (length containers) + vehicle_capacity - 1)
                 vehicle_capacity;
      let containers_to_route := slice_to containers vehicle_capacity in
      stops ← _create_aco_route fuel depot containers_to_route g;
      let total_distance := sum_list (map distance_from_previous stops) in
      total_distance ←
        match last stops with
        | Some last_stop =>
            '(return_distance, _) ←
              get_distance
                {| lat := stop_latitude last_stop;
                   lon := stop_longitude last_stop |}
                depot;
            match return_distance with
            | Some d => Ok (total_distance + d)%R
            | None => Ok total_distance
            end
        | None => Ok total_distance
        end;
      Ok {| neighborhood := neighborhood;
            route_vehicle_type := vehicle_type;
            total_distance_km := total_distance;
            total_containers := length containers_to_route;
            stops := stops;
            requires_multiple_trips := requires_multiple_trips;
            trip_count := trip_count |}
  end.

End Optimizer.

(** * Further operations of the service *)

(** ** RouteOptimizer._initialize_pheromones *)

Definition _initialize_pheromones (n : nat) : Matrix :=
  np_full n ACO_INITIAL_PHEROMONE.

(** ** RouteOptimizer._create_nearest_neighbor_route *)

#[global] Instance R_eq_dec : EqDecision R := Req_dec_T.

(** Equality of two [Container] dataclass instances: field by field. *)
#[global] Instance Container_eq_dec : EqDecision Container.
Proof. solve_decision. Defined.

(** [unvisited.remove(container)] *)
Fixpoint list_remove_container (x : Container) (l : list Container)
  : result (list Container) :=
  match l with
  | [] => Raise (ValueError "list.remove(x): x not in list"%string)
  | y :: l' =>
      if decide (y = x) then Ok l'
      else (r ← list_remove_container x l'; Ok (y :: r))
  end.

Section NearestNeighbor.

Variable osrm : Point -> Point -> HttpOutcome.

(** The [for container in unvisited] loop.  Its three variables
    [nearest_container], [min_distance] and [best_geometry] are assigned
    together; [None] stands for their initial values (no container, an
    infinite distance, no geometry). *)
Definition nearest_scan (current_location : Point) (unvisited : list Container)
  : result (option (Container * R * option Geometry)) :=
  for_each unvisited
    (fun container best =>
       '(distance, geometry) ←
         get_distance osrm current_location (container_point container);
       match distance, best with
       | Some d, None => Ok (Some (container, d, geometry))
       | Some d, Some (_, min_distance, _) =>
           if Rlt_dec d min_distance then Ok (Some (container, d, geometry))
           else Ok best
       | None, _ => Ok best
       end)
    None.

(** The [while unvisited] loop: every round that does not [break]
    removes one container, so [rounds = len(unvisited)] rounds are all it
    can take. *)
Fixpoint nearest_neighbor_loop (rounds : nat) (current_location : Point)
  (unvisited : list Container) (route : list RouteStop)
  (cumulative_distance : R) (order : nat) : result (list RouteStop) :=
  match unvisited with
  | [] => Ok route
  | _ :: _ =>
      match rounds with
      | O => OutOfFuel
      | S rounds' =>
          best ← nearest_scan current_location unvisited;
          match best with
          | None => Ok route
          | Some (nearest_container, min_distance, best_geometry) =>
              let cumulative_distance :=
                (cumulative_distance + min_distance)%R in
              let stop :=
                {| stop_container_id := container_id nearest_container;
                   stop_latitude := latitude nearest_container;
                   stop_longitude := longitude nearest_container;
                   distance_from_previous := min_distance;
                   cumulative_distance := cumulative_distance;
                   order := order;
                   geometry_to_here := best_geometry |} in
              unvisited' ← list_remove_container nearest_container unvisited;
              nearest_neighbor_loop rounds'
                (container_point nearest_container) unvisited'
                (route ++ [stop]) cumulative_distance (S order)
          end
      end
  end.

Definition _create_nearest_neighbor_route (start_point : Point)
  (containers : list Container) : result (list RouteStop) :=
  nearest_neighbor_loop (length containers) start_point containers [] 0%R 1.

End NearestNeighbor.

(** ** The endpoint POST /api/optimize/route *)

Record RouteRequest : Type := {
  request_neighborhood : string;
  week_start_date : string;
  quick_mode : bool
}.

(** The columns selected from the [neighborhoods] table. *)
Record NeighborhoodRow : Type := {
  neighborhood_id : Z;
  neighborhood_name : string;
  garbage_truck_type : option string
}.

Inductive FeatureGeometry : Type :=
| GeoPoint (coordinates : R * R)
| GeoLineString (coordinates : list (R * R)).

Inductive FeatureProperties : Type :=
| DepotProperties
| ContainerProperties (container_id : Z) (order : nat)
    (distance_from_previous_km cumulative_distance_km : R)
| RouteProperties (total_distance_km : R) (total_containers : nat).

Record Feature : Type := {
  geometry : FeatureGeometry;
  properties : FeatureProperties
}.

Record ScheduleEntry : Type := {
  day : string;
  schedule_containers : nat;
  distance_km : R
}.

Record RouteResponse : Type := {
  response_neighborhood : string;
  response_week_start_date : string;
  response_vehicle_type : string;
  vehicle_id : string;
  schedule : list ScheduleEntry;
  geojson : list Feature          (* the features of the FeatureCollection *)
}.

(** What the endpoint hands back to the framework: a response, an
    [HTTPException], or nothing yet (the optimizer is still running). *)
Inductive http_result (A : Type) : Type :=
| Respond (a : A)
| HTTPException (status_code : nat) (detail : string)
| Pending.

Arguments Respond {A} a.
Arguments HTTPException {A} status_code detail.
Arguments Pending {A}.

(** [s.replace(' ', '_')] *)
Fixpoint replace_spaces (s : string) : string :=
  match s with
  | EmptyString => EmptyString
  | String c s' =>
      String (if Ascii.eqb c " "%char then "_"%char else c) (replace_spaces s')
  end.

Definition depot_coordinates : R * R :=
  (lon DEPOT_LOCATION, lat DEPOT_LOCATION).

Definition stop_coordinates (stop : RouteStop) : R * R :=
  (stop_longitude stop, stop_latitude stop).

(** The [for stop in route_result.stops] loop that collects the
    geometry segments. *)
Fixpoint collect_segments (stops : list RouteStop)
  (route_coordinates : list (R * R)) : list (R * R) :=
  match stops with
  | [] => route_coordinates
  | stop :: stops' =>
      match geometry_to_here stop with
      | Some (p :: ps) =>
          collect_segments stops' (route_coordinates ++ p :: ps)
      | _ =>
          let route_coordinates :=
            match route_coordinates with
            | [] => [depot_coordinates]
            | _ :: _ => route_coordinates
            end in
          collect_segments stops' (route_coordinates ++ [stop_coordinates stop])
      end
  end.

(** The return to the depot appended after the segments. *)
Definition close_line (last_stop : RouteStop) (route_coordinates : list (R * R))
  : list (R * R) :=
  let route_coordinates :=
    match last route_coordinates with
    | Some last_coord =>
        if decide (last_coord <> stop_coordinates last_stop)
        then route_coordinates ++ [stop_coordinates last_stop]
        else route_coordinates
    | None => route_coordinates
    end in
  route_coordinates ++ [depot_coordinates].

Section Endpoint.

Variable osrm : Point -> Point -> HttpOutcome.

(** The two database queries: the row of the neighborhood of a given
    name, if any, and the container rows of a neighborhood id and vehicle
    type, in [container_id] order. *)
Variable fetch_neighborhood : string -> option NeighborhoodRow.
Variable fetch_containers : Z -> string -> list Container.

(** Python's [round(x, 3)], [str.lower] and [str] of an exception. *)
Variable round3 : R -> R.
Variable str_lower : string -> string.
Variable exn_str : exn -> string.

(** Step 6: the features of the GeoJSON collection. *)
Definition route_features (route_result : RouteResult) : list Feature :=
  let depot_feature :=
    {| geometry := GeoPoint depot_coordinates; properties := DepotProperties |} in
  let stop_features :=
    map (fun stop =>
           {| geometry := GeoPoint (stop_coordinates stop);
              properties :=
                ContainerProperties (stop_container_id stop) (order stop)
                  (round3 (distance_from_previous stop))
                  (round3 (cumulative_distance stop)) |})
        (stops route_result) in
  let line_features :=
    match last (stops route_result) with
    | Some last_stop =>
        [ {| geometry :=
               GeoLineString
                 (close_line last_stop
                    (collect_segments (stops route_result) []));
             properties :=
               RouteProperties (round3 (total_distance_km route_result))
                 (total_containers route_result) |} ]
    | None => []
    end in
  depot_feature :: stop_features ++ line_features.

Definition optimize_route_endpoint (fuel : nat) (request : RouteRequest)
  (g : Rng) : http_result RouteResponse :=
  match fetch_neighborhood (request_neighborhood request) with
  | None =>
      HTTPException 404
        ("Neighborhood '" ++ request_neighborhood request ++ "' not found")%string
  | Some neighborhood_row =>
      let vehicle_type :=
        match garbage_truck_type neighborhood_row with
        | Some (String c s) => String c s
        | _ => "Large Garbage Truck"%string
        end in
      let containers :=
        fetch_containers (neighborhood_id neighborhood_row) vehicle_type in
      match containers with
      | [] =>
          HTTPException 404
            ("No containers found for neighborhood '"
             ++ request_neighborhood request ++ "'")%string
      | _ :: _ =>
          match optimize_route osrm fuel (request_neighborhood request)
                  containers 40 None g with
          | Raise e =>
              HTTPException 500
                ("Route optimization failed: " ++ exn_str e)%string
          | OutOfFuel => Pending
          | Ok route_result =>
              Respond
                {| response_neighborhood := request_neighborhood request;
                   response_week_start_date := week_start_date request;
                   response_vehicle_type := vehicle_type;
                   vehicle_id :=
                     (str_lower (replace_spaces vehicle_type) ++ "_001")%string;
                   schedule :=
                     [ {| day := "Monday";
                          schedule_containers := length (stops route_result);
                          distance_km := total_distance_km route_result |} ];
                   geojson := route_features route_result |}
          end
      end
  end.

End Endpoint.

(** * Specification vocabulary *)

(** An [n] by [n] array. *)
Definition square (n : nat) (m : Matrix) : Prop :=
  length m = n /\ Forall (fun row => length row = n) m.

(** Cell [(i, j)] of the matrix and of the cache holds what
    [_build_distance_matrix] writes for it. *)
Definition cell_built (osrm : Point -> Point -> HttpOutcome)
  (locations : list Point) (m : Matrix) (c : GeometryCache) (i j : nat)
  : Prop :=
  if decide (i = j) then mget m i j = 0%R /\ c !! (i, j) = None
  else
    exists from_point to_point,
      locations !! i = Some from_point /\ locations !! j = Some to_point /\
      match get_distance osrm from_point to_point with
      | Ok (Some distance, geometry) =>
          mget m i j = distance /\ c !! (i, j) = Some geometry
      | Ok (None, _) => mget m i j = 999%R /\ c !! (i, j) = None
      | _ => False
      end.

(** The state of the builder when the loops stand at row [i], column [k]. *)
Definition built_upto (osrm : Point -> Point -> HttpOutcome)
  (locations : list Point) (n i k : nat) (s : Matrix * GeometryCache) : Prop :=
  square n s.1 /\
  forall i' j', i' < n -> j' < n ->
    if decide (i' < i \/ (i' = i /\ j' < k))
    then cell_built osrm locations s.1 s.2 i' j'
    else s.2 !! (i', j') = None.

(** A provider that answers every query with "no route". *)
Definition osrm_no_route : Point -> Point -> HttpOutcome :=
  fun _ _ => Responds "NoRoute" [].

(** Two bins standing at the same spot. *)
Definition twin_bins : list Container :=
  [ {| container_id := 1; latitude := 40; longitude := 29;
       vehicle_type := "Crane" |};
    {| container_id := 2; latitude := 40; longitude := 29;
       vehicle_type := "Crane" |} ].

(** Travel costs that do not depend on the direction of travel. *)
Definition symmetric (d : Matrix) : Prop :=
  forall i j, mget d i j = mget d j i.

(** The number of paths of [paths] that are cheaper than [p]. *)
Definition cheaper_count (d : Matrix) (paths : list (list nat)) (p : list nat)
  : nat :=
  length (List.filter
            (fun q => if Rlt_dec (path_cost d q) (path_cost d p)
                      then true else false)
            paths).

(** With [fuel] rounds the refiner finishes on every tour over [n] stops. *)
Definition refiner_halts (fuel : nat) (d : Matrix) (n : nat) : Prop :=
  forall tour, Permutation tour (seq 0 n) ->
    exists refined, _two_opt fuel tour d = Ok refined.

(** Every entry of a pheromone field is strictly positive. *)
Definition positive (m : Matrix) : Prop :=
  Forall (Forall (fun x => (0 < x)%R)) m.

(** A tour whose stops are all locations of an [n] by [n] field. *)
Definition tour_within (n : nat) (tour : list nat) : Prop :=
  tour <> [] /\ Forall (fun i => i + 1 < n) tour.

(** A recorded tour visits each of the [k] containers once. *)
Definition complete_tour (k : nat) (entry : list nat * R) : Prop :=
  Permutation entry.1 (seq 0 k).

(** What the colony loop keeps true of its best-so-far record. *)
Definition colony_ok (k : nat) (s : colony) : Prop :=
  (forall t, global_best_tour s = Some t -> complete_tour k t) /\
  (global_best_tour s = None -> global_best_distance s = Inf).

(** Stop [s] of a route is the container at position [idx] of the routed
    list. *)
Definition stop_of (containers : list Container) (s : RouteStop) (idx : nat)
  : Prop :=
  exists c, containers !! idx = Some c /\
    stop_container_id s = container_id c /\
    stop_latitude s = latitude c /\
    stop_longitude s = longitude c.

(** The provider answers, but not with code "Ok" and a route. *)
Definition no_route (o : HttpOutcome) : bool :=
  match o with
  | RequestFails => false
  | Responds code routes =>
      match routes with
      | [] => true
      | _ :: _ => negb (String.eqb code "Ok")
      end
  end.

(** The distance [optimize_route] adds for the way back to the depot. *)
Definition closing_leg (osrm : Point -> Point -> HttpOutcome) (depot : Point)
  (route : list RouteStop) : R :=
  match last route with
  | Some last_stop =>
      match get_distance osrm
              {| lat := stop_latitude last_stop; lon := stop_longitude last_stop |}
              depot with
      | Ok (Some distance, _) => distance
      | _ => 0%R
      end
  | None => 0%R
  end.

(** The call [optimize_route(neighborhood, containers, vehicle_capacity,
    depot)] returns [r]. *)
Definition returns (osrm : Point -> Point -> HttpOutcome) (g : Rng)
  (neighborhood : string) (containers : list Container) (vehicle_capacity : Z)
  (depot : option Point) (r : RouteResult) : Prop :=
  exists fuel,
    optimize_route osrm fuel neighborhood containers vehicle_capacity depot g
    = Ok r.

(** The provider's distances for the routed stops do not depend on the
    direction of travel. *)
Definition symmetric_distances (osrm : Point -> Point -> HttpOutcome)
  (depot : Point) (containers : list Container) : Prop :=
  forall m c, _build_distance_matrix osrm depot containers = Ok (m, c) ->
    symmetric m.

(** [t] is the ceiling of [n / c]. *)
Definition is_ceil_div (n c t : Z) : Prop :=
  ((t - 1) * c < n <= t * c)%Z.

(** What identifies a stop in a route, and a container in the input. *)
Definition stop_key (s : RouteStop) : Z * R * R :=
  (stop_container_id s, stop_latitude s, stop_longitude s).

Definition container_key (c : Container) : Z * R * R :=
  (container_id c, latitude c, longitude c).

(** A random source whose every draw is 0. *)
Definition rng_zero : Rng := fun _ => 0%R.

(** A single bin, away from the depot. *)
Definition single_bin : list Container :=
  [ {| container_id := 1; latitude := 40; longitude := 29;
       vehicle_type := "Crane" |} ].

(** Directed distances between a depot (index 0) and two stops, positive
    off the diagonal and obeying the triangle inequality: the way from
    stop 2 to stop 1 is longer than the way from stop 1 to stop 2. *)
Definition detour_matrix : Matrix :=
  [ [0; 7; 7];
    [7; 0; 1];
    [8; 3; 0] ]%R.

(** Directed distances between a depot (index 0) and three stops,
    positive off the diagonal and obeying the triangle inequality. *)
Definition one_way_matrix : Matrix :=
  [ [0; 3; 5; 4];
    [3; 0; 3; 5];
    [4; 4; 0; 2];
    [5; 2; 4; 0] ]%R.

(** The desirability score of candidate [k] in the words of the
    specification: [pheromone[current][k]^alpha * (1/distance[current][k])^beta],
    the heuristic term being 0 when the distance is 0. *)
Definition desirability (pheromones distances : Matrix) (current k : nat) : R :=
  (mget pheromones current k ^ ACO_ALPHA
   * (if Req_dec_T (mget distances current k) 0 then 0
      else (1 / mget distances current k) ^ ACO_BETA))%R.

(** The inputs of one evaporation-plus-deposit cycle: all tours of the
    iteration, the iteration best, the global best. *)
Definition cycle_inputs : Type :=
  list (list nat * R) * (list nat * R) * option (list nat * R).

Definition run_cycle (c : cycle_inputs) (field : Matrix) : result Matrix :=
  _update_pheromones field c.1.1 c.1.2 c.2.

(** A two-location distance matrix and pheromone field. *)
Definition unit_distances : Matrix := [ [0; 1]; [1; 0] ]%R.

(** A depot and three bins on a line, and a provider whose driving
    distances between them are those of [one_way_matrix] (in metres, as
    OSRM reports them). *)
Definition one_way_depot : Point := {| lat := 0; lon := 0 |}.

Definition one_way_bins : list Container :=
  [ {| container_id := 1; latitude := 1; longitude := 0;
       vehicle_type := "Crane" |};
    {| container_id := 2; latitude := 2; longitude := 0;
       vehicle_type := "Crane" |};
    {| container_id := 3; latitude := 3; longitude := 0;
       vehicle_type := "Crane" |} ].

Definition one_way_index (p : Point) : nat :=
  if Req_dec_T (lat p) 0 then 0
  else if Req_dec_T (lat p) 1 then 1
  else if Req_dec_T (lat p) 2 then 2
  else 3.

Definition osrm_one_way : Point -> Point -> HttpOutcome :=
  fun p q =>
    Responds "Ok"
      [ {| route_distance :=
             (1000 * mget one_way_matrix (one_way_index p) (one_way_index q))%R;
           route_geometry := [] |} ].

(** A provider that cannot be reached: every request fails. *)
Definition osrm_unreachable : Point -> Point -> HttpOutcome :=
  fun _ _ => RequestFails.

(** Every route the provider reports has a non-negative length. *)
Definition nonneg_routes (osrm : Point -> Point -> HttpOutcome) : Prop :=
  forall p q code route routes,
    osrm p q = Responds code (route :: routes) ->
    (0 <= route_distance route)%R.

(** The directed edge from location [i] to location [j] is travelled by
    the closed path of [tour]. *)
Definition on_tour (tour : list nat) (i j : nat) : Prop :=
  exists k, full_path tour !! k = Some i /\ full_path tour !! S k = Some j.

(** The location of a stop. *)
Definition stop_point (s : RouteStop) : Point :=
  {| lat := stop_latitude s; lon := stop_longitude s |}.

(** The location a route leaves from on its way to the stop of rank [k]. *)
Definition departure (start_point : Point) (route : list RouteStop) (k : nat)
  : Point :=
  match k with
  | O => start_point
  | S k' =>
      match route !! k' with
      | Some s => stop_point s
      | None => start_point
      end
  end.

(** The provider reports no distance from [p] to the container [c]. *)
Definition unreachable (osrm : Point -> Point -> HttpOutcome) (p : Point)
  (c : Container) : Prop :=
  exists geometry, get_distance osrm p (container_point c) = Ok (None, geometry).

(** What the nearest-container scan has found after the containers
    [seen]: nothing if none of them is reachable, otherwise one of them
    with its reported distance, which no other one undercuts. *)
Definition nearest_so_far (osrm : Point -> Point -> HttpOutcome) (p : Point)
  (seen : list Container) (best : option (Container * R * option Geometry))
  : Prop :=
  match best with
  | None => forall c, In c seen -> unreachable osrm p c
  | Some (c, d, geometry) =>
      In c seen /\
      get_distance osrm p (container_point c) = Ok (Some d, geometry) /\
      forall c' d' geometry',
        In c' seen ->
        get_distance osrm p (container_point c') = Ok (Some d', geometry') ->
        (d <= d')%R
  end.

(** A route that, from [p] and with the containers [remaining] to choose
    from, always goes to a reachable container of least reported
    distance, and ends with [left] when none of them is reachable. *)
Inductive nearest_first (osrm : Point -> Point -> HttpOutcome)
  : Point -> list Container -> list RouteStop -> list Container -> Prop :=
| nearest_stop (p : Point) (remaining : list Container) :
    (forall c, In c remaining -> unreachable osrm p c) ->
    nearest_first osrm p remaining [] remaining
| nearest_step (p : Point) (remaining rest left : list Container)
    (c : Container) (s : RouteStop) (route : list RouteStop) :
    Permutation remaining (c :: rest) ->
    stop_key s = container_key c ->
    get_distance osrm p (container_point c)
      = Ok (Some (distance_from_previous s), geometry_to_here s) ->
    (forall c' d' geometry',
        In c' remaining ->
        get_distance osrm p (container_point c') = Ok (Some d', geometry') ->
        (distance_from_previous s <= d')%R) ->
    nearest_first osrm (container_point c) rest route left ->
    nearest_first osrm p remaining (s :: route) left.

(** The vehicle type the endpoint works with for a neighbourhood row. *)
Definition row_vehicle_type (row : NeighborhoodRow) : string :=
  match garbage_truck_type row with
  | Some (String c s) => String c s
  | _ => "Large Garbage Truck"%string
  end.

(** A database in which every name is a neighbourhood without a truck
    type, and every neighbourhood holds the two twin bins. *)
Definition any_district (name : string) : option NeighborhoodRow :=
  Some {| neighborhood_id := 1; neighborhood_name := name;
          garbage_truck_type := None |}.

Definition twin_bins_of (_ : Z) (_ : string) : list Container := twin_bins.

(** A database without neighbourhoods. *)
Definition no_district (_ : string) : option NeighborhoodRow := None.

(** A request for the week of a given day. *)
Definition center_request : RouteRequest :=
  {| request_neighborhood := "Center"; week_start_date := "2025-01-06";
     quick_mode := false |}.

(** Distances between a depot at 0 and three stops at 2, 1 and 3 on a
    line: the same in both directions. *)
Definition line_matrix : Matrix :=
  [ [0; 2; 1; 3];
    [2; 0; 1; 1];
    [1; 1; 0; 2];
    [3; 1; 2; 0] ]%R.

(** * Properties *)

(** Evaluation of the real-number tests met on concrete inputs. *)
Ltac eval_tests :=
  repeat (cbn -[IZR Rplus Rmult Rlt_dec Rle_dec Rdiv Rinv];
          unfold improves, mget;
          cbn -[IZR Rplus Rmult Rlt_dec Rle_dec Rdiv Rinv];
          match goal with
          | |- context [Rlt_dec ?a ?b] => destruct (Rlt_dec a b); try lra
          | |- context [Rle_dec ?a ?b] => destruct (Rle_dec a b); try lra
          end).


(** ** The result monad *)

Lemma bind_Ok {A B : Type} (c : result A) (f : A -> result B) (b : B) :
  c ≫= f = Ok b -> exists a, c = Ok a /\ f a = Ok b.
Proof.
  destruct c as [a| |]; cbn; intros H; try discriminate.
  exists a. split; [reflexivity | exact H].
Qed.

(** A loop over [range(a, a + len)] keeps an invariant indexed by the
    loop counter. *)
Lemma for_each_seq_inv {S : Type} (P : nat -> S -> Prop)
  (body : nat -> S -> result S) (len a : nat) (s : S) :
  P a s ->
  (forall k t, a <= k < a + len -> P k t ->
     exists t', body k t = Ok t' /\ P (Datatypes.S k) t') ->
  exists s', for_each (seq a len) body s = Ok s' /\ P (a + len) s'.
Proof.
  revert a s. induction len as [|len IH]; intros a s Hs Hstep.
  - exists s. split; [reflexivity|]. replace (a + 0) with a by lia. exact Hs.
  - destruct (Hstep a s ltac:(lia) Hs) as (t & Ht & HP).
    destruct (IH (Datatypes.S a) t HP) as (s' & Hs' & HP').
    { intros k u Hk. apply Hstep. lia. }
    exists s'. split.
    + cbn. rewrite Ht. cbn. exact Hs'.
    + replace (a + Datatypes.S len) with (Datatypes.S a + len) by lia. exact HP'.
Qed.

(** A loop whose body either advances the invariant or runs out of fuel
    for the one reason [stuck] does the same as a whole. *)
Lemma for_each_seq_safe {S : Type} (P : nat -> S -> Prop) (stuck : Prop)
  (body : nat -> S -> result S) (len a : nat) (s : S) :
  P a s ->
  (forall k t, a <= k < a + len -> P k t ->
     (exists t', body k t = Ok t' /\ P (Datatypes.S k) t') \/
     (body k t = OutOfFuel /\ stuck)) ->
  (exists s', for_each (seq a len) body s = Ok s' /\ P (a + len) s') \/
  (for_each (seq a len) body s = OutOfFuel /\ stuck).
Proof.
  revert a s. induction len as [|len IH]; intros a s Hs Hstep.
  - left. exists s. split; [reflexivity|]. replace (a + 0) with a by lia. exact Hs.
  - destruct (Hstep a s ltac:(lia) Hs) as [(t & Ht & HP)|[Ht Hstuck]].
    + destruct (IH (Datatypes.S a) t HP) as [(s' & Hs' & HP')|[Hs' Hstuck]].
      { intros k u Hk. apply Hstep. lia. }
      * left. exists s'. split.
        -- cbn. rewrite Ht. cbn. exact Hs'.
        -- replace (a + Datatypes.S len) with (Datatypes.S a + len) by lia. exact HP'.
      * right. split; [|exact Hstuck]. cbn. rewrite Ht. cbn. exact Hs'.
    + right. split; [|exact Hstuck]. cbn. rewrite Ht. reflexivity.
Qed.

(** The same for a partial-correctness invariant: whatever the loop
    returns satisfies it. *)
Lemma for_each_inv {A S : Type} (P : S -> Prop)
  (body : A -> S -> result S) (xs : list A) (s s' : S) :
  P s ->
  (forall x t t', body x t = Ok t' -> P t -> P t') ->
  for_each xs body s = Ok s' -> P s'.
Proof.
  revert s. induction xs as [|x xs IH]; intros s Hs Hstep H; cbn in H.
  - injection H as <-. exact Hs.
  - apply bind_Ok in H as (t & Ht & H). eauto.
Qed.

(** ** Matrices *)

Lemma square_np_full (n : nat) (v : R) : square n (np_full n v).
Proof.
  split.
  - apply length_replicate.
  - apply Forall_replicate, length_replicate.
Qed.

Lemma mget_np_full (n : nat) (v : R) (i j : nat) :
  i < n -> j < n -> mget (np_full n v) i j = v.
Proof.
  intros Hi Hj. unfold mget, np_full.
  rewrite !nth_lookup, lookup_replicate_2 by exact Hi. cbn.
  rewrite lookup_replicate_2 by exact Hj. reflexivity.
Qed.

Lemma square_row (n : nat) (m : Matrix) (i : nat) :
  square n m -> i < n -> exists row, m !! i = Some row /\ length row = n.
Proof.
  intros [Hlen Hrows] Hi.
  destruct (lookup_lt_is_Some_2 m i ltac:(lia)) as [row Hrow].
  exists row. split; [exact Hrow|].
  rewrite Forall_lookup in Hrows. eauto.
Qed.

Lemma mset_spec (n : nat) (m : Matrix) (i j : nat) (x : R) :
  square n m -> i < n -> j < n ->
  exists m', mset m i j x = Ok m' /\ square n m' /\
    mget m' i j = x /\
    forall i' j', (i', j') <> (i, j) -> mget m' i' j' = mget m i' j'.
Proof.
  intros Hsq Hi Hj.
  destruct (square_row n m i Hsq Hi) as (row & Hrow & Hlen).
  unfold mset. rewrite Hrow.
  destruct (decide (j < length row)) as [_|Hn]; [|lia].
  eexists. split; [reflexivity|].
  destruct Hsq as [Hm Hrows]. split; [split|split].
  - rewrite length_insert. exact Hm.
  - apply Forall_insert; [exact Hrows|]. rewrite length_insert. exact Hlen.
  - unfold mget. rewrite !nth_lookup.
    rewrite list_lookup_insert_eq by lia. cbn.
    rewrite list_lookup_insert_eq by lia. reflexivity.
  - intros i' j' Hne. unfold mget. rewrite !nth_lookup.
    destruct (decide (i' = i)) as [->|Hi'].
    + rewrite list_lookup_insert_eq by lia. rewrite Hrow. cbn.
      rewrite list_lookup_insert_ne by congruence. reflexivity.
    + rewrite list_lookup_insert_ne by congruence. reflexivity.
Qed.

(** ** The distance oracle *)

Section Oracle.

Variable osrm : Point -> Point -> HttpOutcome.

Lemma get_distance_fails (p q : Point) :
  osrm p q = RequestFails ->
  get_distance osrm p q = Ok (Some (_euclidean_distance p q), None).
Proof. intros H. unfold get_distance, requests_get. rewrite H. reflexivity. Qed.

Lemma get_distance_no_route (p q : Point) (code : string)
  (routes : list OsrmRoute) :
  osrm p q = Responds code routes ->
  ~ (code = "Ok"%string /\ routes <> []) ->
  get_distance osrm p q = Ok (None, None).
Proof.
  intros H Hno. unfold get_distance, requests_get. rewrite H. cbn.
  destruct routes as [|route routes].
  - destruct code as [|a [|b [|c code]]]; try reflexivity;
      repeat match goal with
             | |- context [match ?x with _ => _ end] => destruct x; try reflexivity
             end.
  - destruct (String.eqb_spec code "Ok") as [->|Hne].
    + exfalso. apply Hno. split; [reflexivity | discriminate].
    + destruct code as [|a [|b [|c code]]]; try reflexivity;
      repeat match goal with
             | |- context [match ?x with _ => _ end] =>
                 destruct x; try reflexivity; try congruence
             end.
Qed.

Lemma get_distance_route (p q : Point) (route : OsrmRoute)
  (routes : list OsrmRoute) :
  osrm p q = Responds "Ok" (route :: routes) ->
  get_distance osrm p q =
    Ok (Some (route_distance route / 1000)%R, Some (route_geometry route)).
Proof. intros H. unfold get_distance, requests_get. rewrite H. reflexivity. Qed.

Lemma get_distance_total (p q : Point) :
  exists r, get_distance osrm p q = Ok r.
Proof.
  destruct (osrm p q) as [|code routes] eqn:H.
  - eexists. apply get_distance_fails, H.
  - destruct (String.eqb_spec code "Ok") as [->|Hne].
    + destruct routes as [|route routes].
      * eexists. eapply get_distance_no_route; [exact H|]. intros [_ Hr]. congruence.
      * eexists. eapply get_distance_route, H.
    + eexists. eapply get_distance_no_route; [exact H|]. intros [Hc _]. congruence.
Qed.

End Oracle.

(** ** The distance matrix builder *)

Section Builder.

Variable osrm : Point -> Point -> HttpOutcome.
Variable locations : list Point.
Variable n : nat.
Hypothesis locations_length : length locations = n.

Lemma cell_built_transfer (m m' : Matrix) (c c' : GeometryCache) (i j : nat) :
  mget m' i j = mget m i j -> c' !! (i, j) = c !! (i, j) ->
  cell_built osrm locations m c i j -> cell_built osrm locations m' c' i j.
Proof.
  unfold cell_built. intros -> -> H. exact H.
Qed.

Lemma build_cell_step (i k : nat) (s : Matrix * GeometryCache) :
  i < n -> k < n -> built_upto osrm locations n i k s ->
  exists s', build_cell osrm locations i k s = Ok s' /\
             built_upto osrm locations n i (S k) s'.
Proof.
  intros Hi Hk. destruct s as [m c]. intros [Hsq Hcells]. cbn in Hsq, Hcells.
  assert (Hfresh : c !! (i, k) = None).
  { specialize (Hcells i k Hi Hk).
    destruct (decide (i < i \/ i = i /\ k < k)) as [?|_]; [lia | exact Hcells]. }
  assert (Hfinish : forall (m' : Matrix) (c' : GeometryCache),
    square n m' ->
    (forall i' j', (i', j') <> (i, k) -> mget m' i' j' = mget m i' j') ->
    (forall i' j', (i', j') <> (i, k) -> c' !! (i', j') = c !! (i', j')) ->
    cell_built osrm locations m' c' i k ->
    built_upto osrm locations n i (S k) (m', c')).
  { intros m' c' Hsq' Hm' Hc' Hnew. split; [exact Hsq'|]. cbn.
    intros i' j' Hi' Hj'. specialize (Hcells i' j' Hi' Hj').
    destruct (decide ((i', j') = (i, k))) as [Heq|Hne].
    - injection Heq as -> ->.
      destruct (decide (i < i \/ i = i /\ k < S k)) as [_|?]; [exact Hnew | lia].
    - destruct (decide (i' < i \/ i' = i /\ j' < S k)) as [Hp|Hp];
        destruct (decide (i' < i \/ i' = i /\ j' < k)) as [Hq|Hq].
      + eapply cell_built_transfer; [apply Hm' | apply Hc' | exact Hcells]; exact Hne.
      + exfalso. apply Hne. f_equal; lia.
      + lia.
      + rewrite Hc' by exact Hne. exact Hcells. }
  unfold build_cell.
  destruct (decide (i = k)) as [->|Hik].
  - destruct (mset_spec n m k k 0%R Hsq Hk Hk) as (m' & -> & Hsq' & Hget & Hother).
    eexists. split; [reflexivity|]. apply Hfinish; auto.
    unfold cell_built. rewrite decide_True by reflexivity. auto.
  - destruct (lookup_lt_is_Some_2 locations i ltac:(lia)) as [pi Hpi].
    destruct (lookup_lt_is_Some_2 locations k ltac:(lia)) as [pk Hpk].
    unfold index. rewrite Hpi, Hpk. cbn.
    destruct (get_distance_total osrm pi pk) as ([[d|] g] & Hg); rewrite Hg; cbn.
    + destruct (mset_spec n m i k d Hsq Hi Hk) as (m' & -> & Hsq' & Hget & Hother).
      eexists. split; [reflexivity|]. apply Hfinish; auto.
      * intros i' j' Hne. apply lookup_insert_ne. congruence.
      * unfold cell_built. rewrite decide_False by exact Hik.
        exists pi, pk. rewrite Hg. repeat split; auto.
        apply lookup_insert_eq.
    + destruct (mset_spec n m i k 999%R Hsq Hi Hk) as (m' & -> & Hsq' & Hget & Hother).
      eexists. split; [reflexivity|]. apply Hfinish; auto.
      unfold cell_built. rewrite decide_False by exact Hik.
      exists pi, pk. rewrite Hg. repeat split; auto.
Qed.

Lemma build_row (i : nat) (s : Matrix * GeometryCache) :
  i < n -> built_upto osrm locations n i 0 s ->
  exists s', for_each (seq 0 n) (build_cell osrm locations i) s = Ok s' /\
             built_upto osrm locations n (S i) 0 s'.
Proof.
  intros Hi Hs.
  destruct (for_each_seq_inv (built_upto osrm locations n i)
              (build_cell osrm locations i) n 0 s Hs) as (s' & Hrun & Hs').
  { intros k t Hk Ht. apply build_cell_step; [exact Hi | lia | exact Ht]. }
  exists s'. split; [exact Hrun|].
  destruct Hs' as [Hsq Hcells]. split; [exact Hsq|].
  intros i' j' Hi' Hj'. specialize (Hcells i' j' Hi' Hj'). cbn in Hcells.
  destruct (decide (i' < i \/ i' = i /\ j' < n)) as [Hp|Hp];
    destruct (decide (i' < S i \/ i' = S i /\ j' < 0)) as [Hq|Hq];
    try exact Hcells; lia.
Qed.

Lemma build_all (s : Matrix * GeometryCache) :
  built_upto osrm locations n 0 0 s ->
  exists s',
    for_each (seq 0 n)
      (fun i t => for_each (seq 0 n) (fun j t' => build_cell osrm locations i j t') t)
      s = Ok s' /\
    built_upto osrm locations n n 0 s'.
Proof.
  intros Hs.
  apply (for_each_seq_inv (fun i => built_upto osrm locations n i 0)
           _ n 0 s Hs).
  intros i t Hi Ht. apply build_row; [lia | exact Ht].
Qed.

End Builder.

(** What [_build_distance_matrix] returns: a square matrix and a cache
    whose cells are all as [build_cell] writes them. *)
Lemma build_distance_matrix_spec (osrm : Point -> Point -> HttpOutcome)
  (depot : Point) (containers : list Container) :
  let n := (length containers + 1)%nat in
  let locations := depot :: map container_point containers in
  exists m c,
    _build_distance_matrix osrm depot containers = Ok (m, c) /\
    square n m /\
    forall i j, i < n -> j < n -> cell_built osrm locations m c i j.
Proof.
  intros n locations.
  destruct (build_all osrm locations n) with (s := (np_full n 0%R, (∅ : GeometryCache)))
    as ([m c] & Hrun & Hsq & Hcells).
  - subst locations n. cbn. rewrite length_map. lia.
  - split; [apply square_np_full|]. cbn. intros i' j' _ _.
    rewrite decide_False by lia. apply lookup_empty.
  - exists m, c. split; [exact Hrun|]. split; [exact Hsq|].
    intros i j Hi Hj. specialize (Hcells i j Hi Hj). cbn in Hcells.
    rewrite decide_True in Hcells by lia. exact Hcells.
Qed.

Lemma euclidean_distance_same (p : Point) : _euclidean_distance p p = 0%R.
Proof.
  unfold _euclidean_distance.
  replace (math_radians (lat p) - math_radians (lat p))%R with 0%R by lra.
  replace (math_radians (lon p) - math_radians (lon p))%R with 0%R by lra.
  replace (0 / 2)%R with 0%R by lra.
  rewrite sin_0.
  replace (0 ^ 2 + cos (math_radians (lat p)) * cos (math_radians (lat p)) * 0 ^ 2)%R
    with 0%R by (cbn; lra).
  rewrite sqrt_0, asin_0. lra.
Qed.

(** C1, as stated, fails: when the provider answers "no route" for the
    pair (1, 2) of two bins at the same spot, the builder stores 999 for
    it, while the haversine estimate of that pair is 0. *)
Lemma no_route_stores_sentinel :
  exists m c from_point to_point,
    _build_distance_matrix osrm_no_route DEPOT_LOCATION twin_bins = Ok (m, c) /\
    (DEPOT_LOCATION :: map container_point twin_bins) !! 1%nat = Some from_point /\
    (DEPOT_LOCATION :: map container_point twin_bins) !! 2%nat = Some to_point /\
    osrm_no_route from_point to_point = Responds "NoRoute" [] /\
    mget m 1 2 = 999%R /\
    mget m 1 2 <> _euclidean_distance from_point to_point.
Proof.
  destruct (build_distance_matrix_spec osrm_no_route DEPOT_LOCATION twin_bins)
    as (m & c & Hrun & _ & Hcells).
  specialize (Hcells 1%nat 2%nat ltac:(cbn; lia) ltac:(cbn; lia)).
  unfold cell_built in Hcells. rewrite decide_False in Hcells by lia.
  destruct Hcells as (p & q & Hp & Hq & Hcell).
  cbn in Hp, Hq. injection Hp as <-. injection Hq as <-.
  cbn in Hcell. destruct Hcell as [Hm _].
  exists m, c. do 2 eexists.
  split; [exact Hrun|]. split; [reflexivity|]. split; [reflexivity|].
  split; [reflexivity|]. split; [exact Hm|].
  rewrite Hm, euclidean_distance_same. lra.
Qed.

(** C1, amended: [_build_distance_matrix] always returns (no exception
    leaves it); for an ordered pair whose query fails with a request
    exception it stores the haversine estimate, for a pair the provider
    reports as having no route it stores 999; in both cases the cache
    yields no geometry for the pair (it holds [None] under the pair's key
    in the first case and has no such key in the second). *)
Theorem build_distance_matrix_on_failure
  (osrm : Point -> Point -> HttpOutcome) (depot : Point)
  (containers : list Container) :
  exists m c,
    _build_distance_matrix osrm depot containers = Ok (m, c) /\
    forall i j from_point to_point,
      (depot :: map container_point containers) !! i = Some from_point ->
      (depot :: map container_point containers) !! j = Some to_point ->
      i <> j ->
      (osrm from_point to_point = RequestFails ->
         mget m i j = _euclidean_distance from_point to_point /\
         c !! (i, j) = Some None /\
         cache_get c (i, j) = None) /\
      (forall code routes,
         osrm from_point to_point = Responds code routes ->
         ~ (code = "Ok"%string /\ routes <> []) ->
         mget m i j = 999%R /\
         c !! (i, j) = None /\
         cache_get c (i, j) = None).
Proof.
  destruct (build_distance_matrix_spec osrm depot containers)
    as (m & c & Hrun & _ & Hcells).
  exists m, c. split; [exact Hrun|].
  intros i j p q Hp Hq Hij.
  assert (Hi : i < length containers + 1).
  { apply lookup_lt_Some in Hp. cbn in Hp. rewrite length_map in Hp. lia. }
  assert (Hj : j < length containers + 1).
  { apply lookup_lt_Some in Hq. cbn in Hq. rewrite length_map in Hq. lia. }
  specialize (Hcells i j Hi Hj). unfold cell_built in Hcells.
  rewrite decide_False in Hcells by exact Hij.
  destruct Hcells as (p' & q' & Hp' & Hq' & Hcell).
  rewrite Hp in Hp'. rewrite Hq in Hq'. injection Hp' as <-. injection Hq' as <-.
  split.
  - intros Hfail. rewrite (get_distance_fails osrm p q Hfail) in Hcell.
    destruct Hcell as [Hm Hc]. split; [exact Hm|]. split; [exact Hc|].
    unfold cache_get. rewrite Hc. reflexivity.
  - intros code routes Hresp Hno.
    rewrite (get_distance_no_route osrm p q code routes Hresp Hno) in Hcell.
    destruct Hcell as [Hm Hc]. split; [exact Hm|]. split; [exact Hc|].
    unfold cache_get. rewrite Hc. reflexivity.
Qed.

(** ** The 2-opt refiner *)

Section TwoOpt.

Variable d : Matrix.

Lemma scan_j_Some (p : list nat) (i : nat) (js : list nat) (p' : list nat) :
  scan_j d p i js = Some p' ->
  exists j, In j js /\ improves d p i j = true /\ p' = reverse_segment p i j.
Proof.
  induction js as [|j js IH]; cbn; [discriminate|].
  destruct (improves d p i j) eqn:Himp.
  - intros [= <-]. exists j. auto.
  - intros H. destruct (IH H) as (j' & Hin & Hj'). exists j'. auto.
Qed.

Lemma scan_i_Some (p rows p' : list nat) :
  scan_i d p rows = Some p' ->
  exists i j, In i rows /\ In j (seq (i + 1) (length p - 1 - (i + 1))) /\
    improves d p i j = true /\ p' = reverse_segment p i j.
Proof.
  induction rows as [|i rows IH]; cbn; [discriminate|].
  destruct (scan_j d p i _) as [q|] eqn:Hj.
  - intros [= <-]. apply scan_j_Some in Hj as (j & Hin & Himp & ->).
    exists i, j. auto.
  - intros H. destruct (IH H) as (i' & j & Hin & Hrest). exists i', j. auto.
Qed.

Lemma two_opt_scan_Some (p p' : list nat) :
  two_opt_scan d p = Some p' ->
  exists i j, 1 <= i < j /\ j + 1 < length p /\
    improves d p i j = true /\ p' = reverse_segment p i j.
Proof.
  unfold two_opt_scan. intros H.
  apply scan_i_Some in H as (i & j & Hi & Hj & Himp & ->).
  apply in_seq in Hi. apply in_seq in Hj.
  exists i, j. repeat split; auto; lia.
Qed.

(** A path cut at the two edges the test looks at. *)
Lemma path_split (p : list nat) (i j : nat) :
  1 <= i < j -> j + 1 < length p ->
  exists A a x mid y b B,
    p = A ++ a :: x :: mid ++ y :: b :: B /\
    i = S (length A) /\ j = S (S (length A + length mid)).
Proof.
  intros Hi Hj.
  pose proof (take_drop (i - 1) p) as Hp.
  pose proof (length_drop p (i - 1)) as Hd.
  pose proof (length_take p (i - 1)) as Ht.
  destruct (drop (i - 1) p) as [|a [|x rest]]; cbn in Hd; try lia.
  pose proof (take_drop (j - i - 1) rest) as Hrest.
  pose proof (length_drop rest (j - i - 1)) as Hd'.
  pose proof (length_take rest (j - i - 1)) as Ht'.
  destruct (drop (j - i - 1) rest) as [|y [|b B]]; cbn in Hd'; try lia.
  exists (take (i - 1) p), a, x, (take (j - i - 1) rest), y, b, B.
  rewrite Hrest, Hp. split; [reflexivity|]. lia.
Qed.

Lemma split_nth (A : list nat) (a x : nat) (mid : list nat) (y b : nat)
  (B : list nat) :
  let p := A ++ a :: x :: mid ++ y :: b :: B in
  let i := S (length A) in
  let j := S (S (length A + length mid)) in
  nth (i - 1) p 0 = a /\ nth i p 0 = x /\ nth j p 0 = y /\ nth (j + 1) p 0 = b.
Proof.
  intros p i j. subst p i j. repeat split.
  - replace (S (length A) - 1) with (length A) by lia. apply nth_middle.
  - replace (A ++ a :: x :: mid ++ y :: b :: B)
      with ((A ++ [a]) ++ x :: mid ++ y :: b :: B)
      by (rewrite <- app_assoc; reflexivity).
    replace (S (length A)) with (length (A ++ [a]))
      by (rewrite length_app; cbn; lia).
    apply nth_middle.
  - replace (A ++ a :: x :: mid ++ y :: b :: B)
      with ((A ++ a :: x :: mid) ++ y :: b :: B)
      by (rewrite <- app_assoc; reflexivity).
    replace (S (S (length A + length mid))) with (length (A ++ a :: x :: mid))
      by (rewrite length_app; cbn; lia).
    apply nth_middle.
  - replace (A ++ a :: x :: mid ++ y :: b :: B)
      with ((A ++ a :: x :: mid ++ [y]) ++ b :: B)
      by (rewrite <- !app_assoc; cbn; rewrite <- app_assoc; reflexivity).
    replace (S (S (length A + length mid)) + 1)
      with (length (A ++ a :: x :: mid ++ [y]))
      by (rewrite length_app; cbn; rewrite length_app; cbn; lia).
    apply nth_middle.
Qed.

Lemma split_reverse (A : list nat) (a x : nat) (mid : list nat) (y b : nat)
  (B : list nat) :
  reverse_segment (A ++ a :: x :: mid ++ y :: b :: B)
    (S (length A)) (S (S (length A + length mid)))
  = A ++ a :: (y :: rev mid ++ [x]) ++ b :: B.
Proof.
  unfold reverse_segment.
  replace (A ++ a :: x :: mid ++ y :: b :: B)
    with ((A ++ [a]) ++ (x :: mid ++ [y]) ++ b :: B)
    by (rewrite <- !app_assoc; cbn; rewrite <- app_assoc; reflexivity).
  assert (HA : length (A ++ [a]) = S (length A))
    by (rewrite length_app; cbn; lia).
  assert (Hm : length (x :: mid ++ [y]) = S (S (length A + length mid)) + 1 - S (length A))
    by (cbn; rewrite length_app; cbn; lia).
  rewrite take_app_length' by (symmetry; exact HA).
  rewrite drop_app_length' by (symmetry; exact HA).
  rewrite take_app_length' by (symmetry; exact Hm).
  replace ((A ++ [a]) ++ (x :: mid ++ [y]) ++ b :: B)
    with (((A ++ [a]) ++ (x :: mid ++ [y])) ++ b :: B)
    by (rewrite <- !app_assoc; reflexivity).
  rewrite drop_app_length'
    by (rewrite length_app, HA; cbn; rewrite length_app; cbn; lia).
  cbn. rewrite rev_app_distr. cbn. rewrite <- !app_assoc. reflexivity.
Qed.

Lemma path_cost_join (l1 : list nat) (a b : nat) (l2 : list nat) :
  path_cost d (l1 ++ a :: b :: l2)
  = (path_cost d (l1 ++ [a]) + mget d a b + path_cost d (b :: l2))%R.
Proof.
  induction l1 as [|c l1 IH].
  - cbn. lra.
  - destruct l1 as [|c' l1].
    + cbn in *. lra.
    + change (path_cost d ((c :: c' :: l1) ++ a :: b :: l2))
        with (mget d c c' + path_cost d ((c' :: l1) ++ a :: b :: l2))%R.
      change (path_cost d ((c :: c' :: l1) ++ [a]))
        with (mget d c c' + path_cost d ((c' :: l1) ++ [a]))%R.
      rewrite IH. lra.
Qed.

Lemma path_cost_rev (l : list nat) :
  symmetric d -> path_cost d (rev l) = path_cost d l.
Proof.
  intros Hsym. induction l as [|a l IH]; [reflexivity|].
  destruct l as [|b l]; [reflexivity|].
  change (rev (a :: b :: l)) with (rev (b :: l) ++ [a]).
  change (rev (b :: l)) with (rev l ++ [b]) at 1.
  rewrite <- app_assoc. cbn [app].
  rewrite path_cost_join.
  change (rev l ++ [b]) with (rev (b :: l)). rewrite IH.
  rewrite (Hsym b a). cbn. lra.
Qed.

(** The closed-path cost before and after the reversal of [x .. y]. *)
Lemma path_cost_split (A : list nat) (a x : nat) (mid : list nat) (y b : nat)
  (B : list nat) :
  path_cost d (A ++ a :: x :: mid ++ y :: b :: B)
  = (path_cost d (A ++ [a]) + mget d a x + path_cost d (x :: mid ++ [y])
     + mget d y b + path_cost d (b :: B))%R.
Proof.
  rewrite path_cost_join.
  replace (x :: mid ++ y :: b :: B) with ((x :: mid) ++ y :: b :: B) by reflexivity.
  rewrite path_cost_join. cbn [app]. lra.
Qed.

Lemma reversal_cost (A : list nat) (a x : nat) (mid : list nat) (y b : nat)
  (B : list nat) :
  path_cost d (A ++ a :: (y :: rev mid ++ [x]) ++ b :: B)
  = (path_cost d (A ++ [a]) + mget d a y + path_cost d (rev (x :: mid ++ [y]))
     + mget d x b + path_cost d (b :: B))%R.
Proof.
  replace (A ++ a :: (y :: rev mid ++ [x]) ++ b :: B)
    with (A ++ a :: y :: rev mid ++ x :: b :: B)
    by (cbn; rewrite <- app_assoc; reflexivity).
  rewrite path_cost_split.
  replace (rev (x :: mid ++ [y])) with (y :: rev mid ++ [x])
    by (cbn; rewrite rev_app_distr; reflexivity).
  lra.
Qed.

(** On a symmetric matrix an accepted reversal strictly lowers the
    closed-path cost. *)
Lemma accepted_reversal_cost (p : list nat) (i j : nat) :
  symmetric d -> 1 <= i < j -> j + 1 < length p ->
  improves d p i j = true ->
  (path_cost d (reverse_segment p i j) < path_cost d p)%R.
Proof.
  intros Hsym Hi Hj Himp.
  destruct (path_split p i j Hi Hj) as (A & a & x & mid & y & b & B & -> & -> & ->).
  unfold improves in Himp.
  destruct (split_nth A a x mid y b B) as (Ea & Ex & Ey & Eb).
  rewrite Ea, Ex, Ey, Eb in Himp.
  rewrite split_reverse, reversal_cost, path_cost_split, path_cost_rev by exact Hsym.
  destruct (Rlt_dec _ _) as [Hlt|]; [|discriminate]. lra.
Qed.

Lemma reverse_segment_perm (p : list nat) (i j : nat) :
  i <= j + 1 -> Permutation (reverse_segment p i j) p.
Proof.
  intros Hij. unfold reverse_segment.
  rewrite <- (take_drop i p) at 4.
  apply Permutation_app_head.
  rewrite <- (take_drop (j + 1 - i) (drop i p)) at 2.
  rewrite drop_drop. replace (i + (j + 1 - i)) with (j + 1) by lia.
  apply Permutation_app_tail. symmetry. apply Permutation_rev.
Qed.

End TwoOpt.

Section TwoOptShape.

Variable d : Matrix.

Lemma reverse_segment_inner (h z : nat) (inner : list nat) (i j : nat) :
  1 <= i <= j -> j <= length inner ->
  reverse_segment (h :: inner ++ [z]) i j
  = h :: reverse_segment inner (i - 1) (j - 1) ++ [z].
Proof.
  intros Hi Hj. destruct i as [|i]; [lia|]. destruct j as [|j]; [lia|].
  unfold reverse_segment. cbn [take drop Nat.add].
  replace (S i - 1) with i by lia. replace (S j - 1) with j by lia.
  replace (S (j + 1) - S i) with (j + 1 - i) by lia.
  replace (drop (S j + 1) (h :: inner ++ [z])) with (drop (j + 1) (inner ++ [z]))
    by (replace (S j + 1) with (S (j + 1)) by lia; reflexivity).
  rewrite take_app_le by lia.
  rewrite !drop_app_le by lia.
  rewrite take_app_le by (rewrite length_drop; lia).
  cbn. rewrite <- !app_assoc. reflexivity.
Qed.

Lemma two_opt_scan_shape (h z : nat) (inner p' : list nat) :
  two_opt_scan d (h :: inner ++ [z]) = Some p' ->
  exists inner', p' = h :: inner' ++ [z] /\ Permutation inner' inner.
Proof.
  intros H. apply two_opt_scan_Some in H as (i & j & Hi & Hj & _ & ->).
  cbn in Hj. rewrite length_app in Hj. cbn in Hj.
  rewrite reverse_segment_inner by lia.
  eexists. split; [reflexivity|]. apply reverse_segment_perm. lia.
Qed.

Lemma two_opt_loop_shape (fuel : nat) (h z : nat) (inner p' : list nat) :
  two_opt_loop fuel d (h :: inner ++ [z]) = Ok p' ->
  exists inner', p' = h :: inner' ++ [z] /\ Permutation inner' inner /\
    two_opt_scan d p' = None.
Proof.
  revert inner. induction fuel as [|fuel IH]; intros inner; [discriminate|].
  cbn [two_opt_loop].
  destruct (two_opt_scan d (h :: inner ++ [z])) as [q|] eqn:Hscan.
  - apply two_opt_scan_shape in Hscan as (inner1 & -> & Hperm).
    intros H. destruct (IH inner1 H) as (inner' & -> & Hperm' & Hnone).
    exists inner'. split; [reflexivity|]. split; [|exact Hnone].
    etransitivity; eassumption.
  - intros [= <-]. exists inner. auto.
Qed.

(** The refiner returns a reordering of the tour it was given. *)
Lemma two_opt_perm (fuel : nat) (tour refined : list nat) :
  _two_opt fuel tour d = Ok refined -> Permutation refined tour.
Proof.
  unfold _two_opt, full_path. intros H.
  apply bind_Ok in H as (p' & Hloop & [= <-]).
  apply two_opt_loop_shape in Hloop as (inner' & -> & Hperm & _).
  cbn [tail]. rewrite removelast_last.
  apply (Permutation_map (fun node => node - 1)) in Hperm.
  rewrite map_map in Hperm.
  rewrite (map_ext (fun x => x + 1 - 1) (fun x => x)) in Hperm by (intros; lia).
  rewrite map_id in Hperm. exact Hperm.
Qed.

Lemma two_opt_loop_no_raise (fuel : nat) (p : list nat) (e : exn) :
  two_opt_loop fuel d p <> Raise e.
Proof.
  revert p. induction fuel as [|fuel IH]; intros p; [discriminate|].
  cbn [two_opt_loop]. destruct (two_opt_scan d p); [apply IH | discriminate].
Qed.

(** The refiner raises nothing: it returns or is still running. *)
Lemma two_opt_no_raise (fuel : nat) (tour : list nat) :
  (exists refined, _two_opt fuel tour d = Ok refined) \/
  _two_opt fuel tour d = OutOfFuel.
Proof.
  unfold _two_opt.
  destruct (two_opt_loop fuel d (full_path tour)) as [p|e|] eqn:H.
  - left. eexists. reflexivity.
  - exfalso. exact (two_opt_loop_no_raise _ _ _ H).
  - right. reflexivity.
Qed.

Lemma filter_length_le_bool {A : Type} (f g : A -> bool) (l : list A) :
  (forall y, f y = true -> g y = true) ->
  length (List.filter f l) <= length (List.filter g l).
Proof.
  intros Hfg. induction l as [|y l IH]; cbn; [lia|].
  destruct (f y) eqn:Hf.
  - rewrite (Hfg y Hf). cbn. lia.
  - destruct (g y); cbn; lia.
Qed.

Lemma filter_length_lt_bool {A : Type} (f g : A -> bool) (l : list A) (x : A) :
  (forall y, f y = true -> g y = true) ->
  In x l -> f x = false -> g x = true ->
  length (List.filter f l) < length (List.filter g l).
Proof.
  intros Hfg Hin Hf Hg. induction l as [|y l IH]; [contradiction|].
  cbn. destruct Hin as [->|Hin].
  - rewrite Hf, Hg. cbn.
    pose proof (filter_length_le_bool f g l Hfg). lia.
  - specialize (IH Hin). destruct (f y) eqn:Hfy.
    + rewrite (Hfg y Hfy). cbn. lia.
    + destruct (g y); cbn; lia.
Qed.

Lemma cheaper_count_lt (paths : list (list nat)) (p p' : list nat) :
  In p' paths -> (path_cost d p' < path_cost d p)%R ->
  cheaper_count d paths p' < cheaper_count d paths p.
Proof.
  intros Hin Hlt. unfold cheaper_count.
  apply filter_length_lt_bool with (x := p'); [|exact Hin| |].
  - intros q. destruct (Rlt_dec _ _) as [Hq|]; [|discriminate].
    intros _. destruct (Rlt_dec _ _) as [|Hn]; [reflexivity|]. exfalso. apply Hn. lra.
  - destruct (Rlt_dec _ _) as [Hq|]; [lra | reflexivity].
  - destruct (Rlt_dec _ _) as [|Hn]; [reflexivity | contradiction].
Qed.

(** On a symmetric matrix the [while improved] loop ends: every round
    moves to a strictly cheaper path of a finite stock of paths. *)
Lemma two_opt_loop_halts (paths : list (list nat)) :
  symmetric d ->
  (forall p p', In p paths -> two_opt_scan d p = Some p' -> In p' paths) ->
  forall fuel p, In p paths -> cheaper_count d paths p < fuel ->
    exists p', two_opt_loop fuel d p = Ok p'.
Proof.
  intros Hsym Hclosed. induction fuel as [|fuel IH]; intros p Hin Hcount; [lia|].
  cbn [two_opt_loop]. destruct (two_opt_scan d p) as [q|] eqn:Hscan.
  - apply IH; [eapply Hclosed; eassumption|].
    assert (Hlt : (path_cost d q < path_cost d p)%R).
    { apply two_opt_scan_Some in Hscan as (i & j & Hi & Hj & Himp & ->).
      apply accepted_reversal_cost; assumption. }
    pose proof (cheaper_count_lt paths p q (Hclosed _ _ Hin Hscan) Hlt). lia.
  - eexists. reflexivity.
Qed.

Lemma refiner_halts_symmetric (n : nat) :
  symmetric d -> exists fuel, refiner_halts fuel d n.
Proof.
  intros Hsym.
  set (paths := permutations (full_path (seq 0 n))).
  exists (S (length paths)). intros tour Htour.
  destruct (two_opt_loop_halts paths Hsym) with
    (fuel := S (length paths)) (p := full_path tour) as [p' Hp'].
  - intros p q Hp Hscan. apply list_elem_of_In, permutations_Permutation.
    apply list_elem_of_In, permutations_Permutation in Hp.
    rewrite Hp. apply two_opt_scan_Some in Hscan as (i & j & Hi & Hj & _ & ->).
    symmetry. apply reverse_segment_perm. lia.
  - apply list_elem_of_In, permutations_Permutation.
    unfold full_path. constructor. apply Permutation_app_tail.
    apply Permutation_map. symmetry. exact Htour.
  - unfold cheaper_count. pose proof (List.filter_length_le
      (fun q => if Rlt_dec (path_cost d q) (path_cost d (full_path tour))
                then true else false) paths). lia.
  - unfold _two_opt. rewrite Hp'. cbn. eexists. reflexivity.
Qed.

End TwoOptShape.

(** ** The weighted draw and the tour constructor *)

Lemma sum_list_map_div (ws : list R) (total : R) :
  sum_list (map (fun p => (p / total)%R) ws) = (sum_list ws / total)%R.
Proof.
  induction ws as [|w ws IH]; cbn.
  - unfold Rdiv. lra.
  - rewrite IH. unfold Rdiv. lra.
Qed.

Lemma sum_list_replicate (k : nat) (x : R) :
  sum_list (replicate k x) = (INR k * x)%R.
Proof.
  induction k as [|k IH].
  - cbn. lra.
  - cbn [replicate sum_list]. rewrite IH, S_INR. lra.
Qed.

Lemma accumulate_from_length (acc : R) (ws : list R) :
  length (accumulate_from acc ws) = length ws.
Proof.
  revert acc. induction ws as [|w ws IH]; intros acc; cbn; [reflexivity|].
  rewrite IH. reflexivity.
Qed.

Lemma accumulate_length (ws : list R) : length (accumulate ws) = length ws.
Proof.
  destruct ws as [|w ws]; cbn; [reflexivity|].
  rewrite accumulate_from_length. reflexivity.
Qed.

Lemma accumulate_from_last (acc w : R) (ws : list R) :
  last (acc :: accumulate_from acc (w :: ws))
  = Some (acc + sum_list (w :: ws))%R.
Proof.
  revert acc w. induction ws as [|w' ws IH]; intros acc w.
  - cbn. f_equal. lra.
  - change (accumulate_from acc (w :: w' :: ws))
      with ((acc + w)%R :: accumulate_from (acc + w)%R (w' :: ws)).
    change (last (acc :: (acc + w)%R :: accumulate_from (acc + w)%R (w' :: ws)))
      with (last ((acc + w)%R :: accumulate_from (acc + w)%R (w' :: ws))).
    rewrite IH. f_equal. cbn. lra.
Qed.

(** The last cumulative weight is the sum of the weights. *)
Lemma accumulate_last (ws : list R) :
  ws <> [] -> last (accumulate ws) = Some (sum_list ws).
Proof.
  destruct ws as [|w [|w' ws]]; [congruence| |]; intros _.
  - cbn. f_equal. lra.
  - unfold accumulate. rewrite accumulate_from_last. reflexivity.
Qed.

Lemma bisect_le (a : list R) (x : R) (hi : nat) : bisect a x hi <= hi.
Proof.
  revert a. induction hi as [|hi IH]; intros [|e a]; cbn; try lia.
  destruct (Rle_dec e x); [|lia]. specialize (IH a). lia.
Qed.

(** A draw with weights of positive total returns a member of the
    population and consumes one random number. *)
Lemma random_choices_Ok (population : list nat) (weights : list R) (g : Rng) :
  population <> [] -> length weights = length population ->
  (0 < sum_list weights)%R ->
  exists x, random_choices population weights g = Ok (x, (random g).2) /\
            In x population.
Proof.
  intros Hne Hlen Hpos. unfold random_choices.
  rewrite accumulate_length, decide_True by exact Hlen.
  rewrite accumulate_last by (intros ->; destruct population; [congruence | discriminate]).
  destruct (Rle_dec (sum_list weights) 0) as [Hle|_]; [lra|].
  cbn [random].
  set (k := bisect _ _ _).
  assert (Hk : k < length population).
  { pose proof (bisect_le (accumulate weights)
                  (g 0%nat * sum_list weights)%R (length population - 1)).
    destruct population; [congruence|]. cbn in *. subst k. lia. }
  destruct (lookup_lt_is_Some_2 population k Hk) as [x Hx].
  exists x. unfold index. rewrite Hx. cbn. split; [reflexivity|].
  apply list_elem_of_In. eapply list_elem_of_lookup_2. exact Hx.
Qed.

Section Construction.

Variables pher dist : Matrix.

(** The list handed to [random.choices] has one entry per candidate and
    sums to one. *)
Lemma selection_probabilities_Ok (current_idx : nat) (unvisited : list nat) :
  unvisited <> [] ->
  exists probabilities,
    selection_probabilities pher dist current_idx unvisited = Ok probabilities /\
    length probabilities = length unvisited /\
    sum_list probabilities = 1%R.
Proof.
  intros Hne. unfold selection_probabilities.
  set (ws := map (selection_weight pher dist current_idx) unvisited).
  destruct (Rlt_dec 0 (sum_list ws)) as [Hpos|Hzero].
  - eexists. split; [reflexivity|]. split.
    + subst ws. rewrite !length_map. reflexivity.
    + rewrite sum_list_map_div. field. lra.
  - destruct unvisited as [|u unvisited]; [congruence|].
    cbn [length]. eexists. split; [reflexivity|]. split.
    + apply length_replicate.
    + rewrite sum_list_replicate. field.
      apply not_0_INR. discriminate.
Qed.

Lemma select_next_container_Ok (current_idx : nat) (unvisited : list nat)
  (g : Rng) :
  unvisited <> [] ->
  exists next_idx,
    _select_next_container current_idx unvisited pher dist g
      = Ok (next_idx, (random g).2) /\
    In next_idx unvisited.
Proof.
  intros Hne. unfold _select_next_container.
  destruct (selection_probabilities_Ok current_idx unvisited Hne)
    as (ps & -> & Hlen & Hsum).
  cbn. apply random_choices_Ok; [exact Hne | exact Hlen | lra].
Qed.

Lemma list_remove_Ok (x : nat) (l : list nat) :
  In x l -> exists l', list_remove x l = Ok l' /\ Permutation l (x :: l').
Proof.
  induction l as [|y l IH]; [contradiction|]. intros Hin. cbn.
  destruct (decide (y = x)) as [->|Hne].
  - exists l. split; [reflexivity | apply Permutation_refl].
  - destruct Hin as [?|Hin]; [congruence|].
    destruct (IH Hin) as (l' & -> & Hperm). cbn.
    exists (y :: l'). split; [reflexivity|].
    rewrite Hperm. apply perm_swap.
Qed.

Lemma construct_loop_Ok (rounds : nat) (current_idx : nat)
  (unvisited tour : list nat) (total : R) (g : Rng) :
  length unvisited <= rounds ->
  exists tour' total' g',
    construct_loop rounds pher dist current_idx unvisited tour total g
      = Ok (tour', total', g') /\
    Permutation tour' (tour ++ map (fun k => k - 1) unvisited).
Proof.
  revert current_idx unvisited tour total g.
  induction rounds as [|rounds IH]; intros current_idx unvisited tour total g Hlen.
  - destruct unvisited; [|cbn in Hlen; lia].
    cbn. do 3 eexists. split; [reflexivity|]. rewrite app_nil_r. reflexivity.
  - destruct unvisited as [|u unvisited].
    + cbn. do 3 eexists. split; [reflexivity|]. rewrite app_nil_r. reflexivity.
    + cbn [construct_loop].
      destruct (select_next_container_Ok current_idx (u :: unvisited) g)
        as (next_idx & -> & Hin); [discriminate|].
      generalize (random g).2. intros g1.
      cbn -[list_remove].
      destruct (list_remove_Ok next_idx (u :: unvisited) Hin) as (rest & -> & Hperm).
      cbn -[construct_loop].
      assert (Hrest : length rest <= rounds).
      { apply Permutation_length in Hperm. cbn in Hperm, Hlen. lia. }
      destruct (IH next_idx rest (tour ++ [next_idx - 1])
                  (total + mget dist current_idx next_idx)%R g1 Hrest)
        as (tour' & total' & g' & -> & Htour).
      do 3 eexists. split; [reflexivity|].
      rewrite Htour, <- app_assoc. apply Permutation_app_head.
      rewrite (Permutation_map (fun k => k - 1) Hperm). reflexivity.
Qed.

Lemma pred_seq (n : nat) : map (fun k => k - 1) (seq 1 n) = seq 0 n.
Proof.
  rewrite <- seq_shift, map_map.
  rewrite (map_ext (fun x => S x - 1) (fun x => x)) by (intros; lia).
  apply map_id.
Qed.

(** Every ant visits each container exactly once. *)
Lemma construct_ant_solution_Ok (num_containers : nat) (g : Rng) :
  exists tour total g',
    _construct_ant_solution pher dist num_containers g = Ok (tour, total, g') /\
    Permutation tour (seq 0 num_containers).
Proof.
  unfold _construct_ant_solution.
  destruct (construct_loop_Ok (length (seq 1 num_containers)) 0
              (seq 1 num_containers) [] 0%R g (le_n _))
    as (tour & total & g' & Hrun & Hperm).
  exists tour, total, g'. split; [exact Hrun|].
  rewrite pred_seq in Hperm. exact Hperm.
Qed.

End Construction.

(** ** The pheromone field *)

Lemma positive_np_full (n : nat) (v : R) : (0 < v)%R -> positive (np_full n v).
Proof.
  intros Hv. apply Forall_replicate, Forall_replicate, Hv.
Qed.

Lemma positive_evaporate (m : Matrix) :
  positive m -> positive (map (map (fun x => ((1 - ACO_RHO) * x)%R)) m).
Proof.
  unfold positive. intros H. apply Forall_map.
  eapply Forall_impl; [exact H|]. intros row Hrow. cbn. apply Forall_map.
  eapply Forall_impl; [exact Hrow|]. intros x Hx. cbn. unfold ACO_RHO. lra.
Qed.

Lemma square_evaporate (n : nat) (m : Matrix) :
  square n m -> square n (map (map (fun x => ((1 - ACO_RHO) * x)%R)) m).
Proof.
  intros [Hlen Hrows]. split.
  - rewrite length_map. exact Hlen.
  - apply Forall_map. eapply Forall_impl; [exact Hrows|].
    intros row Hrow. cbn. rewrite length_map. exact Hrow.
Qed.

Lemma madd_positive (m m' : Matrix) (i j : nat) (x : R) :
  (0 <= x)%R -> positive m -> madd m i j x = Ok m' -> positive m'.
Proof.
  unfold madd, mset, positive. intros Hx Hpos H.
  destruct (m !! i) as [row|] eqn:Hrow; [|discriminate].
  destruct (decide (j < length row)) as [Hj|]; [|discriminate].
  injection H as <-.
  pose proof (Forall_lookup_1 _ _ _ _ Hpos Hrow) as Hrowpos.
  apply Forall_insert; [exact Hpos|].
  apply Forall_insert; [exact Hrowpos|].
  destruct (lookup_lt_is_Some_2 row j Hj) as [y Hy].
  pose proof (Forall_lookup_1 _ _ _ _ Hrowpos Hy) as Hypos. cbn in Hypos.
  unfold mget. rewrite !nth_lookup, Hrow. cbn. rewrite Hy. cbn. lra.
Qed.

Lemma deposit_along_positive (m m' : Matrix) (tour : list nat) (deposit : R) :
  (0 <= deposit)%R -> positive m -> deposit_along m tour deposit = Ok m' ->
  positive m'.
Proof.
  intros Hd Hpos H. unfold deposit_along in H.
  apply bind_Ok in H as (first & _ & H).
  apply bind_Ok in H as (p1 & H1 & H).
  apply bind_Ok in H as (p2 & H2 & H).
  apply bind_Ok in H as (final & _ & H3).
  apply madd_positive in H1; [|exact Hd | exact Hpos].
  eapply madd_positive; [exact Hd | | exact H3].
  eapply for_each_inv with (P := positive); [exact H1 | | exact H2].
  intros k t t' Hbody Ht.
  apply bind_Ok in Hbody as (from_idx & _ & Hbody).
  apply bind_Ok in Hbody as (to_idx & _ & Hbody).
  eapply madd_positive; eassumption.
Qed.

(** One evaporation-plus-deposit cycle keeps the field positive, whatever
    the tours it is given. *)
Lemma update_pheromones_positive (m m' : Matrix)
  (all_tours : list (list nat * R)) (best_tour : list nat * R)
  (global_best : option (list nat * R)) :
  positive m ->
  _update_pheromones m all_tours best_tour global_best = Ok m' ->
  positive m'.
Proof.
  intros Hpos H. unfold _update_pheromones in H.
  apply bind_Ok in H as (p1 & H1 & H2).
  assert (Hp1 : positive p1).
  { destruct best_tour as [tour_indices tour_distance].
    destruct (Rlt_dec 0 tour_distance) as [Hd|_].
    - eapply deposit_along_positive; [| |exact H1].
      + unfold ACO_Q. apply Rlt_le, Rdiv_lt_0_compat; lra.
      + apply positive_evaporate, Hpos.
    - injection H1 as <-. apply positive_evaporate, Hpos. }
  destruct global_best as [[tour_indices tour_distance]|].
  - destruct (Rlt_dec 0 tour_distance) as [Hd|_].
    + eapply deposit_along_positive; [| |exact H2]; [|exact Hp1].
      unfold ACO_ELITE_WEIGHT, ACO_Q. apply Rlt_le, Rdiv_lt_0_compat; lra.
    + injection H2 as <-. exact Hp1.
  - injection H2 as <-. exact Hp1.
Qed.

Lemma madd_Ok (n : nat) (m : Matrix) (i j : nat) (x : R) :
  square n m -> i < n -> j < n ->
  exists m', madd m i j x = Ok m' /\ square n m'.
Proof.
  intros Hsq Hi Hj. unfold madd.
  destruct (mset_spec n m i j (mget m i j + x)%R Hsq Hi Hj) as (m' & -> & Hsq' & _).
  exists m'. auto.
Qed.

Lemma deposit_along_Ok (n : nat) (m : Matrix) (tour : list nat) (deposit : R) :
  square n m -> tour_within n tour ->
  exists m', deposit_along m tour deposit = Ok m' /\ square n m'.
Proof.
  intros Hsq [Hne Hin]. unfold deposit_along.
  rewrite Forall_lookup in Hin.
  assert (Hidx : forall k, k < length tour ->
            exists x, index tour k = Ok x /\ x + 1 < n).
  { intros k Hk. destruct (lookup_lt_is_Some_2 tour k Hk) as [x Hx].
    exists x. unfold index. rewrite Hx. split; [reflexivity|]. eapply Hin, Hx. }
  assert (Hlen : 0 < length tour) by (destruct tour; [congruence | cbn; lia]).
  destruct (Hidx 0 Hlen) as (first & -> & Hfirst). cbn.
  destruct (madd_Ok n m 0 (first + 1) deposit Hsq ltac:(lia) Hfirst)
    as (p1 & -> & Hsq1). cbn.
  destruct (for_each_seq_inv (fun _ p => square n p)
              (fun i p =>
                 from_idx ← index tour i;
                 to_idx ← index tour (i + 1);
                 madd p (from_idx + 1) (to_idx + 1) deposit)
              (length tour - 1) 0 p1 Hsq1) as (p2 & -> & Hsq2).
  { intros k t Hk Ht.
    destruct (Hidx k ltac:(lia)) as (a & -> & Ha).
    destruct (Hidx (k + 1) ltac:(lia)) as (b & -> & Hb). cbn.
    apply madd_Ok; assumption. }
  cbn. destruct (Hidx (length tour - 1) ltac:(lia)) as (final & -> & Hfinal). cbn.
  apply madd_Ok; [exact Hsq2 | exact Hfinal | lia].
Qed.

Lemma update_pheromones_Ok (n : nat) (m : Matrix)
  (all_tours : list (list nat * R)) (best_tour : list nat * R)
  (global_best : option (list nat * R)) :
  square n m -> tour_within n best_tour.1 ->
  (forall t, global_best = Some t -> tour_within n t.1) ->
  exists m', _update_pheromones m all_tours best_tour global_best = Ok m' /\
             square n m'.
Proof.
  intros Hsq Hbest Hglobal. unfold _update_pheromones.
  assert (H1 : exists p1,
    (let '(tour_indices, tour_distance) := best_tour in
     if Rlt_dec 0 tour_distance
     then deposit_along (map (map (fun x => ((1 - ACO_RHO) * x)%R)) m)
            tour_indices (ACO_Q / tour_distance)%R
     else Ok (map (map (fun x => ((1 - ACO_RHO) * x)%R)) m)) = Ok p1 /\
    square n p1).
  { destruct best_tour as [tour_indices tour_distance]. cbn in Hbest.
    destruct (Rlt_dec 0 tour_distance).
    - apply deposit_along_Ok; [apply square_evaporate, Hsq | exact Hbest].
    - eexists. split; [reflexivity | apply square_evaporate, Hsq]. }
  destruct H1 as (p1 & -> & Hsq1). cbn.
  destruct global_best as [[tour_indices tour_distance]|].
  - destruct (Rlt_dec 0 tour_distance).
    + apply deposit_along_Ok; [exact Hsq1|]. apply (Hglobal _ eq_refl).
    + eexists. split; [reflexivity | exact Hsq1].
  - eexists. split; [reflexivity | exact Hsq1].
Qed.

(** ** The colony loop *)

Lemma min_from_In (best : list nat * R) (rest : list (list nat * R)) :
  In (min_from best rest) (best :: rest).
Proof.
  revert best. induction rest as [|x rest IH]; intros best; cbn.
  - left. reflexivity.
  - destruct (Rlt_dec x.2 best.2).
    + destruct (IH x) as [H|H]; [right; left; exact H | right; right; exact H].
    + destruct (IH best) as [H|H]; [left; exact H | right; right; exact H].
Qed.

Lemma min_by_cost_In (tours : list (list nat * R)) (best : list nat * R) :
  min_by_cost tours = Ok best -> In best tours.
Proof.
  destruct tours as [|x rest]; cbn; [discriminate|].
  intros [= <-]. apply min_from_In.
Qed.

Lemma complete_tour_within (k : nat) (entry : list nat * R) :
  0 < k -> complete_tour k entry -> tour_within (k + 1) entry.1.
Proof.
  unfold complete_tour. intros Hk Hperm. split.
  - intros Hnil. rewrite Hnil in Hperm. apply Permutation_length in Hperm.
    rewrite length_seq in Hperm. cbn in Hperm. lia.
  - rewrite Forall_forall. intros i Hi.
    apply list_elem_of_In in Hi.
    apply (Permutation_in _ Hperm), in_seq in Hi. lia.
Qed.

Section Colony.

Variable fuel : nat.
Variable d : Matrix.
Variable k : nat.

Lemma ant_step_inv (pher : Matrix) (s s' : list (list nat * R) * Rng) :
  ant_step fuel pher d k s = Ok s' ->
  Forall (complete_tour k) s.1 -> Forall (complete_tour k) s'.1.
Proof.
  destruct s as [ts g]. unfold ant_step. intros H Hts.
  apply bind_Ok in H as ([[tour distance] g1] & Hcons & H).
  apply bind_Ok in H as (refined & Hopt & [= <-]). cbn.
  apply Forall_app. split; [exact Hts|]. constructor; [|constructor].
  unfold complete_tour. cbn.
  destruct (construct_ant_solution_Ok pher d k g) as (t0 & c0 & g0 & Hrun & Hperm).
  rewrite Hrun in Hcons. injection Hcons as -> -> ->.
  rewrite (two_opt_perm d fuel tour refined Hopt). exact Hperm.
Qed.

Lemma ant_step_safe (pher : Matrix) (s : list (list nat * R) * Rng) :
  (exists s', ant_step fuel pher d k s = Ok s' /\ length s'.1 = S (length s.1)) \/
  (ant_step fuel pher d k s = OutOfFuel /\ ~ refiner_halts fuel d k).
Proof.
  destruct s as [ts g]. unfold ant_step.
  destruct (construct_ant_solution_Ok pher d k g) as (tour & c0 & g1 & -> & Hperm).
  cbn [mbind result_mbind result_bind].
  destruct (two_opt_no_raise d fuel tour) as [(refined & Hr)|Hr]; rewrite Hr.
  - left. eexists. split; [reflexivity|]. cbn. rewrite length_app. cbn. lia.
  - right. split; [reflexivity|]. intros Hhalts.
    destruct (Hhalts tour Hperm) as (refined & Hok). congruence.
Qed.

Lemma ants_inv (pher : Matrix) (g : Rng) (rounds : list nat)
  (s' : list (list nat * R) * Rng) :
  for_each rounds (fun _ => ant_step fuel pher d k) ([], g) = Ok s' ->
  Forall (complete_tour k) s'.1.
Proof.
  intros H.
  eapply for_each_inv with (P := fun s => Forall (complete_tour k) s.1);
    [ | | exact H].
  - constructor.
  - intros x t t' Hstep Ht. cbn beta in Hstep, Ht |- *.
    exact (ant_step_inv pher t t' Hstep Ht).
Qed.

Lemma ants_safe (pher : Matrix) (g : Rng) (ants : nat) :
  (exists s', for_each (seq 0 ants) (fun _ => ant_step fuel pher d k) ([], g) = Ok s' /\
              length s'.1 = ants) \/
  (for_each (seq 0 ants) (fun _ => ant_step fuel pher d k) ([], g) = OutOfFuel /\
   ~ refiner_halts fuel d k).
Proof.
  apply (for_each_seq_safe (fun i s => length s.1 = i) _
           (fun _ => ant_step fuel pher d k) ants 0 ([], g) eq_refl).
  intros i t _ Ht.
  destruct (ant_step_safe pher t) as [(t' & Hrun & Hlen)|Hstuck].
  - left. exists t'. split; [exact Hrun | lia].
  - right. exact Hstuck.
Qed.

(** A round of the colony loop keeps the best-so-far record a complete
    tour, and leaves one recorded. *)
Lemma iteration_step_inv (s s' : colony) :
  iteration_step fuel d k s = Ok s' -> colony_ok k s ->
  colony_ok k s' /\ global_best_tour s' <> None.
Proof.
  unfold iteration_step. intros H [Hbest Hnone].
  apply bind_Ok in H as ([ts g1] & Hants & H).
  apply bind_Ok in H as (best & Hmin & H).
  assert (Hcomplete : complete_tour k best).
  { apply ants_inv in Hants. rewrite Forall_forall in Hants.
    apply Hants, list_elem_of_In, min_by_cost_In, Hmin. }
  destruct (below best.2 (global_best_distance s)) eqn:Hbelow.
  - apply bind_Ok in H as (p & _ & [= <-]). cbn. split; [split|]; try discriminate.
    intros t [= <-]. exact Hcomplete.
  - apply bind_Ok in H as (p & _ & [= <-]). cbn.
    assert (Hsome : global_best_tour s <> None).
    { intros Heq. rewrite (Hnone Heq) in Hbelow. discriminate. }
    split; [split|]; auto.
Qed.

Lemma iteration_step_safe (n : nat) (s : colony) :
  0 < k -> n = k + 1 -> colony_ok k s -> square n (pheromones s) ->
  (exists s', iteration_step fuel d k s = Ok s' /\ square n (pheromones s')) \/
  (iteration_step fuel d k s = OutOfFuel /\ ~ refiner_halts fuel d k).
Proof.
  intros Hk -> [Hbest Hnone] Hsq. unfold iteration_step.
  destruct (ants_safe (pheromones s) (rng s) ACO_NUM_ANTS)
    as [([ts g1] & Hants & Hlen)|[Hants Hstuck]];
    rewrite Hants; cbn [mbind result_mbind result_bind]; [|right; auto].
  left.
  pose proof (ants_inv _ _ _ _ Hants) as Hts. cbn in Hts, Hlen.
  destruct ts as [|x rest]; [discriminate|].
  cbn [min_by_cost mbind result_mbind result_bind].
  assert (Hcomplete : complete_tour k (min_from x rest)).
  { rewrite Forall_forall in Hts. apply Hts, list_elem_of_In, min_from_In. }
  destruct (below (min_from x rest).2 (global_best_distance s)).
  - destruct (update_pheromones_Ok (k + 1) (pheromones s) (x :: rest)
                (min_from x rest) (Some (min_from x rest)) Hsq) as (p & -> & Hp).
    + apply complete_tour_within; assumption.
    + intros t [= <-]. apply complete_tour_within; assumption.
    + eexists. split; [reflexivity | exact Hp].
  - destruct (update_pheromones_Ok (k + 1) (pheromones s) (x :: rest)
                (min_from x rest) (global_best_tour s) Hsq) as (p & -> & Hp).
    + apply complete_tour_within; assumption.
    + intros t Ht. apply complete_tour_within; [assumption | apply Hbest, Ht].
    + eexists. split; [reflexivity | exact Hp].
Qed.

End Colony.

(** ** The route assembler *)

Section Assembler.

Variable m : Matrix.
Variable cache : GeometryCache.
Variable containers : list Container.

Lemma assemble_inv (tour : list nat) (first_order prev_idx : nat) (cum : R)
  (route : list RouteStop) :
  assemble m cache containers tour first_order prev_idx cum = Ok route ->
  map order route = seq first_order (length tour) /\
  sum_list (map distance_from_previous route)
    = path_cost m (prev_idx :: map (fun i => i + 1) tour) /\
  Forall2 (stop_of containers) route tour /\
  Forall (fun s => geometry_to_here s <> None ->
            exists i j, cache !! (i, j) = Some (geometry_to_here s)) route.
Proof.
  revert first_order prev_idx cum route.
  induction tour as [|idx tour IH]; intros first_order prev_idx cum route H.
  - cbn in H. injection H as <-. cbn. repeat split; constructor.
  - cbn [assemble] in H.
    apply bind_Ok in H as (c & Hc & H).
    apply bind_Ok in H as (rest & Hrest & [= <-]).
    apply IH in Hrest as (Horder & Hsum & Hstops & Hgeo).
    unfold index in Hc. destruct (containers !! idx) as [c'|] eqn:Hidx; [|discriminate].
    injection Hc as ->.
    cbn [map order distance_from_previous sum_list length seq].
    rewrite Horder, Hsum. repeat split.
    + constructor; [|exact Hstops]. exists c. cbn. auto.
    + constructor; [|exact Hgeo]. cbn. unfold cache_get.
      destruct (cache !! (prev_idx, idx + 1)) as [g|] eqn:Hg; [|congruence].
      intros _. exists prev_idx, (idx + 1). exact Hg.
Qed.

Lemma assemble_Ok (tour : list nat) (first_order prev_idx : nat) (cum : R) :
  Forall (fun i => i < length containers) tour ->
  exists route, assemble m cache containers tour first_order prev_idx cum = Ok route.
Proof.
  revert first_order prev_idx cum.
  induction tour as [|idx tour IH]; intros first_order prev_idx cum Hin.
  - eexists. reflexivity.
  - apply Forall_cons in Hin as [Hidx Hin]. cbn [assemble].
    destruct (lookup_lt_is_Some_2 containers idx Hidx) as [c Hc].
    unfold index. rewrite Hc. cbn [mbind result_mbind result_bind].
    destruct (IH (S first_order) (idx + 1)
                (cum + mget m prev_idx (idx + 1))%R Hin) as (rest & ->).
    eexists. reflexivity.
Qed.

End Assembler.

(** ** The ACO route *)

Section AcoRoute.

Variable osrm : Point -> Point -> HttpOutcome.
Variable fuel : nat.
Variable depot : Point.

(** Whatever [_create_aco_route] returns for a non-empty list is the
    assembly of a complete tour over the matrix and cache it built. *)
Lemma create_aco_route_inv (containers : list Container) (g : Rng)
  (route : list RouteStop) :
  containers <> [] ->
  _create_aco_route osrm fuel depot containers g = Ok route ->
  exists m c tour,
    _build_distance_matrix osrm depot containers = Ok (m, c) /\
    Permutation tour (seq 0 (length containers)) /\
    assemble m c containers tour 1 0 0%R = Ok route.
Proof.
  intros Hne H. unfold _create_aco_route in H.
  destruct containers as [|c0 cs] eqn:Hcs; [congruence|]. rewrite <- Hcs in *.
  apply bind_Ok in H as ([m c] & Hbuild & H).
  apply bind_Ok in H as (final & Hloop & H).
  change (seq 0 ACO_NUM_ITERATIONS) with (0 :: seq 1 19) in Hloop.
  cbn [for_each] in Hloop.
  apply bind_Ok in Hloop as (s1 & Hfirst & Hloop).
  apply iteration_step_inv in Hfirst as [Hok1 Hsome1];
    [|split; [discriminate | reflexivity]].
  assert (Hfinal : colony_ok (length containers) final /\
                   global_best_tour final <> None).
  { eapply for_each_inv
      with (P := fun s => colony_ok (length containers) s /\
                          global_best_tour s <> None);
      [ | | exact Hloop]; [auto|].
    intros x t t' Hstep [Ht _]. cbn beta in Hstep.
    exact (iteration_step_inv _ _ _ t t' Hstep Ht). }
  destruct Hfinal as [[Hbest _] Hsome].
  destruct (global_best_tour final) as [[tour cost]|]; [|congruence].
  exists m, c, tour. split; [exact Hbuild|]. split; [|exact H].
  apply (Hbest _ eq_refl).
Qed.

(** [_create_aco_route] raises nothing; it returns unless the refiner
    does not halt, within the fuel, on the matrix it built. *)
Lemma create_aco_route_safe (containers : list Container) (g : Rng) :
  (exists route, _create_aco_route osrm fuel depot containers g = Ok route) \/
  (_create_aco_route osrm fuel depot containers g = OutOfFuel /\
   exists m c, _build_distance_matrix osrm depot containers = Ok (m, c) /\
               ~ refiner_halts fuel m (length containers)).
Proof.
  unfold _create_aco_route.
  destruct containers as [|c0 cs] eqn:Hcs; [left; eexists; reflexivity|].
  rewrite <- Hcs in *.
  assert (Hk : 0 < length containers) by (rewrite Hcs; cbn; lia).
  destruct (build_distance_matrix_spec osrm depot containers)
    as (m & c & Hbuild & Hsq & _).
  rewrite Hbuild. cbn [mbind result_mbind result_bind].
  destruct (for_each_seq_safe
              (fun _ s => colony_ok (length containers) s /\
                          square (length containers + 1) (pheromones s))
              (~ refiner_halts fuel m (length containers))
              (fun _ => iteration_step fuel m (length containers))
              ACO_NUM_ITERATIONS 0
              {| pheromones := np_full (length containers + 1) ACO_INITIAL_PHEROMONE;
                 global_best_tour := None; global_best_distance := Inf;
                 rng := g |})
    as [(final & -> & [[Hbest _] _])|[-> Hstuck]].
  - split; [split; [discriminate | reflexivity] | apply square_np_full].
  - intros i t _ [Hok Hsq'].
    destruct (iteration_step_safe fuel m (length containers)
                (length containers + 1) t Hk eq_refl Hok Hsq')
      as [(t' & Hstep & Hsq'')|Hstuck]; [left | right; exact Hstuck].
    exists t'. split; [exact Hstep|]. split; [|exact Hsq''].
    exact (proj1 (iteration_step_inv _ _ _ t t' Hstep Hok)).
  - left. cbn [mbind result_mbind result_bind].
    destruct (global_best_tour final) as [[tour cost]|]; [|eexists; reflexivity].
    apply assemble_Ok. specialize (Hbest _ eq_refl).
    unfold complete_tour in Hbest. cbn in Hbest.
    rewrite Forall_forall. intros i Hi. apply list_elem_of_In in Hi.
    apply (Permutation_in _ Hbest), in_seq in Hi. lia.
  - right. split; [reflexivity|]. exists m, c. auto.
Qed.

End AcoRoute.

(** ** The entry point *)

Section EntryPoint.

Variable osrm : Point -> Point -> HttpOutcome.
Variable neighborhood : string.
Variable depot : option Point.
Variable g : Rng.

Lemma optimize_route_inv (fuel : nat) (containers : list Container)
  (vehicle_capacity : Z) (r : RouteResult) :
  optimize_route osrm fuel neighborhood containers vehicle_capacity depot g = Ok r ->
  containers <> [] /\ vehicle_capacity <> 0%Z /\
  requires_multiple_trips r
    = bool_decide (Z.of_nat (length containers) > vehicle_capacity)%Z /\
  trip_count r
    = ((Z.of_nat (length containers) + vehicle_capacity - 1) / vehicle_capacity)%Z /\
  total_containers r = length (slice_to containers vehicle_capacity) /\
  _create_aco_route osrm fuel (default DEPOT_LOCATION depot)
    (slice_to containers vehicle_capacity) g = Ok (stops r) /\
  total_distance_km r
    = (sum_list (map distance_from_previous (stops r))
       + closing_leg osrm (default DEPOT_LOCATION depot) (stops r))%R.
Proof.
  unfold optimize_route. destruct containers as [|c0 cs] eqn:Hcs; [discriminate|].
  rewrite <- Hcs. intros H.
  apply bind_Ok in H as (trips & Htrips & H).
  apply bind_Ok in H as (route & Hroute & H).
  apply bind_Ok in H as (total & Htotal & [= <-]). cbn.
  unfold floordiv in Htrips.
  destruct (decide (vehicle_capacity = 0%Z)) as [|Hcap]; [discriminate|].
  injection Htrips as <-.
  repeat split; auto; [congruence|].
  unfold closing_leg. destruct (last route) as [last_stop|].
  - apply bind_Ok in Htotal as ([[dist|] geo] & -> & [= <-]); lra.
  - injection Htotal as <-. lra.
Qed.

Lemma optimize_route_safe (fuel : nat) (containers : list Container)
  (vehicle_capacity : Z) :
  containers <> [] -> vehicle_capacity <> 0%Z ->
  (exists r,
     optimize_route osrm fuel neighborhood containers vehicle_capacity depot g
     = Ok r) \/
  (optimize_route osrm fuel neighborhood containers vehicle_capacity depot g
   = OutOfFuel /\
   exists m c,
     _build_distance_matrix osrm (default DEPOT_LOCATION depot)
       (slice_to containers vehicle_capacity) = Ok (m, c) /\
     ~ refiner_halts fuel m (length (slice_to containers vehicle_capacity))).
Proof.
  intros Hne Hcap. unfold optimize_route.
  destruct containers as [|c0 cs] eqn:Hcs; [congruence|]. rewrite <- Hcs.
  unfold floordiv. rewrite decide_False by exact Hcap.
  cbn [mbind result_mbind result_bind].
  destruct (create_aco_route_safe osrm fuel (default DEPOT_LOCATION depot)
              (slice_to containers vehicle_capacity) g)
    as [(route & ->)|[-> Hstuck]]; cbn [mbind result_mbind result_bind].
  - left. destruct (last route) as [last_stop|].
    + destruct (get_distance_total osrm
                  {| lat := stop_latitude last_stop; lon := stop_longitude last_stop |}
                  (default DEPOT_LOCATION depot)) as ([[dist|] geo] & ->);
        cbn; eexists; reflexivity.
    + cbn. eexists. reflexivity.
  - right. split; [reflexivity | exact Hstuck].
Qed.

Lemma optimize_route_zero_capacity (fuel : nat) (containers : list Container) :
  containers <> [] ->
  optimize_route osrm fuel neighborhood containers 0 depot g
  = Raise ZeroDivisionError.
Proof.
  intros Hne. unfold optimize_route.
  destruct containers; [congruence | reflexivity].
Qed.

(** With symmetric distances the call returns. *)
Lemma optimize_route_returns (containers : list Container)
  (vehicle_capacity : Z) :
  containers <> [] -> vehicle_capacity <> 0%Z ->
  symmetric_distances osrm (default DEPOT_LOCATION depot)
    (slice_to containers vehicle_capacity) ->
  exists r, returns osrm g neighborhood containers vehicle_capacity depot r.
Proof.
  intros Hne Hcap Hsym.
  destruct (build_distance_matrix_spec osrm (default DEPOT_LOCATION depot)
              (slice_to containers vehicle_capacity)) as (m & c & Hbuild & _).
  destruct (refiner_halts_symmetric m
              (length (slice_to containers vehicle_capacity))
              (Hsym m c Hbuild)) as (fuel & Hhalts).
  destruct (optimize_route_safe fuel containers vehicle_capacity Hne Hcap)
    as [(r & Hr)|(_ & m' & c' & Hbuild' & Hstuck)].
  - exists r, fuel. exact Hr.
  - rewrite Hbuild in Hbuild'. injection Hbuild' as <- <-. contradiction.
Qed.

End EntryPoint.

(** ** Stops and containers *)

Lemma map_lookup_seq {A B : Type} (f : A -> B) (dflt : B) (l : list A) :
  map (fun i => match l !! i with Some x => f x | None => dflt end)
      (seq 0 (length l))
  = map f l.
Proof.
  induction l as [|a l IH]; [reflexivity|].
  cbn [length seq map]. rewrite <- seq_shift, map_map. cbn. f_equal. exact IH.
Qed.

Lemma stops_follow_tour (routed : list Container) (route : list RouteStop)
  (tour : list nat) :
  Forall2 (stop_of routed) route tour ->
  map stop_key route
  = map (fun i => match routed !! i with
                  | Some c => container_key c
                  | None => (0%Z, 0%R, 0%R)
                  end) tour.
Proof.
  induction 1 as [|s idx route tour (c & Hc & Hid & Hlat & Hlon) _ IH];
    [reflexivity|].
  cbn [map]. rewrite IH, Hc. unfold stop_key, container_key.
  rewrite Hid, Hlat, Hlon. reflexivity.
Qed.

(** A route that follows a complete tour holds every routed container
    exactly once. *)
Lemma stops_permutation (routed : list Container) (route : list RouteStop)
  (tour : list nat) :
  Forall2 (stop_of routed) route tour ->
  Permutation tour (seq 0 (length routed)) ->
  Permutation (map stop_key route) (map container_key routed).
Proof.
  intros Hstops Hperm. rewrite (stops_follow_tour _ _ _ Hstops).
  rewrite <- (map_lookup_seq container_key (0%Z, 0%R, 0%R) routed).
  apply Permutation_map, Hperm.
Qed.

Lemma slice_to_positive {A : Type} (l : list A) (stop : Z) :
  (0 < stop)%Z -> slice_to l stop = take (Z.to_nat stop) l.
Proof. intros H. unfold slice_to. rewrite decide_True by lia. reflexivity. Qed.

Lemma slice_to_nonempty {A : Type} (l : list A) (stop : Z) :
  slice_to l stop <> [] -> l <> [] /\ stop <> 0%Z.
Proof.
  intros H. split.
  - intros ->. apply H. unfold slice_to. destruct (decide _); apply take_nil.
  - intros ->. apply H. reflexivity.
Qed.

Lemma stop_of_take (containers : list Container) (k : nat) (s : RouteStop)
  (idx : nat) :
  stop_of (take k containers) s idx -> stop_of containers s idx.
Proof.
  intros (c & Hc & Hrest). exists c. split; [|exact Hrest].
  apply lookup_take_Some in Hc. tauto.
Qed.

(** ** Claims about the entry point *)

Section Claims.

Variable osrm : Point -> Point -> HttpOutcome.
Variable g : Rng.
Variable neighborhood : string.
Variable depot : option Point.

(** What a returned result is made of: a complete tour over the routed
    containers, assembled over the matrix and cache built for them. *)
Lemma returned_route (containers : list Container) (vehicle_capacity : Z)
  (r : RouteResult) :
  slice_to containers vehicle_capacity <> [] ->
  returns osrm g neighborhood containers vehicle_capacity depot r ->
  exists m c tour,
    _build_distance_matrix osrm (default DEPOT_LOCATION depot)
      (slice_to containers vehicle_capacity) = Ok (m, c) /\
    Permutation tour (seq 0 (length (slice_to containers vehicle_capacity))) /\
    assemble m c (slice_to containers vehicle_capacity) tour 1 0 0%R
      = Ok (stops r).
Proof.
  intros Hne [fuel Hrun].
  apply optimize_route_inv in Hrun as (_ & _ & _ & _ & _ & Hroute & _).
  eapply create_aco_route_inv; eassumption.
Qed.

(** C7: with an empty stop list the entry point raises the input error
    "No containers provided" (so returns no result, whatever the fuel);
    with a non-empty list it raises no [ValueError] at all. *)
Theorem empty_stop_list_is_fatal (fuel : nat) (vehicle_capacity : Z) :
  optimize_route osrm fuel neighborhood [] vehicle_capacity depot g
    = Raise (ValueError "No containers provided") /\
  forall containers msg,
    containers <> [] ->
    optimize_route osrm fuel neighborhood containers vehicle_capacity depot g
      <> Raise (ValueError msg).
Proof.
  split; [reflexivity|]. intros containers msg Hne.
  destruct (decide (vehicle_capacity = 0%Z)) as [->|Hcap].
  - rewrite optimize_route_zero_capacity by exact Hne. discriminate.
  - destruct (optimize_route_safe osrm neighborhood depot g fuel containers
                vehicle_capacity Hne Hcap) as [(r & ->)|[-> _]]; discriminate.
Qed.

(** C4: for a non-empty stop list and a positive capacity the call
    returns (given distances that the refiner halts on), and every
    returned result flags multiple trips exactly when the stop count
    exceeds the capacity and reports the ceiling of their quotient as the
    trip count. *)
Theorem trip_flags (containers : list Container) (vehicle_capacity : Z) :
  containers <> [] -> (0 < vehicle_capacity)%Z ->
  (symmetric_distances osrm (default DEPOT_LOCATION depot)
     (slice_to containers vehicle_capacity) ->
   exists r, returns osrm g neighborhood containers vehicle_capacity depot r) /\
  forall r,
    returns osrm g neighborhood containers vehicle_capacity depot r ->
    (requires_multiple_trips r = true <->
     (Z.of_nat (length containers) > vehicle_capacity)%Z) /\
    is_ceil_div (Z.of_nat (length containers)) vehicle_capacity (trip_count r).
Proof.
  intros Hne Hcap. split.
  - apply optimize_route_returns; [exact Hne | lia].
  - intros r [fuel Hrun].
    apply optimize_route_inv in Hrun as (_ & _ & Hflag & Htrips & _).
    rewrite Hflag, Htrips. split.
    + apply bool_decide_eq_true.
    + unfold is_ceil_div.
      set (n := Z.of_nat (length containers)).
      pose proof (Z.div_mod (n + vehicle_capacity - 1) vehicle_capacity ltac:(lia)).
      pose proof (Z.mod_pos_bound (n + vehicle_capacity - 1) vehicle_capacity Hcap).
      nia.
Qed.

(** C3: for a non-empty list of routed (capacity-limited) stops the call
    returns (given distances that the refiner halts on), and the stops of
    every returned result follow a tour that is a permutation of the
    routed positions: each routed container appears exactly once, with
    order ranks 1, 2, ..., n. *)
Theorem route_visits_each_stop_once (containers : list Container)
  (vehicle_capacity : Z) :
  slice_to containers vehicle_capacity <> [] ->
  (symmetric_distances osrm (default DEPOT_LOCATION depot)
     (slice_to containers vehicle_capacity) ->
   exists r, returns osrm g neighborhood containers vehicle_capacity depot r) /\
  forall r,
    returns osrm g neighborhood containers vehicle_capacity depot r ->
    let routed := slice_to containers vehicle_capacity in
    (exists tour,
       Permutation tour (seq 0 (length routed)) /\
       Forall2 (stop_of routed) (stops r) tour) /\
    Permutation (map stop_key (stops r)) (map container_key routed) /\
    map order (stops r) = seq 1 (length routed).
Proof.
  intros Hne. destruct (slice_to_nonempty _ _ Hne) as [Hcs Hcap]. split.
  - apply optimize_route_returns; assumption.
  - intros r Hr routed.
    destruct (returned_route containers vehicle_capacity r Hne Hr)
      as (m & c & tour & _ & Hperm & Hroute).
    apply assemble_inv in Hroute as (Horder & _ & Hstops & _).
    split; [exists tour; auto|]. split.
    + eapply stops_permutation; eassumption.
    + rewrite Horder. f_equal. apply Permutation_length in Hperm.
      rewrite length_seq in Hperm. exact Hperm.
Qed.

(** C5: when the stop count exceeds a (positive) capacity the call
    returns (given distances that the refiner halts on), and in every
    returned result the stops are the containers at the first [capacity]
    positions of the input, each exactly once and no other; the routed
    count is min(stop count, capacity). *)
Theorem truncation_to_capacity (containers : list Container)
  (vehicle_capacity : Z) :
  (0 < vehicle_capacity)%Z ->
  (Z.of_nat (length containers) > vehicle_capacity)%Z ->
  (symmetric_distances osrm (default DEPOT_LOCATION depot)
     (slice_to containers vehicle_capacity) ->
   exists r, returns osrm g neighborhood containers vehicle_capacity depot r) /\
  forall r,
    returns osrm g neighborhood containers vehicle_capacity depot r ->
    (exists tour,
       Permutation tour (seq 0 (Z.to_nat vehicle_capacity)) /\
       Forall2 (stop_of containers) (stops r) tour) /\
    Permutation (map stop_key (stops r))
      (map container_key (take (Z.to_nat vehicle_capacity) containers)) /\
    length (stops r) = Z.to_nat vehicle_capacity /\
    total_containers r = Nat.min (length containers) (Z.to_nat vehicle_capacity).
Proof.
  intros Hcap Hmore.
  assert (Hslice : slice_to containers vehicle_capacity
                   = take (Z.to_nat vehicle_capacity) containers)
    by (apply slice_to_positive, Hcap).
  assert (Hlen : length (take (Z.to_nat vehicle_capacity) containers)
                 = Z.to_nat vehicle_capacity)
    by (rewrite length_take; lia).
  assert (Hne : slice_to containers vehicle_capacity <> []).
  { rewrite Hslice. intros Hnil. rewrite Hnil in Hlen. cbn in Hlen. lia. }
  destruct (slice_to_nonempty _ _ Hne) as [Hcs Hcap0]. split.
  - apply optimize_route_returns; assumption.
  - intros r Hr.
    destruct (returned_route containers vehicle_capacity r Hne Hr)
      as (m & c & tour & _ & Hperm & Hroute).
    apply assemble_inv in Hroute as (_ & _ & Hstops & _).
    destruct Hr as [fuel Hrun].
    apply optimize_route_inv in Hrun as (_ & _ & _ & _ & Hcount & _).
    rewrite Hslice in *. rewrite Hlen in *. repeat split.
    + exists tour. split; [exact Hperm|].
      eapply Forall2_impl; [exact Hstops|]. intros s idx. apply stop_of_take.
    + eapply stops_permutation; [exact Hstops|]. rewrite Hlen. exact Hperm.
    + apply Forall2_length in Hstops. apply Permutation_length in Hperm.
      rewrite length_seq in Hperm. lia.
    + lia.
Qed.

End Claims.

(** ** The total distance *)

Lemma mget_outside (n : nat) (m : Matrix) (i j : nat) :
  square n m -> n <= i \/ n <= j -> mget m i j = 0%R.
Proof.
  intros [Hlen Hrows] Hout. unfold mget.
  destruct (le_lt_dec n i) as [Hi|Hi].
  - rewrite (nth_overflow m) by lia. destruct j; reflexivity.
  - destruct Hout as [?|Hj]; [lia|].
    apply nth_overflow.
    destruct (lookup_lt_is_Some_2 m i ltac:(lia)) as [row Hrow].
    rewrite (nth_lookup_Some _ _ _ _ Hrow).
    rewrite Forall_lookup in Hrows. rewrite (Hrows _ _ Hrow). exact Hj.
Qed.

Lemma get_distance_by_no_route (osrm : Point -> Point -> HttpOutcome)
  (p q : Point) :
  if no_route (osrm p q)
  then get_distance osrm p q = Ok (None, None)
  else exists d geo, get_distance osrm p q = Ok (Some d, geo).
Proof.
  destruct (osrm p q) as [|code routes] eqn:H; cbn.
  - do 2 eexists. apply get_distance_fails, H.
  - destruct routes as [|route routes].
    + eapply get_distance_no_route; [exact H|]. intros [_ Hr]. congruence.
    + destruct (String.eqb_spec code "Ok") as [->|Hne]; cbn.
      * do 2 eexists. eapply get_distance_route, H.
      * eapply get_distance_no_route; [exact H|]. intros [Hc _]. congruence.
Qed.

(** The matrix built when the provider never finds a route. *)
Lemma no_route_matrix (depot : Point) (containers : list Container)
  (m : Matrix) (c : GeometryCache) :
  _build_distance_matrix osrm_no_route depot containers = Ok (m, c) ->
  square (length containers + 1) m /\
  forall i j, i < length containers + 1 -> j < length containers + 1 ->
    mget m i j = if decide (i = j) then 0%R else 999%R.
Proof.
  intros Hbuild.
  destruct (build_distance_matrix_spec osrm_no_route depot containers)
    as (m' & c' & Hbuild' & Hsq & Hcells).
  rewrite Hbuild in Hbuild'. injection Hbuild' as <- <-.
  split; [exact Hsq|]. intros i j Hi Hj.
  specialize (Hcells i j Hi Hj). unfold cell_built in Hcells.
  destruct (decide (i = j)); [tauto|].
  destruct Hcells as (p & q & _ & _ & Hcell). cbn in Hcell. tauto.
Qed.

Lemma no_route_symmetric (depot : Point) (containers : list Container) :
  symmetric_distances osrm_no_route depot containers.
Proof.
  intros m c Hbuild. apply no_route_matrix in Hbuild as [Hsq Hcells].
  intros i j.
  destruct (le_lt_dec (length containers + 1) i) as [Hi|Hi].
  { rewrite !(mget_outside _ _ _ _ Hsq) by lia. reflexivity. }
  destruct (le_lt_dec (length containers + 1) j) as [Hj|Hj].
  { rewrite !(mget_outside _ _ _ _ Hsq) by lia. reflexivity. }
  rewrite !Hcells by assumption.
  destruct (decide (i = j)), (decide (j = i)); congruence.
Qed.

Lemma path_cost_snoc (d : Matrix) (l : list nat) (a b : nat) :
  path_cost d (l ++ [a; b]) = (path_cost d (l ++ [a]) + mget d a b)%R.
Proof. rewrite path_cost_join. cbn. lra. Qed.

(** The closed-path cost of a tour is the cost of its outbound legs plus
    the leg from its last stop back to the depot. *)
Lemma tour_cost_closing (d : Matrix) (tour : list nat) (final : nat) :
  last tour = Some final ->
  tour_cost d tour
  = (path_cost d (0%nat :: map (fun i => (i + 1)%nat) tour)
     + mget d (final + 1)%nat 0)%R.
Proof.
  intros Hlast. apply last_Some in Hlast as [tour' ->].
  unfold tour_cost, full_path. rewrite map_app. cbn [map].
  rewrite <- app_assoc. cbn [app].
  rewrite !app_comm_cons. apply path_cost_snoc.
Qed.

Lemma last_stop_of (routed : list Container) (route : list RouteStop)
  (tour : list nat) (final : nat) :
  Forall2 (stop_of routed) route tour -> last tour = Some final ->
  exists s, last route = Some s /\ stop_of routed s final.
Proof.
  intros Hstops Hlast. apply last_Some in Hlast as [tour' ->].
  apply Forall2_app_inv_r in Hstops as (r1 & r2 & _ & H2 & ->).
  inversion H2 as [|s idx r2' t2' Hs Hnil]; subst.
  inversion Hnil; subst. exists s. split; [apply last_snoc | exact Hs].
Qed.

(** The closing leg added by [optimize_route], against the matrix entry
    for the same pair: equal unless the provider reports no route, in
    which case nothing is added. *)
Lemma closing_leg_value (osrm : Point -> Point -> HttpOutcome) (depot : Point)
  (routed : list Container) (m : Matrix) (c : GeometryCache)
  (route : list RouteStop) (s : RouteStop) (final : nat) (last_c : Container) :
  _build_distance_matrix osrm depot routed = Ok (m, c) ->
  last route = Some s -> stop_of routed s final ->
  routed !! final = Some last_c ->
  closing_leg osrm depot route
  = if no_route (osrm (container_point last_c) depot) then 0%R
    else mget m (final + 1) 0.
Proof.
  intros Hbuild Hlast (c' & Hc' & _ & Hlat & Hlon) Hfinal.
  rewrite Hfinal in Hc'. injection Hc' as <-.
  unfold closing_leg. rewrite Hlast, Hlat, Hlon.
  change {| lat := latitude last_c; lon := longitude last_c |}
    with (container_point last_c).
  destruct (build_distance_matrix_spec osrm depot routed)
    as (m' & c' & Hbuild' & _ & Hcells).
  rewrite Hbuild in Hbuild'. injection Hbuild' as <- <-.
  assert (Hin : final < length routed) by (eapply lookup_lt_Some, Hfinal).
  specialize (Hcells (final + 1) 0 ltac:(lia) ltac:(lia)).
  unfold cell_built in Hcells. rewrite decide_False in Hcells by lia.
  destruct Hcells as (p & q & Hp & Hq & Hcell).
  replace (final + 1) with (S final) in Hp by lia.
  change ((container_point <$> routed) !! final = Some p) in Hp.
  change (Some depot = Some q) in Hq.
  rewrite list_lookup_fmap, Hfinal in Hp. cbn in Hp.
  injection Hp as <-. injection Hq as <-.
  pose proof (get_distance_by_no_route osrm (container_point last_c) depot) as Hg.
  destruct (no_route (osrm (container_point last_c) depot)).
  - rewrite Hg. reflexivity.
  - destruct Hg as (d & geo & Hg). rewrite Hg in Hcell |- *. symmetry. tauto.
Qed.

Section TotalDistance.

Variable osrm : Point -> Point -> HttpOutcome.
Variable g : Rng.
Variable neighborhood : string.
Variable depot : option Point.

(** The total of a returned result, in terms of the matrix built for the
    routed containers and of the winning tour. *)
Lemma returned_total (containers : list Container) (vehicle_capacity : Z)
  (r : RouteResult) :
  let dep := default DEPOT_LOCATION depot in
  let routed := slice_to containers vehicle_capacity in
  routed <> [] ->
  returns osrm g neighborhood containers vehicle_capacity depot r ->
  exists m c tour final last_c,
    _build_distance_matrix osrm dep routed = Ok (m, c) /\
    Permutation tour (seq 0 (length routed)) /\
    Forall2 (stop_of routed) (stops r) tour /\
    last tour = Some final /\ routed !! final = Some last_c /\
    total_distance_km r
    = (if no_route (osrm (container_point last_c) dep)
       then path_cost m (0 :: map (fun i => i + 1) tour)
       else tour_cost m tour) /\
    (length routed = 1 ->
     total_distance_km r
     = if no_route (osrm (container_point last_c) dep)
       then mget m 0 1
       else (mget m 0 1 + mget m 1 0)%R).
Proof.
  intros dep routed Hne Hr.
  destruct (returned_route osrm g neighborhood depot containers
              vehicle_capacity r Hne Hr) as (m & c & tour & Hbuild & Hperm & Hroute).
  fold dep routed in Hbuild, Hperm, Hroute.
  apply assemble_inv in Hroute as (_ & Hsum & Hstops & _).
  destruct Hr as [fuel Hrun].
  apply optimize_route_inv in Hrun as (_ & _ & _ & _ & _ & _ & Htotal).
  fold dep in Htotal.
  assert (Hlen : length tour = length routed).
  { apply Permutation_length in Hperm. rewrite length_seq in Hperm. exact Hperm. }
  destruct (last tour) as [final|] eqn:Hlast.
  2:{ apply last_None in Hlast. subst tour. destruct routed; [congruence | discriminate]. }
  assert (Hfinal : final < length routed).
  { assert (Hin : In final tour).
    { apply last_Some in Hlast as [t' ->]. apply in_or_app. right. left. reflexivity. }
    apply (Permutation_in _ Hperm), in_seq in Hin. lia. }
  destruct (lookup_lt_is_Some_2 routed final Hfinal) as [last_c Hc].
  destruct (last_stop_of routed (stops r) tour final Hstops Hlast) as (s & Hs & Hsof).
  pose proof (closing_leg_value osrm dep routed m c (stops r) s final last_c
                Hbuild Hs Hsof Hc) as Hclose.
  assert (Hmain : total_distance_km r
    = (if no_route (osrm (container_point last_c) dep)
       then path_cost m (0 :: map (fun i => i + 1) tour)
       else tour_cost m tour)).
  { rewrite Htotal, Hsum, Hclose.
    destruct (no_route (osrm (container_point last_c) dep)); [lra|].
    rewrite (tour_cost_closing m tour final Hlast). reflexivity. }
  exists m, c, tour, final, last_c. repeat split; auto.
  intros Hone. rewrite Hmain. rewrite Hone in Hperm. cbn in Hperm.
  apply Permutation_sym, Permutation_length_1_inv in Hperm. subst tour.
  unfold tour_cost, full_path. cbn.
  destruct (no_route (osrm (container_point last_c) dep)); lra.
Qed.

(** C8, amended: for a non-empty routed stop list the call returns (given
    distances that the refiner halts on), and the total distance of every
    returned result is the sum of the legs of the winning tour plus the
    closing leg back to the depot, unless the provider reports no route
    for the closing query: then the total is the sum of the outbound legs
    alone.  With one stop this reads depot-to-stop plus stop-to-depot,
    under the same proviso. *)
Theorem total_distance_of_route (containers : list Container)
  (vehicle_capacity : Z) :
  let dep := default DEPOT_LOCATION depot in
  let routed := slice_to containers vehicle_capacity in
  routed <> [] ->
  (symmetric_distances osrm dep routed ->
   exists r, returns osrm g neighborhood containers vehicle_capacity depot r) /\
  forall r,
    returns osrm g neighborhood containers vehicle_capacity depot r ->
    exists m c tour final last_c,
      _build_distance_matrix osrm dep routed = Ok (m, c) /\
      Permutation tour (seq 0 (length routed)) /\
      Forall2 (stop_of routed) (stops r) tour /\
      last tour = Some final /\ routed !! final = Some last_c /\
      total_distance_km r
      = (if no_route (osrm (container_point last_c) dep)
         then path_cost m (0 :: map (fun i => i + 1) tour)
         else tour_cost m tour) /\
      (length routed = 1 ->
       total_distance_km r
       = if no_route (osrm (container_point last_c) dep)
         then mget m 0 1
         else (mget m 0 1 + mget m 1 0)%R).
Proof.
  intros dep routed Hne. destruct (slice_to_nonempty _ _ Hne) as [Hcs Hcap].
  split.
  - apply optimize_route_returns; assumption.
  - intros r Hr. apply returned_total; assumption.
Qed.

End TotalDistance.

(** C8, as stated, fails: with one bin and a provider that finds no
    route, the call returns a result whose total is 999, the single
    outbound leg, while depot-to-stop plus stop-to-depot is 1998 in the
    matrix the tour was optimised on. *)
Lemma no_route_total_omits_closing_leg :
  exists r m c,
    returns osrm_no_route rng_zero "Center" single_bin 40 None r /\
    _build_distance_matrix osrm_no_route DEPOT_LOCATION single_bin = Ok (m, c) /\
    length (stops r) = 1 /\
    total_distance_km r = 999%R /\
    (mget m 0 1 + mget m 1 0)%R = 1998%R /\
    total_distance_km r <> (mget m 0 1 + mget m 1 0)%R.
Proof.
  assert (Hne : single_bin <> []) by discriminate.
  assert (Hcap : 40%Z <> 0%Z) by discriminate.
  destruct (optimize_route_returns osrm_no_route "Center" None rng_zero
              single_bin 40 Hne Hcap (no_route_symmetric _ _)) as [r Hr].
  destruct (returned_total osrm_no_route rng_zero "Center" None single_bin 40 r
              Hne Hr)
    as (m & c & tour & final & last_c & Hbuild & Hperm & Hstops & _ & _ & _ & Hone).
  change (slice_to single_bin 40) with single_bin in Hbuild, Hperm, Hstops, Hone.
  change (default DEPOT_LOCATION None) with DEPOT_LOCATION in Hbuild, Hone.
  specialize (Hone eq_refl). cbn [osrm_no_route no_route] in Hone.
  pose proof (no_route_matrix DEPOT_LOCATION single_bin m c Hbuild) as [_ Hcells].
  assert (H0 : 0 < length single_bin + 1) by (cbn; lia).
  assert (H1 : 1 < length single_bin + 1) by (cbn; lia).
  pose proof (Hcells 0 1 H0 H1) as H01.
  pose proof (Hcells 1 0 H1 H0) as H10.
  rewrite decide_False in H01 by discriminate.
  rewrite decide_False in H10 by discriminate.
  exists r, m, c. split; [exact Hr|]. split; [exact Hbuild|]. split.
  - apply Forall2_length in Hstops. apply Permutation_length in Hperm.
    rewrite Hstops. exact Hperm.
  - rewrite Hone, H01, H10. repeat split; lra.
Qed.

(** ** The refiner on directed distances *)

Ltac mget_cases i j :=
  unfold mget;
  do 5 (try destruct i as [|i]); do 5 (try destruct j as [|j]);
  cbn -[IZR]; try lra; try (destruct j; cbn -[IZR]; lra).

Lemma detour_matrix_nonneg (i j : nat) : (0 <= mget detour_matrix i j)%R.
Proof. unfold detour_matrix. mget_cases i j. Qed.

Lemma one_way_matrix_nonneg (i j : nat) : (0 <= mget one_way_matrix i j)%R.
Proof. unfold one_way_matrix. mget_cases i j. Qed.

Lemma detour_scan_first :
  two_opt_scan detour_matrix [0; 1; 2; 0] = Some [0; 2; 1; 0].
Proof. unfold two_opt_scan, detour_matrix. eval_tests. reflexivity. Qed.

Lemma detour_scan_second : two_opt_scan detour_matrix [0; 2; 1; 0] = None.
Proof. unfold two_opt_scan, detour_matrix. eval_tests. reflexivity. Qed.

(** C2 fails on the code: on the non-negative matrix [detour_matrix] the
    refiner turns the tour [0; 1], of closed-path cost 16, into the tour
    [1; 0], of closed-path cost 17. *)
Theorem two_opt_can_raise_cost :
  (forall i j, (0 <= mget detour_matrix i j)%R) /\
  (forall fuel, _two_opt (S (S fuel)) [0; 1] detour_matrix = Ok [1; 0]) /\
  tour_cost detour_matrix [0; 1] = 16%R /\
  tour_cost detour_matrix [1; 0] = 17%R.
Proof.
  split; [exact detour_matrix_nonneg|]. split; [|split].
  - intros fuel. unfold _two_opt.
    change (full_path [0; 1]) with [0; 1; 2; 0].
    cbn [two_opt_loop]. rewrite detour_scan_first.
    destruct fuel; cbn [two_opt_loop]; rewrite detour_scan_second; reflexivity.
  - unfold tour_cost, full_path, detour_matrix, mget. cbn -[IZR]. lra.
  - unfold tour_cost, full_path, detour_matrix, mget. cbn -[IZR]. lra.
Qed.

Lemma one_way_scan_1 :
  two_opt_scan one_way_matrix [0; 1; 2; 3; 0] = Some [0; 3; 2; 1; 0].
Proof. unfold two_opt_scan, one_way_matrix. eval_tests. reflexivity. Qed.

Lemma one_way_scan_2 :
  two_opt_scan one_way_matrix [0; 3; 2; 1; 0] = Some [0; 2; 3; 1; 0].
Proof. unfold two_opt_scan, one_way_matrix. eval_tests. reflexivity. Qed.

Lemma one_way_scan_3 :
  two_opt_scan one_way_matrix [0; 2; 3; 1; 0] = Some [0; 1; 3; 2; 0].
Proof. unfold two_opt_scan, one_way_matrix. eval_tests. reflexivity. Qed.

Lemma one_way_scan_4 :
  two_opt_scan one_way_matrix [0; 1; 3; 2; 0] = Some [0; 1; 2; 3; 0].
Proof. unfold two_opt_scan, one_way_matrix. eval_tests. reflexivity. Qed.

Lemma one_way_loop_cycles (fuel : nat) :
  two_opt_loop fuel one_way_matrix [0; 1; 2; 3; 0] = OutOfFuel /\
  two_opt_loop fuel one_way_matrix [0; 3; 2; 1; 0] = OutOfFuel /\
  two_opt_loop fuel one_way_matrix [0; 2; 3; 1; 0] = OutOfFuel /\
  two_opt_loop fuel one_way_matrix [0; 1; 3; 2; 0] = OutOfFuel.
Proof.
  induction fuel as [|fuel (H1 & H2 & H3 & H4)]; [repeat split|].
  cbn [two_opt_loop].
  rewrite one_way_scan_1, one_way_scan_2, one_way_scan_3, one_way_scan_4.
  auto.
Qed.

Lemma two_opt_can_cycle_on_first_tour (fuel : nat) :
  _two_opt fuel [0; 1; 2] one_way_matrix = OutOfFuel.
Proof.
  unfold _two_opt. change (full_path [0; 1; 2]) with [0; 1; 2; 3; 0].
  destruct (one_way_loop_cycles fuel) as [-> _]. reflexivity.
Qed.

(** C10 fails on the code: on the non-negative matrix [one_way_matrix]
    the refiner, started on the tour [0; 1; 2], has not finished after any
    number of rounds: its path comes back to itself every four accepted
    reversals. *)
Theorem two_opt_can_cycle :
  (forall i j, (0 <= mget one_way_matrix i j)%R) /\
  forall fuel, _two_opt fuel [0; 1; 2] one_way_matrix = OutOfFuel.
Proof.
  split; [exact one_way_matrix_nonneg | exact two_opt_can_cycle_on_first_tour].
Qed.

(** ** The refiner on symmetric distances *)

Lemma two_opt_loop_cost (d : Matrix) (fuel : nat) (p p' : list nat) :
  symmetric d -> two_opt_loop fuel d p = Ok p' ->
  (path_cost d p' <= path_cost d p)%R.
Proof.
  intros Hsym. revert p. induction fuel as [|fuel IH]; intros p; [discriminate|].
  cbn [two_opt_loop]. destruct (two_opt_scan d p) as [q|] eqn:Hscan.
  - intros H. apply IH in H.
    apply two_opt_scan_Some in Hscan as (i & j & Hi & Hj & Himp & ->).
    pose proof (accepted_reversal_cost d p i j Hsym Hi Hj Himp). lra.
  - intros [= <-]. lra.
Qed.

(** When distances are symmetric the refined tour costs no more than the
    tour it came from. *)
Lemma two_opt_never_worse_symmetric (d : Matrix) (fuel : nat)
  (tour refined : list nat) :
  symmetric d -> _two_opt fuel tour d = Ok refined ->
  (tour_cost d refined <= tour_cost d tour)%R.
Proof.
  intros Hsym H. unfold _two_opt in H.
  apply bind_Ok in H as (p' & Hloop & [= <-]).
  pose proof (two_opt_loop_cost d fuel _ _ Hsym Hloop) as Hcost.
  unfold full_path in Hloop.
  apply two_opt_loop_shape in Hloop as (inner' & -> & Hperm & _).
  cbn [tail]. rewrite removelast_last.
  unfold tour_cost at 1. unfold full_path. rewrite map_map.
  rewrite (map_ext_in (fun x => x - 1 + 1) (fun x => x)), map_id; [exact Hcost|].
  intros x Hx. apply (Permutation_in _ Hperm), in_map_iff in Hx as (y & <- & _). lia.
Qed.

(** ** Positivity of the pheromone field *)

Lemma iteration_step_positive (fuel : nat) (d : Matrix) (k : nat)
  (s s' : colony) :
  positive (pheromones s) -> iteration_step fuel d k s = Ok s' ->
  positive (pheromones s').
Proof.
  intros Hpos H. unfold iteration_step in H.
  apply bind_Ok in H as ([ts g1] & _ & H).
  apply bind_Ok in H as (best & _ & H).
  destruct (below best.2 (global_best_distance s));
    apply bind_Ok in H as (p & Hp & [= <-]); cbn;
    eapply update_pheromones_positive; eassumption.
Qed.

(** C6: the evaporation rate lies strictly between 0 and 1; the field is
    initialised strictly positive; it is strictly positive after any
    number of evaporation-plus-deposit cycles, whatever tours they
    deposit along; and every round of the colony loop keeps it so. *)
Theorem pheromones_stay_positive (n : nat) :
  (0 < ACO_RHO < 1)%R /\
  positive (np_full n ACO_INITIAL_PHEROMONE) /\
  (forall (cycles : list cycle_inputs) (field : Matrix),
     for_each cycles run_cycle (np_full n ACO_INITIAL_PHEROMONE) = Ok field ->
     positive field) /\
  (forall fuel d k s s',
     positive (pheromones s) -> iteration_step fuel d k s = Ok s' ->
     positive (pheromones s')).
Proof.
  assert (Hinit : positive (np_full n ACO_INITIAL_PHEROMONE)).
  { apply positive_np_full. unfold ACO_INITIAL_PHEROMONE. lra. }
  split; [unfold ACO_RHO; lra|]. split; [exact Hinit|]. split.
  - intros cycles field H.
    eapply for_each_inv with (P := positive); [exact Hinit | | exact H].
    intros c t t' Hstep Ht. unfold run_cycle in Hstep.
    eapply update_pheromones_positive; eassumption.
  - intros fuel d k s s'. apply iteration_step_positive.
Qed.

(** ** The selection weights *)

Section Selection.

Variables pher dist : Matrix.
Variable current_idx : nat.

Lemma selection_weight_desirability (k : nat) :
  (0 <= mget dist current_idx k)%R ->
  selection_weight pher dist current_idx k = desirability pher dist current_idx k.
Proof.
  intros Hd. unfold selection_weight, desirability.
  destruct (Rlt_dec 0 (mget dist current_idx k)) as [Hpos|Hnpos];
    destruct (Req_dec_T (mget dist current_idx k) 0) as [Hz|Hnz];
    try reflexivity; lra.
Qed.

Lemma selection_weight_nonneg (k : nat) :
  (0 <= mget pher current_idx k)%R ->
  (0 <= selection_weight pher dist current_idx k)%R.
Proof.
  intros Hp. unfold selection_weight.
  apply Rmult_le_pos; [apply pow_le, Hp|].
  destruct (Rlt_dec 0 (mget dist current_idx k)) as [Hpos|_]; [|lra].
  apply pow_le. apply Rlt_le, Rdiv_lt_0_compat; lra.
Qed.

Lemma sum_list_nonneg (ws : list R) :
  Forall (fun w => (0 <= w)%R) ws -> (0 <= sum_list ws)%R.
Proof.
  induction 1 as [|w ws Hw _ IH]; cbn; lra.
Qed.

Lemma sum_list_zero (ws : list R) :
  Forall (fun w => w = 0%R) ws -> sum_list ws = 0%R.
Proof.
  induction 1 as [|w ws Hw _ IH]; cbn; lra.
Qed.

Lemma sum_list_nonneg_zero (ws : list R) :
  Forall (fun w => (0 <= w)%R) ws -> sum_list ws = 0%R ->
  Forall (fun w => w = 0%R) ws.
Proof.
  induction 1 as [|w ws Hw Hws IH]; cbn; [constructor|].
  intros Hsum. pose proof (sum_list_nonneg ws Hws).
  constructor; [lra | apply IH; lra].
Qed.

Lemma selection_probabilities_normalised (unvisited : list nat) :
  (0 < sum_list (map (selection_weight pher dist current_idx) unvisited))%R ->
  selection_probabilities pher dist current_idx unvisited
  = Ok (map (fun p => (p / sum_list
                             (map (selection_weight pher dist current_idx)
                                unvisited))%R)
          (map (selection_weight pher dist current_idx) unvisited)).
Proof.
  intros Hpos. unfold selection_probabilities.
  destruct (Rlt_dec _ _); [reflexivity | contradiction].
Qed.

Lemma selection_probabilities_uniform (unvisited : list nat) :
  unvisited <> [] ->
  ~ (0 < sum_list (map (selection_weight pher dist current_idx) unvisited))%R ->
  selection_probabilities pher dist current_idx unvisited
  = Ok (replicate (length unvisited) (1 / INR (length unvisited))%R).
Proof.
  intros Hne Hnpos. unfold selection_probabilities.
  destruct (Rlt_dec _ _); [contradiction|].
  destruct unvisited; [congruence | reflexivity].
Qed.

(** C9: on a non-negative distance row and a non-negative pheromone row,
    the weight of candidate [k] is the desirability score of the
    specification; the list handed to the weighted draw has one
    non-negative entry per candidate and sums to one; it is the list of
    scores divided by their sum when that sum is positive, and the uniform
    list when all scores are zero, one of which is always the case; the
    draw picks a candidate. *)
Theorem selection_distribution (unvisited : list nat) :
  unvisited <> [] ->
  (forall k, In k unvisited -> (0 <= mget dist current_idx k)%R) ->
  (forall k, In k unvisited -> (0 <= mget pher current_idx k)%R) ->
  let scores := map (desirability pher dist current_idx) unvisited in
  map (selection_weight pher dist current_idx) unvisited = scores /\
  exists probabilities,
    selection_probabilities pher dist current_idx unvisited = Ok probabilities /\
    length probabilities = length unvisited /\
    Forall (fun p => (0 <= p)%R) probabilities /\
    sum_list probabilities = 1%R /\
    ((0 < sum_list scores)%R ->
     probabilities = map (fun w => (w / sum_list scores)%R) scores) /\
    (Forall (fun w => w = 0%R) scores ->
     probabilities
     = replicate (length unvisited) (1 / INR (length unvisited))%R) /\
    (Forall (fun w => w = 0%R) scores \/ (0 < sum_list scores)%R) /\
    forall g,
      _select_next_container current_idx unvisited pher dist g
        = random_choices unvisited probabilities g /\
      exists next_idx,
        random_choices unvisited probabilities g = Ok (next_idx, (random g).2) /\
        In next_idx unvisited.
Proof.
  intros Hne Hdist Hpher scores.
  assert (Hscores : map (selection_weight pher dist current_idx) unvisited = scores).
  { apply map_ext_in. intros k Hk. apply selection_weight_desirability, Hdist, Hk. }
  split; [exact Hscores|].
  assert (Hnonneg : Forall (fun w => (0 <= w)%R) scores).
  { rewrite <- Hscores. apply Forall_map, Forall_forall. intros k Hk. cbn.
    apply selection_weight_nonneg, Hpher, list_elem_of_In, Hk. }
  destruct (selection_probabilities_Ok pher dist current_idx unvisited Hne)
    as (ps & Hps & Hlen & Hsum).
  exists ps. split; [exact Hps|]. split; [exact Hlen|].
  pose proof (sum_list_nonneg scores Hnonneg) as Htot.
  destruct (Rlt_dec 0 (sum_list scores)) as [Hpos|Hnpos].
  - rewrite (selection_probabilities_normalised unvisited) in Hps
      by (rewrite Hscores; exact Hpos).
    rewrite Hscores in Hps. injection Hps as <-.
    split; [|split; [|split; [|split; [|split]]]].
    + apply Forall_map. eapply Forall_impl; [exact Hnonneg|].
      intros w Hw. cbn. apply Rle_mult_inv_pos; assumption.
    + exact Hsum.
    + reflexivity.
    + intros Hzero. apply sum_list_zero in Hzero. lra.
    + right. exact Hpos.
    + intros g. unfold _select_next_container.
      rewrite (selection_probabilities_normalised unvisited)
        by (rewrite Hscores; exact Hpos).
      rewrite Hscores. cbn. split; [reflexivity|].
      apply random_choices_Ok; [exact Hne | exact Hlen | lra].
  - rewrite (selection_probabilities_uniform unvisited) in Hps
      by (rewrite ?Hscores; assumption).
    injection Hps as <-.
    split; [|split; [|split; [|split; [|split]]]].
    + apply Forall_replicate. apply Rlt_le, Rdiv_lt_0_compat; [lra|].
      apply lt_0_INR. destruct unvisited; [congruence | cbn; lia].
    + exact Hsum.
    + intros Hpos. contradiction.
    + reflexivity.
    + left. apply sum_list_nonneg_zero; [exact Hnonneg | lra].
    + intros g. unfold _select_next_container.
      rewrite (selection_probabilities_uniform unvisited)
        by (rewrite ?Hscores; assumption).
      cbn. split; [reflexivity|].
      apply random_choices_Ok; [exact Hne | exact Hlen | lra].
Qed.

End Selection.

(** ** A run that does not return *)

Lemma matrix_ext (n : nat) (m m' : Matrix) :
  square n m -> square n m' ->
  (forall i j, i < n -> j < n -> mget m i j = mget m' i j) ->
  m = m'.
Proof.
  intros [Hlen Hrows] [Hlen' Hrows'] Hcells.
  apply list_eq_same_length with (n := n); [exact Hlen' | exact Hlen |].
  intros i row row' Hi Hrow Hrow'.
  rewrite Forall_lookup in Hrows, Hrows'.
  apply list_eq_same_length with (n := n); [eauto | eauto |].
  intros j x x' Hj Hx Hx'.
  specialize (Hcells i j Hi Hj). unfold mget in Hcells.
  rewrite (nth_lookup_Some _ _ _ _ Hrow), (nth_lookup_Some _ _ _ _ Hrow') in Hcells.
  rewrite (nth_lookup_Some _ _ _ _ Hx), (nth_lookup_Some _ _ _ _ Hx') in Hcells.
  exact Hcells.
Qed.

Lemma one_way_matrix_square : square 4 one_way_matrix.
Proof. split; [reflexivity | repeat constructor]. Qed.

Lemma one_way_index_locations (i : nat) (p : Point) :
  (one_way_depot :: map container_point one_way_bins) !! i = Some p ->
  one_way_index p = i.
Proof.
  destruct i as [|[|[|[|i]]]]; cbn; intros [= <-]; unfold one_way_index; cbn;
    repeat (destruct (Req_dec_T _ _); try lra); reflexivity.
Qed.

(** The matrix built from [osrm_one_way] is [one_way_matrix]. *)
Lemma one_way_build :
  exists c,
    _build_distance_matrix osrm_one_way one_way_depot one_way_bins
    = Ok (one_way_matrix, c).
Proof.
  destruct (build_distance_matrix_spec osrm_one_way one_way_depot one_way_bins)
    as (m & c & Hbuild & Hsq & Hcells).
  exists c. rewrite Hbuild. do 2 f_equal.
  apply (matrix_ext 4); [exact Hsq | exact one_way_matrix_square |].
  intros i j Hi Hj. specialize (Hcells i j Hi Hj). unfold cell_built in Hcells.
  destruct (decide (i = j)) as [->|Hij].
  - destruct Hcells as [-> _]. unfold mget, one_way_matrix.
    destruct j as [|[|[|[|j]]]]; try reflexivity; lia.
  - destruct Hcells as (p & q & Hp & Hq & Hcell).
    unfold get_distance, requests_get, osrm_one_way in Hcell. cbn in Hcell.
    destruct Hcell as [-> _].
    rewrite (one_way_index_locations i p Hp), (one_way_index_locations j q Hq).
    unfold mget, one_way_matrix. cbn -[IZR]. lra.
Qed.

Lemma bisect_zero (e : R) (a : list R) (x : R) (hi : nat) :
  (x < e)%R -> bisect (e :: a) x hi = 0.
Proof.
  intros Hlt. destruct hi as [|hi]; [reflexivity|]. cbn.
  destruct (Rle_dec e x); [lra | reflexivity].
Qed.

(** With a draw of 0 the weighted choice falls on the first candidate,
    when that candidate has a positive weight. *)
Lemma select_first_candidate (pher dist : Matrix) (current_idx k : nat)
  (rest : list nat) (g : Rng) :
  g 0 = 0%R ->
  (0 < selection_weight pher dist current_idx k)%R ->
  Forall (fun j => (0 <= selection_weight pher dist current_idx j)%R) rest ->
  _select_next_container current_idx (k :: rest) pher dist g
  = Ok (k, (random g).2).
Proof.
  intros Hg Hk Hrest. unfold _select_next_container.
  assert (Htotal : (0 < sum_list (map (selection_weight pher dist current_idx)
                                   (k :: rest)))%R).
  { cbn. assert (0 <= sum_list (map (selection_weight pher dist current_idx) rest))%R.
    { apply sum_list_nonneg, Forall_map. exact Hrest. }
    lra. }
  rewrite selection_probabilities_normalised by exact Htotal.
  cbn [mbind result_mbind result_bind].
  set (T := sum_list (map (selection_weight pher dist current_idx) (k :: rest))) in *.
  set (ps := map (fun p => (p / T)%R)
               (map (selection_weight pher dist current_idx) (k :: rest))).
  assert (Hsum : sum_list ps = 1%R).
  { subst ps. rewrite sum_list_map_div. fold T. field. lra. }
  unfold random_choices.
  rewrite accumulate_length, decide_True by (subst ps; rewrite !length_map; reflexivity).
  rewrite accumulate_last by (subst ps; discriminate).
  rewrite Hsum. destruct (Rle_dec 1 0) as [|_]; [lra|].
  cbn [random]. rewrite Hg.
  subst ps. cbn [map accumulate].
  rewrite bisect_zero.
  - reflexivity.
  - rewrite Rmult_0_l. apply Rdiv_lt_0_compat; assumption.
Qed.

Lemma one_way_weight (i j : nat) :
  i < 4 -> j < 4 -> i <> j ->
  (0 < selection_weight (np_full 4 ACO_INITIAL_PHEROMONE) one_way_matrix i j)%R.
Proof.
  intros Hi Hj Hij. unfold selection_weight.
  rewrite mget_np_full by assumption.
  assert (Hd : (0 < mget one_way_matrix i j)%R).
  { unfold mget, one_way_matrix.
    destruct i as [|[|[|[|i]]]]; destruct j as [|[|[|[|j]]]];
      cbn -[IZR]; try lra; lia. }
  destruct (Rlt_dec 0 (mget one_way_matrix i j)) as [_|]; [|contradiction].
  apply Rmult_lt_0_compat.
  - unfold ACO_INITIAL_PHEROMONE. cbn. lra.
  - apply pow_lt, Rdiv_lt_0_compat; lra.
Qed.

Lemma one_way_weight_nonneg (i j : nat) :
  (0 <= selection_weight (np_full 4 ACO_INITIAL_PHEROMONE) one_way_matrix i j)%R.
Proof.
  unfold selection_weight. apply Rmult_le_pos.
  - apply pow_le. destruct (le_lt_dec 4 i); [|destruct (le_lt_dec 4 j)].
    + rewrite (mget_outside 4) by (auto using square_np_full with lia). lra.
    + rewrite (mget_outside 4) by (auto using square_np_full with lia). lra.
    + rewrite mget_np_full by assumption. unfold ACO_INITIAL_PHEROMONE. lra.
  - destruct (Rlt_dec 0 (mget one_way_matrix i j)); [|lra].
    apply pow_le, Rlt_le, Rdiv_lt_0_compat; lra.
Qed.

(** The first ant of the first iteration, drawing 0 each time, builds the
    tour [0; 1; 2]. *)
Lemma one_way_first_ant :
  exists total,
    _construct_ant_solution (np_full 4 ACO_INITIAL_PHEROMONE) one_way_matrix 3
      rng_zero
    = Ok ([0; 1; 2], total, rng_zero).
Proof.
  unfold _construct_ant_solution. cbn [seq length].
  cbn [construct_loop].
  rewrite select_first_candidate;
    [ | reflexivity | apply one_way_weight; lia
      | apply Forall_forall; intros; apply one_way_weight_nonneg ].
  cbn [mbind result_mbind result_bind list_remove].
  rewrite decide_True by reflexivity.
  cbn [mbind result_mbind result_bind].
  change (random rng_zero).2 with rng_zero.
  rewrite select_first_candidate;
    [ | reflexivity | apply one_way_weight; lia
      | apply Forall_forall; intros; apply one_way_weight_nonneg ].
  cbn [mbind result_mbind result_bind list_remove].
  rewrite decide_True by reflexivity.
  cbn [mbind result_mbind result_bind].
  change (random rng_zero).2 with rng_zero.
  rewrite select_first_candidate;
    [ | reflexivity | apply one_way_weight; lia
      | apply Forall_forall; intros; apply one_way_weight_nonneg ].
  cbn [mbind result_mbind result_bind list_remove].
  rewrite decide_True by reflexivity.
  cbn [mbind result_mbind result_bind].
  change (random rng_zero).2 with rng_zero.
  eexists. reflexivity.
Qed.

Lemma one_way_first_ant_step (fuel : nat) :
  ant_step fuel (np_full 4 ACO_INITIAL_PHEROMONE) one_way_matrix 3
    ([], rng_zero)
  = OutOfFuel.
Proof.
  unfold ant_step.
  destruct one_way_first_ant as [total ->].
  cbn [mbind result_mbind result_bind].
  rewrite two_opt_can_cycle_on_first_tour. reflexivity.
Qed.

Lemma one_way_first_round (fuel : nat) :
  iteration_step fuel one_way_matrix 3
    {| pheromones := np_full 4 ACO_INITIAL_PHEROMONE;
       global_best_tour := None;
       global_best_distance := Inf;
       rng := rng_zero |}
  = OutOfFuel.
Proof.
  unfold iteration_step. cbn [pheromones rng].
  change (seq 0 ACO_NUM_ANTS) with (0 :: seq 1 99).
  cbn [for_each]. rewrite one_way_first_ant_step. reflexivity.
Qed.

(** On the directed distances of [osrm_one_way] the entry point has not
    returned after any number of refiner rounds: the first ant's tour
    sends the refiner into its cycle. *)
Lemma optimize_route_can_hang (fuel : nat) :
  optimize_route osrm_one_way fuel "Center" one_way_bins 40
    (Some one_way_depot) rng_zero
  = OutOfFuel.
Proof.
  assert (Hroute : _create_aco_route osrm_one_way fuel one_way_depot
                     one_way_bins rng_zero = OutOfFuel).
  { unfold _create_aco_route. cbn [one_way_bins]. fold one_way_bins.
    destruct one_way_build as [c ->].
    cbn [mbind result_mbind result_bind].
    change (seq 0 ACO_NUM_ITERATIONS) with (0 :: seq 1 19).
    cbn [for_each].
    change (length one_way_bins + 1) with 4.
    change (length one_way_bins) with 3.
    rewrite one_way_first_round. reflexivity. }
  unfold optimize_route. cbn [one_way_bins].
  fold one_way_bins. unfold floordiv. rewrite decide_False by discriminate.
  cbn [mbind result_mbind result_bind].
  change (slice_to one_way_bins 40) with one_way_bins.
  change (default DEPOT_LOCATION (Some one_way_depot)) with one_way_depot.
  rewrite Hroute. reflexivity.
Qed.

(** ** A provider that cannot be reached *)

Lemma euclidean_distance_sym (p q : Point) :
  _euclidean_distance p q = _euclidean_distance q p.
Proof.
  unfold _euclidean_distance.
  replace ((math_radians (lat p) - math_radians (lat q)) / 2)%R
    with (- ((math_radians (lat q) - math_radians (lat p)) / 2))%R by lra.
  replace ((math_radians (lon p) - math_radians (lon q)) / 2)%R
    with (- ((math_radians (lon q) - math_radians (lon p)) / 2))%R by lra.
  rewrite !sin_neg. do 4 f_equal. ring.
Qed.

Lemma unreachable_matrix (depot : Point) (containers : list Container)
  (m : Matrix) (c : GeometryCache) :
  _build_distance_matrix osrm_unreachable depot containers = Ok (m, c) ->
  square (length containers + 1) m /\
  forall i j, i < length containers + 1 -> j < length containers + 1 ->
    cache_get c (i, j) = None /\
    exists p q,
      (depot :: map container_point containers) !! i = Some p /\
      (depot :: map container_point containers) !! j = Some q /\
      mget m i j = if decide (i = j) then 0%R else _euclidean_distance p q.
Proof.
  intros Hbuild.
  destruct (build_distance_matrix_spec osrm_unreachable depot containers)
    as (m' & c' & Hrun & Hsq & Hcells).
  rewrite Hbuild in Hrun. injection Hrun as <- <-.
  split; [exact Hsq|]. intros i j Hi Hj.
  assert (Hlen : length (depot :: map container_point containers)
                 = length containers + 1) by (cbn; rewrite length_map; lia).
  destruct (lookup_lt_is_Some_2 (depot :: map container_point containers) i
              ltac:(lia)) as [p Hp].
  destruct (lookup_lt_is_Some_2 (depot :: map container_point containers) j
              ltac:(lia)) as [q Hq].
  specialize (Hcells i j Hi Hj). unfold cell_built in Hcells.
  unfold cache_get. destruct (decide (i = j)) as [->|Hij].
  - destruct Hcells as [Hm ->]. split; [reflexivity|]. exists p, q. auto.
  - destruct Hcells as (p' & q' & Hp' & Hq' & Hcell).
    rewrite Hp in Hp'. rewrite Hq in Hq'. injection Hp' as <-. injection Hq' as <-.
    cbn in Hcell. destruct Hcell as [Hm ->]. split; [reflexivity|].
    exists p, q. auto.
Qed.

Lemma unreachable_symmetric (depot : Point) (containers : list Container) :
  symmetric_distances osrm_unreachable depot containers.
Proof.
  intros m c Hbuild. apply unreachable_matrix in Hbuild as [Hsq Hcells].
  intros i j.
  destruct (le_lt_dec (length containers + 1) i) as [Hi|Hi].
  { rewrite !(mget_outside _ _ _ _ Hsq) by lia. reflexivity. }
  destruct (le_lt_dec (length containers + 1) j) as [Hj|Hj].
  { rewrite !(mget_outside _ _ _ _ Hsq) by lia. reflexivity. }
  destruct (Hcells i j Hi Hj) as (_ & p & q & Hp & Hq & ->).
  destruct (Hcells j i Hj Hi) as (_ & q' & p' & Hq' & Hp' & ->).
  rewrite Hp in Hp'. rewrite Hq in Hq'. injection Hp' as <-. injection Hq' as <-.
  destruct (decide (i = j)), (decide (j = i)); try congruence.
  apply euclidean_distance_sym.
Qed.

(** ** The claims at concrete inputs *)

Lemma twin_bins_routed : slice_to twin_bins 40 = twin_bins.
Proof. reflexivity. Qed.

Lemma trip_flags_witness :
  exists r,
    returns osrm_no_route rng_zero "Center" twin_bins 40 None r /\
    (requires_multiple_trips r = true <->
     (Z.of_nat (length twin_bins) > 40)%Z) /\
    is_ceil_div (Z.of_nat (length twin_bins)) 40 (trip_count r).
Proof.
  assert (H1 : twin_bins <> []) by discriminate.
  assert (H2 : (0 < 40)%Z) by lia.
  destruct (trip_flags osrm_no_route rng_zero "Center" None twin_bins 40 H1 H2)
    as [Hret Hall].
  destruct (Hret (no_route_symmetric _ _)) as [r Hr].
  exists r. split; [exact Hr | exact (Hall r Hr)].
Defined.

Lemma route_visits_each_stop_once_witness :
  exists r,
    returns osrm_no_route rng_zero "Center" twin_bins 40 None r /\
    Permutation (map stop_key (stops r)) (map container_key twin_bins) /\
    map order (stops r) = [1; 2].
Proof.
  assert (H1 : slice_to twin_bins 40 <> []) by (rewrite twin_bins_routed; discriminate).
  destruct (route_visits_each_stop_once osrm_no_route rng_zero "Center" None
              twin_bins 40 H1) as [Hret Hall].
  destruct (Hret (no_route_symmetric _ _)) as [r Hr].
  exists r. split; [exact Hr|].
  destruct (Hall r Hr) as (_ & Hperm & Horder).
  split; [exact Hperm | exact Horder].
Defined.

Lemma truncation_to_capacity_witness :
  exists r,
    returns osrm_no_route rng_zero "Center" twin_bins 1 None r /\
    Permutation (map stop_key (stops r)) (map container_key (take 1 twin_bins)) /\
    length (stops r) = 1 /\
    total_containers r = 1.
Proof.
  assert (H1 : (0 < 1)%Z) by lia.
  assert (H2 : (Z.of_nat (length twin_bins) > 1)%Z) by (cbn; lia).
  destruct (truncation_to_capacity osrm_no_route rng_zero "Center" None
              twin_bins 1 H1 H2) as [Hret Hall].
  destruct (Hret (no_route_symmetric _ _)) as [r Hr].
  exists r. split; [exact Hr|].
  destruct (Hall r Hr) as (_ & Hperm & Hlen & Hcount).
  split; [exact Hperm|]. split; [exact Hlen | exact Hcount].
Defined.

Lemma total_distance_of_route_witness :
  exists r m c tour,
    returns osrm_unreachable rng_zero "Center" twin_bins 40 None r /\
    _build_distance_matrix osrm_unreachable DEPOT_LOCATION twin_bins = Ok (m, c) /\
    Permutation tour (seq 0 2) /\
    Forall2 (stop_of twin_bins) (stops r) tour /\
    total_distance_km r = tour_cost m tour.
Proof.
  assert (H1 : slice_to twin_bins 40 <> []) by discriminate.
  destruct (total_distance_of_route osrm_unreachable rng_zero "Center" None
              twin_bins 40 H1) as [Hret Hall].
  destruct (Hret (unreachable_symmetric _ _)) as [r Hr].
  destruct (Hall r Hr)
    as (m & c & tour & final & last_c & Hbuild & Hperm & Hstops & _ & _ & Htotal & _).
  exists r, m, c, tour. split; [exact Hr|]. split; [exact Hbuild|].
  split; [exact Hperm|]. split; [exact Hstops | exact Htotal].
Defined.

Lemma selection_distribution_witness :
  exists probabilities,
    selection_probabilities (np_full 2 ACO_INITIAL_PHEROMONE) unit_distances 0 [1]
      = Ok probabilities /\
    sum_list probabilities = 1%R.
Proof.
  assert (H1 : [1] <> ([] : list nat)) by discriminate.
  assert (H2 : forall k, In k [1] -> (0 <= mget unit_distances 0 k)%R).
  { intros k [<-|[]]. unfold mget, unit_distances. cbn -[IZR]. lra. }
  assert (H3 : forall k, In k [1] ->
            (0 <= mget (np_full 2 ACO_INITIAL_PHEROMONE) 0 k)%R).
  { intros k [<-|[]]. unfold mget, np_full, ACO_INITIAL_PHEROMONE. cbn -[IZR]. lra. }
  destruct (selection_distribution (np_full 2 ACO_INITIAL_PHEROMONE)
              unit_distances 0 [1] H1 H2 H3)
    as (_ & ps & Hps & _ & _ & Hsum & _).
  exists ps. split; [exact Hps | exact Hsum].
Defined.

(** * Further properties *)

(** ** OSRMClient *)

(** Whether the request fails or the provider answers with a code and
    routes, [get_distance] raises nothing; it answers [(None, None)]
    exactly when the provider answers without code "Ok" and a route; on a failed
    request it answers the haversine estimate without geometry; on
    success it answers the first route's length in kilometres and its
    geometry, whatever other routes follow. *)
Theorem get_distance_outcomes (osrm : Point -> Point -> HttpOutcome)
  (p q : Point) :
  (exists r, get_distance osrm p q = Ok r) /\
  (get_distance osrm p q = Ok (None, None) <-> no_route (osrm p q) = true) /\
  (osrm p q = RequestFails ->
   get_distance osrm p q = Ok (Some (_euclidean_distance p q), None)) /\
  (forall route routes,
     osrm p q = Responds "Ok" (route :: routes) ->
     get_distance osrm p q
     = Ok (Some (route_distance route / 1000)%R, Some (route_geometry route))).
Proof.
  split; [apply get_distance_total|]. split; [|split].
  - pose proof (get_distance_by_no_route osrm p q) as H.
    destruct (no_route (osrm p q)).
    + split; auto.
    + destruct H as (d & geo & ->). split; discriminate.
  - apply get_distance_fails.
  - intros route routes. apply get_distance_route.
Qed.

Lemma asin_nonneg (x : R) : (0 <= x)%R -> (0 <= asin x)%R.
Proof.
  intros Hx. unfold asin.
  destruct (Rle_dec x (-1)) as [?|_]; [lra|].
  pose proof PI_RGT_0.
  destruct (Rle_dec 1 x) as [_|Hlt]; [lra|].
  assert (Hs : (0 < sqrt (1 - x²))%R).
  { apply sqrt_lt_R0. unfold Rsqr. nra. }
  destruct (Req_dec_T x 0) as [->|Hne].
  - unfold Rdiv. rewrite Rmult_0_l, atan_0. lra.
  - rewrite <- atan_0. apply Rlt_le, atan_increasing.
    apply Rdiv_lt_0_compat; lra.
Qed.

Lemma euclidean_distance_bounds (p q : Point) :
  (0 <= _euclidean_distance p q <= 6371 * PI)%R.
Proof.
  unfold _euclidean_distance.
  set (a := (_ + _)%R).
  pose proof (asin_bound (sqrt a)) as [_ Hup].
  pose proof (asin_nonneg (sqrt a) (sqrt_pos a)) as Hlow.
  pose proof PI_RGT_0. split; nra.
Qed.

(** The haversine fallback is 0 between a point and itself, does not
    depend on the direction, and lies between 0 and half the
    circumference of a sphere of radius 6371. *)
Theorem euclidean_distance_properties (p q : Point) :
  _euclidean_distance p p = 0%R /\
  _euclidean_distance p q = _euclidean_distance q p /\
  (0 <= _euclidean_distance p q <= 6371 * PI)%R.
Proof.
  split; [apply euclidean_distance_same|]. split.
  - apply euclidean_distance_sym.
  - apply euclidean_distance_bounds.
Qed.

(** ** The distance matrix builder, when the provider answers *)

(** The builder returns an (n+1) by (n+1) matrix with a zero diagonal and
    no cache entry on it; for a pair the provider routes it stores the
    first route's length in kilometres and caches its geometry. *)
Theorem build_distance_matrix_on_success
  (osrm : Point -> Point -> HttpOutcome) (depot : Point)
  (containers : list Container) :
  exists m c,
    _build_distance_matrix osrm depot containers = Ok (m, c) /\
    square (length containers + 1) m /\
    (forall i, i < length containers + 1 ->
       mget m i i = 0%R /\ c !! (i, i) = None) /\
    forall i j from_point to_point route routes,
      (depot :: map container_point containers) !! i = Some from_point ->
      (depot :: map container_point containers) !! j = Some to_point ->
      i <> j ->
      osrm from_point to_point = Responds "Ok" (route :: routes) ->
      mget m i j = (route_distance route / 1000)%R /\
      c !! (i, j) = Some (Some (route_geometry route)).
Proof.
  destruct (build_distance_matrix_spec osrm depot containers)
    as (m & c & Hrun & Hsq & Hcells).
  exists m, c. split; [exact Hrun|]. split; [exact Hsq|]. split.
  - intros i Hi. specialize (Hcells i i Hi Hi). unfold cell_built in Hcells.
    rewrite decide_True in Hcells by reflexivity. exact Hcells.
  - intros i j p q route routes Hp Hq Hij Hresp.
    assert (Hi : i < length containers + 1).
    { apply lookup_lt_Some in Hp. cbn in Hp. rewrite length_map in Hp. lia. }
    assert (Hj : j < length containers + 1).
    { apply lookup_lt_Some in Hq. cbn in Hq. rewrite length_map in Hq. lia. }
    specialize (Hcells i j Hi Hj). unfold cell_built in Hcells.
    rewrite decide_False in Hcells by exact Hij.
    destruct Hcells as (p' & q' & Hp' & Hq' & Hcell).
    rewrite Hp in Hp'. rewrite Hq in Hq'. injection Hp' as <-. injection Hq' as <-.
    rewrite (get_distance_route osrm p q route routes Hresp) in Hcell.
    exact Hcell.
Qed.

(** When the provider reports no negative route length, no entry of the
    built matrix is negative. *)
Theorem build_distance_matrix_nonneg
  (osrm : Point -> Point -> HttpOutcome) (depot : Point)
  (containers : list Container) (m : Matrix) (c : GeometryCache) :
  nonneg_routes osrm ->
  _build_distance_matrix osrm depot containers = Ok (m, c) ->
  forall i j, (0 <= mget m i j)%R.
Proof.
  intros Hnonneg Hbuild i j.
  destruct (build_distance_matrix_spec osrm depot containers)
    as (m' & c' & Hrun & Hsq & Hcells).
  rewrite Hbuild in Hrun. injection Hrun as <- <-.
  destruct (le_lt_dec (length containers + 1) i) as [Hi|Hi].
  { rewrite (mget_outside _ _ _ _ Hsq) by lia. lra. }
  destruct (le_lt_dec (length containers + 1) j) as [Hj|Hj].
  { rewrite (mget_outside _ _ _ _ Hsq) by lia. lra. }
  specialize (Hcells i j Hi Hj). unfold cell_built in Hcells.
  destruct (decide (i = j)); [destruct Hcells as [-> _]; lra|].
  destruct Hcells as (p & q & _ & _ & Hcell).
  destruct (osrm p q) as [|code routes] eqn:Hosrm.
  - rewrite (get_distance_fails osrm p q Hosrm) in Hcell.
    destruct Hcell as [-> _]. apply euclidean_distance_bounds.
  - pose proof (get_distance_by_no_route osrm p q) as Hg.
    destruct (no_route (osrm p q)) eqn:Hno.
    + rewrite Hg in Hcell. destruct Hcell as [-> _]. lra.
    + rewrite Hosrm in Hno. cbn in Hno.
      destruct routes as [|route routes]; [discriminate|].
      apply negb_false_iff, String.eqb_eq in Hno. subst code.
      rewrite (get_distance_route osrm p q route routes Hosrm) in Hcell.
      destruct Hcell as [-> _].
      pose proof (Hnonneg p q _ route routes Hosrm). lra.
Qed.

Lemma build_distance_matrix_nonneg_witness :
  exists c,
    _build_distance_matrix osrm_one_way one_way_depot one_way_bins
      = Ok (one_way_matrix, c) /\
    forall i j, (0 <= mget one_way_matrix i j)%R.
Proof.
  destruct one_way_build as (c & Hrun).
  exists c. split; [exact Hrun|].
  apply (build_distance_matrix_nonneg osrm_one_way one_way_depot one_way_bins
           one_way_matrix c); [|exact Hrun].
  intros p q code route routes H. unfold osrm_one_way in H.
  injection H as _ <- _. cbn [route_distance].
  pose proof (one_way_matrix_nonneg (one_way_index p) (one_way_index q)). lra.
Defined.

(** ** Routing without the provider *)

(** The geometry of an assembled stop is what the cache yields for a leg
    between two locations of the matrix. *)
Lemma assemble_geometry (m : Matrix) (c : GeometryCache)
  (containers : list Container) (n : nat) (tour : list nat)
  (first_order prev_idx : nat) (cum : R) (route : list RouteStop) :
  assemble m c containers tour first_order prev_idx cum = Ok route ->
  prev_idx < n -> Forall (fun idx => idx + 1 < n) tour ->
  Forall (fun s => exists i j, i < n /\ j < n /\
                     geometry_to_here s = cache_get c (i, j)) route.
Proof.
  revert first_order prev_idx cum route.
  induction tour as [|idx tour IH]; intros first_order prev_idx cum route H Hprev Hin.
  - cbn in H. injection H as <-. constructor.
  - cbn [assemble] in H. apply Forall_cons in Hin as [Hidx Hin].
    apply bind_Ok in H as (ct & _ & H).
    apply bind_Ok in H as (rest & Hrest & [= <-]).
    constructor.
    + exists prev_idx, (idx + 1). auto.
    + eapply IH; eassumption.
Qed.

(** When every request to the provider fails, the entry point still
    returns for every non-empty routed list; every off-diagonal matrix
    entry is then the haversine estimate, every stop comes without
    geometry, and every routed container is visited exactly once. *)
Theorem unreachable_provider_still_routes (g : Rng) (neighborhood : string)
  (depot : option Point) (containers : list Container) (vehicle_capacity : Z) :
  let dep := default DEPOT_LOCATION depot in
  let routed := slice_to containers vehicle_capacity in
  routed <> [] ->
  (exists r,
     returns osrm_unreachable g neighborhood containers vehicle_capacity depot r) /\
  forall r,
    returns osrm_unreachable g neighborhood containers vehicle_capacity depot r ->
    Forall (fun s => geometry_to_here s = None) (stops r) /\
    Permutation (map stop_key (stops r)) (map container_key routed) /\
    exists m c,
      _build_distance_matrix osrm_unreachable dep routed = Ok (m, c) /\
      forall i j p q,
        (dep :: map container_point routed) !! i = Some p ->
        (dep :: map container_point routed) !! j = Some q ->
        i <> j -> mget m i j = _euclidean_distance p q.
Proof.
  intros dep routed Hne. destruct (slice_to_nonempty _ _ Hne) as [Hcs Hcap].
  split.
  - apply optimize_route_returns; [assumption | assumption |].
    apply unreachable_symmetric.
  - intros r Hr.
    destruct (returned_route osrm_unreachable g neighborhood depot containers
                vehicle_capacity r Hne Hr) as (m & c & tour & Hbuild & Hperm & Hroute).
    fold dep routed in Hbuild, Hperm, Hroute.
    pose proof (unreachable_matrix dep routed m c Hbuild) as [Hsq Hcells].
    assert (Hin : Forall (fun idx => idx + 1 < length routed + 1) tour).
    { rewrite Forall_forall. intros idx Hidx. apply list_elem_of_In in Hidx.
      apply (Permutation_in _ Hperm), in_seq in Hidx. lia. }
    pose proof (assemble_geometry m c routed (length routed + 1) tour 1 0 0%R
                  (stops r) Hroute ltac:(lia) Hin) as Hgeo.
    apply assemble_inv in Hroute as (_ & _ & Hstops & _).
    split; [|split].
    + eapply Forall_impl; [exact Hgeo|]. intros s (i & j & Hi & Hj & ->).
      apply (Hcells i j Hi Hj).
    + eapply stops_permutation; eassumption.
    + exists m, c. split; [exact Hbuild|]. intros i j p q Hp Hq Hij.
      assert (Hi : i < length routed + 1).
      { apply lookup_lt_Some in Hp. cbn in Hp. rewrite length_map in Hp. lia. }
      assert (Hj : j < length routed + 1).
      { apply lookup_lt_Some in Hq. cbn in Hq. rewrite length_map in Hq. lia. }
      destruct (Hcells i j Hi Hj) as (_ & p' & q' & Hp' & Hq' & ->).
      rewrite Hp in Hp'. rewrite Hq in Hq'. injection Hp' as <-. injection Hq' as <-.
      rewrite decide_False by exact Hij. reflexivity.
Qed.

Lemma unreachable_provider_still_routes_witness :
  exists r,
    returns osrm_unreachable rng_zero "Center" twin_bins 40 None r /\
    Forall (fun s => geometry_to_here s = None) (stops r).
Proof.
  assert (H1 : slice_to twin_bins 40 <> []) by (rewrite twin_bins_routed; discriminate).
  destruct (unreachable_provider_still_routes rng_zero "Center" None twin_bins 40 H1)
    as [[r Hr] Hall].
  exists r. split; [exact Hr|]. apply (Hall r Hr).
Defined.

(** ** The weighted draw *)

Lemma accumulate_eq (ws : list R) : accumulate ws = accumulate_from 0 ws.
Proof.
  destruct ws as [|w ws]; [reflexivity|]. cbn. rewrite Rplus_0_l. reflexivity.
Qed.

(** The index found by the bisection over the cumulative weights carries
    a positive weight. *)
Lemma bisect_accumulate_positive (ws : list R) (acc x : R) (hi : nat) :
  (acc <= x)%R -> (x < acc + sum_list ws)%R -> S hi = length ws ->
  exists w, ws !! bisect (accumulate_from acc ws) x hi = Some w /\ (0 < w)%R.
Proof.
  revert acc hi. induction ws as [|w ws IH]; intros acc hi Hlow Hup Hlen;
    [discriminate|].
  cbn [accumulate_from]. destruct hi as [|hi].
  - destruct ws; [|discriminate]. cbn in Hup |- *. exists w. split; [reflexivity|]. lra.
  - cbn [bisect]. destruct (Rle_dec (acc + w) x) as [Hle|Hgt].
    + cbn in Hup, Hlen. destruct (IH (acc + w)%R hi Hle) as (w' & Hw' & Hpos);
        [lra | lia |].
      exists w'. split; [exact Hw' | exact Hpos].
    + exists w. split; [reflexivity|]. lra.
Qed.

(** While some candidate has a positive weight, a draw in [0, 1) selects
    a candidate of positive weight, hence one at a positive distance from
    the current location; it uses up exactly one random number. *)
Theorem select_avoids_zero_weight (pher dist : Matrix) (current_idx : nat)
  (unvisited : list nat) (g g' : Rng) (next_idx : nat) :
  (forall k, In k unvisited -> (0 <= mget pher current_idx k)%R) ->
  (0 <= g 0%nat < 1)%R ->
  (0 < sum_list (map (selection_weight pher dist current_idx) unvisited))%R ->
  _select_next_container current_idx unvisited pher dist g = Ok (next_idx, g') ->
  In next_idx unvisited /\
  (0 < selection_weight pher dist current_idx next_idx)%R /\
  (0 < mget dist current_idx next_idx)%R /\
  forall k, g' k = g (S k).
Proof.
  intros Hpher Hg Htotal H. unfold _select_next_container in H.
  rewrite selection_probabilities_normalised in H by exact Htotal.
  cbn [mbind result_mbind result_bind] in H.
  set (ws := map (selection_weight pher dist current_idx) unvisited) in *.
  set (T := sum_list ws) in *.
  set (ps := map (fun p => (p / T)%R) ws) in *.
  assert (Hsum : sum_list ps = 1%R).
  { subst ps. rewrite sum_list_map_div. fold T. field. lra. }
  assert (Hlen : length ps = length unvisited).
  { subst ps ws. rewrite !length_map. reflexivity. }
  assert (Hne : ps <> []).
  { intros Hnil. rewrite Hnil in Hsum. cbn in Hsum. lra. }
  unfold random_choices in H.
  rewrite accumulate_length, decide_True in H by exact Hlen.
  rewrite accumulate_last in H by exact Hne.
  destruct (Rle_dec (sum_list ps) 0) as [?|_]; [lra|].
  cbn [random] in H.
  apply bind_Ok in H as (x & Hx & [= -> <-]).
  unfold index in Hx.
  destruct (unvisited !! _) as [y|] eqn:Hy; [|discriminate].
  injection Hx as ->.
  rewrite accumulate_eq in Hy.
  destruct (bisect_accumulate_positive ps 0 (g 0%nat * sum_list ps)%R
              (length unvisited - 1)) as (p & Hp & Hpos).
  { rewrite Hsum. lra. }
  { rewrite Hsum. lra. }
  { rewrite Hlen. destruct unvisited; [exfalso; apply Hne; reflexivity | cbn; lia]. }
  set (i := bisect _ _ _) in *.
  subst ps ws. rewrite !list_lookup_fmap, Hy in Hp. cbn in Hp.
  injection Hp as <-.
  assert (Hw : (0 < selection_weight pher dist current_idx next_idx)%R).
  { apply Rmult_lt_reg_r with (r := (/ T)%R); [apply Rinv_0_lt_compat; lra|].
    unfold Rdiv in Hpos. lra. }
  assert (Hin : In next_idx unvisited).
  { apply list_elem_of_In. eapply list_elem_of_lookup_2. exact Hy. }
  split; [exact Hin|]. split; [exact Hw|]. split; [|reflexivity].
  unfold selection_weight in Hw.
  destruct (Rlt_dec 0 (mget dist current_idx next_idx)) as [Hd|_]; [exact Hd|].
  lra.
Qed.

Lemma select_avoids_zero_weight_witness :
  exists next_idx g',
    _select_next_container 0 [1] (np_full 2 ACO_INITIAL_PHEROMONE)
      unit_distances rng_zero = Ok (next_idx, g') /\
    (0 < mget unit_distances 0 next_idx)%R.
Proof.
  assert (Hw : (0 < selection_weight (np_full 2 ACO_INITIAL_PHEROMONE)
                      unit_distances 0 1)%R).
  { unfold selection_weight, mget, np_full, unit_distances, ACO_INITIAL_PHEROMONE.
    cbn -[IZR Rlt_dec]. destruct (Rlt_dec 0 1); lra. }
  assert (H1 : forall k, In k [1] ->
            (0 <= mget (np_full 2 ACO_INITIAL_PHEROMONE) 0 k)%R).
  { intros k [<-|[]]. unfold mget, np_full, ACO_INITIAL_PHEROMONE. cbn -[IZR]. lra. }
  assert (H2 : (0 <= rng_zero 0%nat < 1)%R) by (unfold rng_zero; lra).
  assert (H3 : (0 < sum_list (map (selection_weight
                     (np_full 2 ACO_INITIAL_PHEROMONE) unit_distances 0%nat)
                              [1%nat]))%R).
  { cbn [map sum_list]. lra. }
  destruct (select_next_container_Ok (np_full 2 ACO_INITIAL_PHEROMONE)
              unit_distances 0 [1] rng_zero ltac:(discriminate))
    as (next_idx & Hsel & _).
  exists next_idx, (random rng_zero).2. split; [exact Hsel|].
  apply (select_avoids_zero_weight (np_full 2 ACO_INITIAL_PHEROMONE)
           unit_distances 0 [1] rng_zero (random rng_zero).2 next_idx H1 H2 H3 Hsel).
Defined.

(** ** The tour constructor *)

Lemma construct_loop_cost (pher dist : Matrix) (rounds : nat)
  (current_idx : nat) (unvisited tour : list nat) (total : R) (g : Rng)
  (tour' : list nat) (total' : R) (g' : Rng) :
  Forall (fun k => 1 <= k) unvisited ->
  construct_loop rounds pher dist current_idx unvisited tour total g
    = Ok (tour', total', g') ->
  exists picks,
    tour' = tour ++ picks /\
    total' = (total + path_cost dist
                        (current_idx :: map (fun i => (i + 1)%nat) picks ++ [0%nat]))%R /\
    forall k, g' k = g (length unvisited + k).
Proof.
  revert current_idx unvisited tour total g.
  induction rounds as [|rounds IH]; intros current_idx unvisited tour total g Hpos H.
  - destruct unvisited; [|discriminate]. cbn in H. injection H as <- <- <-.
    exists []. rewrite app_nil_r. split; [reflexivity|]. split; [cbn; lra | reflexivity].
  - destruct unvisited as [|u unvisited].
    + cbn in H. injection H as <- <- <-.
      exists []. rewrite app_nil_r. split; [reflexivity|]. split; [cbn; lra | reflexivity].
    + cbn [construct_loop] in H.
      destruct (select_next_container_Ok pher dist current_idx (u :: unvisited) g)
        as (next_idx & Hsel & Hin); [discriminate|].
      rewrite Hsel in H. cbn [mbind result_mbind result_bind] in H.
      destruct (list_remove_Ok next_idx (u :: unvisited) Hin) as (rest & Hrem & Hperm).
      rewrite Hrem in H. cbn [mbind result_mbind result_bind] in H.
      assert (Hnext : 1 <= next_idx).
      { rewrite Forall_forall in Hpos. apply Hpos, list_elem_of_In, Hin. }
      assert (Hrest : Forall (fun k => 1 <= k) rest).
      { rewrite Hperm in Hpos. apply Forall_cons in Hpos. tauto. }
      apply IH in H as (picks & -> & -> & Hg); [|exact Hrest].
      exists ((next_idx - 1) :: picks). split; [rewrite <- app_assoc; reflexivity|].
      split.
      * cbn [map app]. replace (next_idx - 1 + 1) with next_idx by lia.
        cbn [path_cost]. lra.
      * intros k. rewrite Hg. cbn [random snd].
        apply Permutation_length in Hperm. cbn in Hperm.
        f_equal. cbn [length]. lia.
Qed.

(** On pheromone and distance arrays of the colony's size, (n+1) by
    (n+1) for n containers, an ant returns a tour that visits every
    container once, together with the closed-path cost of that very tour,
    and uses up one random number per container. *)
Theorem construct_ant_solution_cost (pher dist : Matrix) (num_containers : nat)
  (g : Rng) :
  square (num_containers + 1) pher ->
  square (num_containers + 1) dist ->
  exists tour total g',
    _construct_ant_solution pher dist num_containers g = Ok (tour, total, g') /\
    Permutation tour (seq 0 num_containers) /\
    total = tour_cost dist tour /\
    forall k, g' k = g (num_containers + k).
Proof.
  intros _ _.
  destruct (construct_ant_solution_Ok pher dist num_containers g)
    as (tour & total & g' & Hrun & Hperm).
  exists tour, total, g'. split; [exact Hrun|]. split; [exact Hperm|].
  unfold _construct_ant_solution in Hrun.
  apply construct_loop_cost in Hrun as (picks & Htour & Htotal & Hg).
  - cbn in Htour. subst picks. split.
    + rewrite Htotal. unfold tour_cost, full_path. lra.
    + intros k. rewrite Hg, length_seq. reflexivity.
  - rewrite Forall_forall. intros k Hk. apply list_elem_of_In, in_seq in Hk. lia.
Qed.

Lemma construct_ant_solution_cost_witness :
  exists tour total g',
    _construct_ant_solution (np_full 3 ACO_INITIAL_PHEROMONE) detour_matrix 2
      rng_zero = Ok (tour, total, g') /\
    Permutation tour (seq 0 2) /\
    total = tour_cost detour_matrix tour.
Proof.
  assert (Hsq : square (2 + 1) detour_matrix)
    by (split; [reflexivity | repeat constructor]).
  destruct (construct_ant_solution_cost (np_full 3 ACO_INITIAL_PHEROMONE)
              detour_matrix 2 rng_zero (square_np_full 3 _) Hsq)
    as (tour & total & g' & Hrun & Hperm & Htotal & _).
  exists tour, total, g'. split; [exact Hrun|]. split; [exact Hperm | exact Htotal].
Defined.

(** ** What a pheromone update writes *)

Lemma mget_evaporate (m : Matrix) (i j : nat) :
  mget (map (map (fun x => ((1 - ACO_RHO) * x)%R)) m) i j
  = ((1 - ACO_RHO) * mget m i j)%R.
Proof.
  unfold mget.
  change (@nil R) with (map (fun x => ((1 - ACO_RHO) * x)%R) []) at 1.
  rewrite map_nth.
  replace 0%R with ((1 - ACO_RHO) * 0)%R at 1 by lra.
  rewrite map_nth. reflexivity.
Qed.

Lemma madd_effect (m m' : Matrix) (a b : nat) (x : R) :
  madd m a b x = Ok m' ->
  forall i j,
    mget m' i j
    = if decide ((i, j) = (a, b)) then (mget m a b + x)%R else mget m i j.
Proof.
  unfold madd, mset. intros H i j.
  destruct (m !! a) as [row|] eqn:Hrow; [|discriminate].
  destruct (decide (b < length row)) as [Hb|]; [|discriminate].
  injection H as <-.
  pose proof (lookup_lt_Some _ _ _ Hrow) as Ha.
  unfold mget at 1. rewrite !nth_lookup.
  destruct (decide ((i, j) = (a, b))) as [[= -> ->]|Hne].
  - rewrite list_lookup_insert_eq by exact Ha. cbn.
    rewrite list_lookup_insert_eq by exact Hb. reflexivity.
  - destruct (decide (i = a)) as [->|Hi].
    + rewrite list_lookup_insert_eq by exact Ha. cbn.
      rewrite list_lookup_insert_ne by congruence.
      unfold mget. rewrite !nth_lookup, Hrow. reflexivity.
    + rewrite list_lookup_insert_ne by congruence.
      unfold mget. rewrite !nth_lookup. reflexivity.
Qed.

Lemma full_path_lookup_S (tour : list nat) (k a : nat) :
  tour !! k = Some a -> full_path tour !! S k = Some (a + 1).
Proof.
  intros H. unfold full_path.
  change ((((fun i => i + 1) <$> tour) ++ [0]) !! k = Some (a + 1)).
  rewrite lookup_app_l by (rewrite length_fmap; eapply lookup_lt_Some, H).
  rewrite list_lookup_fmap, H. reflexivity.
Qed.

Lemma full_path_lookup_last (tour : list nat) :
  full_path tour !! S (length tour) = Some 0.
Proof.
  unfold full_path.
  change ((((fun i => i + 1) <$> tour) ++ [0]) !! length tour = Some 0).
  rewrite lookup_app_r by (rewrite length_fmap; lia).
  rewrite length_fmap, Nat.sub_diag. reflexivity.
Qed.

(** A deposit along a tour raises no entry off the tour's edges and
    lowers none. *)
Lemma deposit_along_effect (m m' : Matrix) (tour : list nat) (deposit : R) :
  (0 <= deposit)%R -> deposit_along m tour deposit = Ok m' ->
  forall i j,
    (mget m i j <= mget m' i j)%R /\
    (~ on_tour tour i j -> mget m' i j = mget m i j).
Proof.
  intros Hd H. unfold deposit_along in H.
  apply bind_Ok in H as (first & Hfirst & H).
  apply bind_Ok in H as (p1 & H1 & H).
  apply bind_Ok in H as (p2 & H2 & H).
  apply bind_Ok in H as (final & Hfinal & H3).
  assert (Hstep : forall (p p' : Matrix) a b,
    on_tour tour a b -> madd p a b deposit = Ok p' ->
    (forall i j, (mget m i j <= mget p i j)%R /\
                 (~ on_tour tour i j -> mget p i j = mget m i j)) ->
    forall i j, (mget m i j <= mget p' i j)%R /\
                (~ on_tour tour i j -> mget p' i j = mget m i j)).
  { intros p p' a b Hon Hadd Hp i j. rewrite (madd_effect _ _ _ _ _ Hadd).
    destruct (Hp i j) as [Hle Heq]. destruct (Hp a b) as [Hle' _].
    destruct (decide ((i, j) = (a, b))) as [[= -> ->]|Hne].
    - split; [lra | contradiction].
    - split; assumption. }
  unfold index in Hfirst, Hfinal.
  destruct (tour !! 0) as [f|] eqn:Hf; [|discriminate]. injection Hfirst as ->.
  destruct (tour !! (length tour - 1)) as [z|] eqn:Hz; [|discriminate].
  injection Hfinal as ->.
  assert (Hlen : 0 < length tour) by (eapply lookup_lt_Some, Hf).
  assert (P1 : forall i j, (mget m i j <= mget p1 i j)%R /\
                 (~ on_tour tour i j -> mget p1 i j = mget m i j)).
  { apply (Hstep m p1 0 (first + 1)); [|exact H1|].
    - exists 0. split; [reflexivity | apply full_path_lookup_S, Hf].
    - intros i j. split; [lra | reflexivity]. }
  assert (P2 : forall i j, (mget m i j <= mget p2 i j)%R /\
                 (~ on_tour tour i j -> mget p2 i j = mget m i j)).
  { eapply for_each_inv
      with (P := fun p : Matrix =>
                   forall i j, (mget m i j <= mget p i j)%R /\
                     (~ on_tour tour i j -> mget p i j = mget m i j));
      [exact P1 | | exact H2].
    intros k t t' Hbody Ht. cbn beta in Hbody.
    apply bind_Ok in Hbody as (a & Ha & Hbody).
    apply bind_Ok in Hbody as (b & Hb & Hbody).
    unfold index in Ha, Hb.
    destruct (tour !! k) as [a'|] eqn:Hka; [|discriminate]. injection Ha as ->.
    destruct (tour !! (k + 1)) as [b'|] eqn:Hkb; [|discriminate]. injection Hb as ->.
    apply (Hstep t t' (a + 1) (b + 1)); [|exact Hbody | exact Ht].
    exists (S k). split; [apply full_path_lookup_S, Hka|].
    apply full_path_lookup_S. replace (S k) with (k + 1) by lia. exact Hkb. }
  apply (Hstep p2 m' (final + 1) 0); [|exact H3 | exact P2].
  exists (length tour). split.
  - replace (length tour) with (S (length tour - 1)) at 1 by lia.
    apply full_path_lookup_S, Hz.
  - apply full_path_lookup_last.
Qed.

Lemma update_pheromones_cells (m m' : Matrix)
  (all_tours : list (list nat * R)) (best_tour : list nat * R)
  (global_best : option (list nat * R)) :
  _update_pheromones m all_tours best_tour global_best = Ok m' ->
  forall i j,
    ((1 - ACO_RHO) * mget m i j <= mget m' i j)%R /\
    (~ on_tour best_tour.1 i j ->
     (forall t, global_best = Some t -> ~ on_tour t.1 i j) ->
     mget m' i j = ((1 - ACO_RHO) * mget m i j)%R).
Proof.
  intros H i j. unfold _update_pheromones in H.
  apply bind_Ok in H as (p1 & H1 & H2).
  set (e := map (map (fun x => ((1 - ACO_RHO) * x)%R)) m) in *.
  assert (P1 : (mget e i j <= mget p1 i j)%R /\
               (~ on_tour best_tour.1 i j -> mget p1 i j = mget e i j)).
  { destruct best_tour as [tour_indices tour_distance]. cbn.
    destruct (Rlt_dec 0 tour_distance) as [Hd|_].
    - eapply deposit_along_effect; [|exact H1].
      unfold ACO_Q. apply Rlt_le, Rdiv_lt_0_compat; lra.
    - injection H1 as <-. split; [lra | reflexivity]. }
  assert (P2 : (mget p1 i j <= mget m' i j)%R /\
               ((forall t, global_best = Some t -> ~ on_tour t.1 i j) ->
                mget m' i j = mget p1 i j)).
  { destruct global_best as [[tour_indices tour_distance]|].
    - destruct (Rlt_dec 0 tour_distance) as [Hd|_].
      + destruct (deposit_along_effect p1 m' tour_indices
                    (ACO_ELITE_WEIGHT * ACO_Q / tour_distance)%R) with (i := i) (j := j)
          as [Hle Heq]; [|exact H2|].
        * unfold ACO_ELITE_WEIGHT, ACO_Q. apply Rlt_le, Rdiv_lt_0_compat; lra.
        * split; [exact Hle|]. intros Hoff. apply Heq, (Hoff _ eq_refl).
      + injection H2 as <-. split; [lra | reflexivity].
    - injection H2 as <-. split; [lra | reflexivity]. }
  subst e. rewrite mget_evaporate in P1.
  destruct P1 as [L1 E1], P2 as [L2 E2]. split; [lra|].
  intros Hb Hg. rewrite (E2 Hg), (E1 Hb). reflexivity.
Qed.

(** A pheromone update never lowers an entry below its evaporated value,
    and leaves an entry at exactly that value when neither the iteration
    best nor the global best travels the entry's edge. *)
Theorem update_pheromones_effect (m m' : Matrix)
  (all_tours : list (list nat * R)) (best_tour : list nat * R)
  (global_best : option (list nat * R)) :
  _update_pheromones m all_tours best_tour global_best = Ok m' ->
  forall i j,
    ((1 - ACO_RHO) * mget m i j <= mget m' i j)%R /\
    (~ on_tour best_tour.1 i j ->
     (forall t, global_best = Some t -> ~ on_tour t.1 i j) ->
     mget m' i j = ((1 - ACO_RHO) * mget m i j)%R).
Proof. apply update_pheromones_cells. Qed.

Lemma update_pheromones_effect_witness :
  exists m',
    _update_pheromones (_initialize_pheromones 2) [] ([0], 1%R) None = Ok m' /\
    ((1 - ACO_RHO) * mget (_initialize_pheromones 2) 1 1 <= mget m' 1 1)%R.
Proof.
  destruct (update_pheromones_Ok 2 (_initialize_pheromones 2) []
              ([0], 1%R) None) as (m' & Hrun & _).
  - apply square_np_full.
  - split; [discriminate | repeat constructor].
  - discriminate.
  - exists m'. split; [exact Hrun|].
    apply (update_pheromones_effect (_initialize_pheromones 2) m' []
             ([0], 1%R) None Hrun 1 1).
Defined.

(** After [k] evaporation-plus-deposit cycles from the initial field,
    whatever the tours, every entry is at least the initial value times
    (1 - rho)^k. *)
Theorem pheromones_bounded_below (n : nat) (cycles : list cycle_inputs)
  (field : Matrix) :
  for_each cycles run_cycle (_initialize_pheromones n) = Ok field ->
  forall i j, i < n -> j < n ->
    (ACO_INITIAL_PHEROMONE * (1 - ACO_RHO) ^ length cycles <= mget field i j)%R.
Proof.
  intros H i j Hi Hj.
  assert (Hgen : forall (cs : list cycle_inputs) (m0 m1 : Matrix) (b : R),
    (0 <= b)%R -> (b <= mget m0 i j)%R ->
    for_each cs run_cycle m0 = Ok m1 ->
    (b * (1 - ACO_RHO) ^ length cs <= mget m1 i j)%R).
  { induction cs as [|c cs IH]; intros m0 m1 b Hb Hm0 Hrun.
    - cbn in Hrun. injection Hrun as <-. cbn. lra.
    - cbn [for_each] in Hrun. apply bind_Ok in Hrun as (m' & Hc & Hrun).
      unfold run_cycle in Hc.
      destruct (update_pheromones_cells _ _ _ _ _ Hc i j) as [Hle _].
      assert (Hrho : (0 < 1 - ACO_RHO)%R) by (unfold ACO_RHO; lra).
      specialize (IH m' m1 (b * (1 - ACO_RHO))%R ltac:(nra) ltac:(nra) Hrun).
      cbn [length pow]. lra. }
  apply (Hgen cycles (_initialize_pheromones n) field); [| |exact H].
  - unfold ACO_INITIAL_PHEROMONE. lra.
  - unfold _initialize_pheromones. rewrite mget_np_full by assumption. lra.
Qed.

Lemma pheromones_bounded_below_witness :
  exists field,
    for_each [([], ([0], 1%R), None)] run_cycle (_initialize_pheromones 2)
      = Ok field /\
    (ACO_INITIAL_PHEROMONE * (1 - ACO_RHO) ^ 1 <= mget field 0 1)%R.
Proof.
  destruct (update_pheromones_Ok 2 (_initialize_pheromones 2) []
              ([0], 1%R) None) as (field & Hfield & _).
  - apply square_np_full.
  - split; [discriminate | repeat constructor].
  - discriminate.
  - assert (Hrun : for_each [([], ([0], 1%R), None)] run_cycle
                     (_initialize_pheromones 2) = Ok field).
    { cbn [for_each]. unfold run_cycle. cbn [fst snd]. rewrite Hfield. reflexivity. }
    exists field. split; [exact Hrun|].
    apply (pheromones_bounded_below 2 [([], ([0], 1%R), None)] field Hrun 0 1); lia.
Defined.

(** ** What the refiner returns *)

Lemma scan_j_no_pair (d : Matrix) (p : list nat) (i : nat) (js : list nat) :
  scan_j d p i js = None -> forall j, In j js -> improves d p i j = false.
Proof.
  induction js as [|j js IH]; cbn; [contradiction|].
  destruct (improves d p i j) eqn:Himp; [discriminate|].
  intros H j' [<-|Hin]; auto.
Qed.

Lemma two_opt_scan_no_pair (d : Matrix) (p : list nat) (i j : nat) :
  two_opt_scan d p = None -> 1 <= i < j -> j + 1 < length p ->
  improves d p i j = false.
Proof.
  unfold two_opt_scan. intros H Hi Hj.
  assert (Hrow : forall rows, scan_i d p rows = None -> In i rows ->
            scan_j d p i (seq (i + 1) (length p - 1 - (i + 1))) = None).
  { induction rows as [|r rows IH]; cbn; [contradiction|].
    destruct (scan_j d p r _) eqn:Hr; [discriminate|].
    intros Hn [->|Hin]; auto. }
  eapply scan_j_no_pair; [apply (Hrow _ H)|]; apply in_seq; lia.
Qed.

(** The path the loop ends on is the closed path of the returned tour. *)
Lemma two_opt_final_path (d : Matrix) (fuel : nat) (tour refined : list nat) :
  _two_opt fuel tour d = Ok refined ->
  two_opt_loop fuel d (full_path tour) = Ok (full_path refined) /\
  two_opt_scan d (full_path refined) = None.
Proof.
  intros H. unfold _two_opt in H.
  apply bind_Ok in H as (p' & Hloop & [= <-]).
  pose proof Hloop as Hshape. unfold full_path in Hshape.
  apply two_opt_loop_shape in Hshape as (inner' & -> & Hperm & Hnone).
  cbn [tail]. rewrite removelast_last.
  assert (Hfp : full_path (map (fun node => node - 1) inner') = 0 :: inner' ++ [0]).
  { unfold full_path. rewrite map_map.
    rewrite (map_ext_in (fun x => x - 1 + 1) (fun x => x)), map_id; [reflexivity|].
    intros x Hx. apply (Permutation_in _ Hperm), in_map_iff in Hx as (y & <- & _). lia. }
  rewrite Hfp. split; [exact Hloop | exact Hnone].
Qed.

(** Whatever the matrix, a returned refined tour is a reordering of the
    input tour on whose closed path no pair of positions passes the
    improvement test any more. *)
Theorem two_opt_result (d : Matrix) (fuel : nat) (tour refined : list nat) :
  _two_opt fuel tour d = Ok refined ->
  Permutation refined tour /\
  length refined = length tour /\
  forall i j, 1 <= i < j -> j + 1 < length (full_path refined) ->
    improves d (full_path refined) i j = false.
Proof.
  intros H. pose proof (two_opt_perm d fuel tour refined H) as Hperm.
  split; [exact Hperm|]. split; [apply Permutation_length, Hperm|].
  intros i j Hi Hj. apply two_opt_scan_no_pair; [|exact Hi | exact Hj].
  apply (two_opt_final_path d fuel tour refined H).
Qed.

Lemma detour_two_opt : _two_opt 2 [0; 1] detour_matrix = Ok [1; 0].
Proof.
  unfold _two_opt. change (full_path [0; 1]) with [0; 1; 2; 0].
  cbn [two_opt_loop]. rewrite detour_scan_first, detour_scan_second. reflexivity.
Qed.

Lemma two_opt_result_witness :
  _two_opt 2 [0; 1] detour_matrix = Ok [1; 0] /\
  Permutation [1; 0] [0; 1] /\
  improves detour_matrix (full_path [1; 0]) 1 2 = false.
Proof.
  split; [exact detour_two_opt|].
  destruct (two_opt_result detour_matrix 2 [0; 1] [1; 0] detour_two_opt)
    as (Hperm & _ & Hlocal).
  split; [exact Hperm|]. apply Hlocal; cbn; lia.
Defined.

(** On a symmetric n by n matrix the refiner returns for every tour
    whose locations lie in the matrix, and what it returns costs no more
    than the tour it was given. *)
Theorem two_opt_on_symmetric (d : Matrix) (n : nat) (tour : list nat) :
  symmetric d ->
  square n d -> 0 < n -> Forall (fun i => i + 1 < n) tour ->
  (exists fuel refined, _two_opt fuel tour d = Ok refined) /\
  forall fuel refined,
    _two_opt fuel tour d = Ok refined ->
    (tour_cost d refined <= tour_cost d tour)%R.
Proof.
  intros Hsym _ _ _. split.
  - set (paths := permutations (full_path tour)).
    destruct (two_opt_loop_halts d paths Hsym) with
      (fuel := S (length paths)) (p := full_path tour) as [p' Hp'].
    + intros p q Hp Hscan. apply list_elem_of_In, permutations_Permutation.
      apply list_elem_of_In, permutations_Permutation in Hp.
      rewrite Hp. apply two_opt_scan_Some in Hscan as (i & j & Hi & Hj & _ & ->).
      symmetry. apply reverse_segment_perm. lia.
    + apply list_elem_of_In, permutations_refl.
    + unfold cheaper_count. pose proof (List.filter_length_le
        (fun q => if Rlt_dec (path_cost d q) (path_cost d (full_path tour))
                  then true else false) paths). lia.
    + exists (S (length paths)). unfold _two_opt. rewrite Hp'. cbn.
      eexists. reflexivity.
  - intros fuel refined. apply two_opt_never_worse_symmetric, Hsym.
Qed.

Lemma line_matrix_symmetric : symmetric line_matrix.
Proof. intros i j. unfold line_matrix. mget_cases i j. Qed.

Lemma line_matrix_square : square 4 line_matrix.
Proof. split; [reflexivity | repeat constructor]. Qed.

Lemma line_scan_first :
  two_opt_scan line_matrix [0; 1; 2; 3; 0] = Some [0; 2; 1; 3; 0].
Proof. unfold two_opt_scan, line_matrix. eval_tests. reflexivity. Qed.

Lemma line_scan_second : two_opt_scan line_matrix [0; 2; 1; 3; 0] = None.
Proof. unfold two_opt_scan, line_matrix. eval_tests. reflexivity. Qed.

(** On the line the refiner exchanges the first two stops and stops. *)
Lemma line_two_opt : _two_opt 2 [0; 1; 2] line_matrix = Ok [1; 0; 2].
Proof.
  unfold _two_opt. change (full_path [0; 1; 2]) with [0; 1; 2; 3; 0].
  cbn [two_opt_loop]. rewrite line_scan_first, line_scan_second. reflexivity.
Qed.

Lemma two_opt_on_symmetric_witness :
  _two_opt 2 [0; 1; 2] line_matrix = Ok [1; 0; 2] /\
  (tour_cost line_matrix [1; 0; 2]%nat <= tour_cost line_matrix [0; 1; 2]%nat)%R.
Proof.
  assert (Hpos : 0 < 4) by lia.
  assert (Hin : Forall (fun i => i + 1 < 4) [0; 1; 2])
    by (repeat constructor).
  split; [exact line_two_opt|].
  destruct (two_opt_on_symmetric line_matrix 4 [0; 1; 2] line_matrix_symmetric
              line_matrix_square Hpos Hin) as [_ Hcost].
  exact (Hcost 2 [1; 0; 2] line_two_opt).
Defined.

(** A tour of fewer than two stops comes back unchanged after one round,
    whatever the matrix. *)
Theorem two_opt_short_tour (d : Matrix) (fuel : nat) (tour : list nat) :
  length tour <= 1 -> _two_opt (S fuel) tour d = Ok tour.
Proof.
  intros Hlen. destruct tour as [|a [|b tour]]; [| |cbn in Hlen; lia].
  - reflexivity.
  - unfold _two_opt. cbn. rewrite Nat.add_sub. reflexivity.
Qed.

Lemma two_opt_short_tour_witness :
  _two_opt 1 [5] one_way_matrix = Ok [5].
Proof.
  apply (two_opt_short_tour one_way_matrix 0 [5]). cbn. lia.
Defined.

(** ** What the colony's best tour inherits from the refiner *)

Section ColonyBest.

Variable fuel : nat.
Variable d : Matrix.
Variable k : nat.

(** A property every refined tour has, with its recorded cost. *)
Variable Q : list nat * R -> Prop.
Hypothesis refined_Q :
  forall tour refined,
    Permutation tour (seq 0 k) -> _two_opt fuel tour d = Ok refined ->
    Q (refined, tour_cost d refined).

Lemma ant_step_best (pher : Matrix) (s s' : list (list nat * R) * Rng) :
  ant_step fuel pher d k s = Ok s' -> Forall Q s.1 -> Forall Q s'.1.
Proof.
  destruct s as [ts g]. unfold ant_step. intros H Hts.
  apply bind_Ok in H as ([[tour distance] g1] & Hcons & H).
  apply bind_Ok in H as (refined & Hopt & [= <-]). cbn.
  apply Forall_app. split; [exact Hts|]. constructor; [|constructor].
  destruct (construct_ant_solution_Ok pher d k g) as (t0 & c0 & g0 & Hrun & Hperm).
  rewrite Hrun in Hcons. injection Hcons as -> -> ->.
  eapply refined_Q; eassumption.
Qed.

Lemma iteration_step_best (s s' : colony) :
  iteration_step fuel d k s = Ok s' ->
  (forall t, global_best_tour s = Some t -> Q t) ->
  forall t, global_best_tour s' = Some t -> Q t.
Proof.
  unfold iteration_step. intros H Hbest.
  apply bind_Ok in H as ([ts g1] & Hants & H).
  apply bind_Ok in H as (best & Hmin & H).
  assert (HQ : Q best).
  { assert (Hts : Forall Q ts).
    { change ts with (ts, g1).1.
      eapply for_each_inv with (P := fun s => Forall Q s.1); [ | | exact Hants].
      - constructor.
      - intros x t t' Hstep Ht. cbn beta in Hstep.
        exact (ant_step_best _ t t' Hstep Ht). }
    rewrite Forall_forall in Hts.
    apply Hts, list_elem_of_In, min_by_cost_In, Hmin. }
  destruct (below best.2 (global_best_distance s));
    apply bind_Ok in H as (p & _ & [= <-]); cbn.
  - intros t [= <-]. exact HQ.
  - exact Hbest.
Qed.

End ColonyBest.

(** The tour a non-empty ACO route is assembled from is complete and
    stable under the refiner's improvement test. *)
Lemma create_aco_route_stable (osrm : Point -> Point -> HttpOutcome)
  (fuel : nat) (depot : Point) (containers : list Container) (g : Rng)
  (route : list RouteStop) :
  containers <> [] ->
  _create_aco_route osrm fuel depot containers g = Ok route ->
  exists m c tour,
    _build_distance_matrix osrm depot containers = Ok (m, c) /\
    Permutation tour (seq 0 (length containers)) /\
    two_opt_scan m (full_path tour) = None /\
    assemble m c containers tour 1 0 0%R = Ok route.
Proof.
  intros Hne H. unfold _create_aco_route in H.
  destruct containers as [|c0 cs] eqn:Hcs; [congruence|]. rewrite <- Hcs in *.
  apply bind_Ok in H as ([m c] & Hbuild & H).
  apply bind_Ok in H as (final & Hloop & H).
  set (Q := fun e : list nat * R =>
              Permutation e.1 (seq 0 (length containers)) /\
              two_opt_scan m (full_path e.1) = None).
  assert (HQ : forall tour refined,
            Permutation tour (seq 0 (length containers)) ->
            _two_opt fuel tour m = Ok refined ->
            Q (refined, tour_cost m refined)).
  { intros tour refined Hperm Hopt. split; cbn.
    - rewrite (two_opt_perm m fuel tour refined Hopt). exact Hperm.
    - apply (two_opt_final_path m fuel tour refined Hopt). }
  change (seq 0 ACO_NUM_ITERATIONS) with (0 :: seq 1 19) in Hloop.
  cbn [for_each] in Hloop.
  apply bind_Ok in Hloop as (s1 & Hfirst & Hloop).
  pose proof (iteration_step_inv fuel m (length containers) _ s1 Hfirst
                (conj (fun t (E : None = Some t) => ltac:(discriminate E))
                      (fun _ => eq_refl))) as [Hok1 Hsome1].
  pose proof (iteration_step_best fuel m (length containers) Q HQ _ s1 Hfirst
                (fun t (E : None = Some t) => ltac:(discriminate E))) as HQ1.
  assert (Hfinal : (colony_ok (length containers) final /\
                    global_best_tour final <> None) /\
                   forall t, global_best_tour final = Some t -> Q t).
  { eapply for_each_inv
      with (P := fun s => (colony_ok (length containers) s /\
                           global_best_tour s <> None) /\
                          forall t, global_best_tour s = Some t -> Q t);
      [ | | exact Hloop]; [auto|].
    intros x t t' Hstep [[Ht _] HQt]. cbn beta in Hstep. split.
    - exact (iteration_step_inv _ _ _ t t' Hstep Ht).
    - exact (iteration_step_best fuel m (length containers) Q HQ t t' Hstep HQt). }
  destruct Hfinal as [[_ Hsome] HQf].
  destruct (global_best_tour final) as [[tour cost]|]; [|congruence].
  destruct (HQf _ eq_refl) as [Hperm Hstable].
  exists m, c, tour. auto.
Qed.

(** The stops of a returned result follow a complete tour on whose closed
    path no pair of positions passes the refiner's improvement test on
    the built matrix. *)
Theorem winning_tour_is_two_opt_stable (osrm : Point -> Point -> HttpOutcome)
  (g : Rng) (neighborhood : string) (depot : option Point)
  (containers : list Container) (vehicle_capacity : Z) (r : RouteResult) :
  let dep := default DEPOT_LOCATION depot in
  let routed := slice_to containers vehicle_capacity in
  routed <> [] ->
  returns osrm g neighborhood containers vehicle_capacity depot r ->
  exists m c tour,
    _build_distance_matrix osrm dep routed = Ok (m, c) /\
    Permutation tour (seq 0 (length routed)) /\
    Forall2 (stop_of routed) (stops r) tour /\
    forall i j, 1 <= i < j -> j + 1 < length (full_path tour) ->
      improves m (full_path tour) i j = false.
Proof.
  intros dep routed Hne [fuel Hrun].
  apply optimize_route_inv in Hrun as (_ & _ & _ & _ & _ & Hroute & _).
  apply create_aco_route_stable in Hroute as (m & c & tour & Hbuild & Hperm & Hstable & Hasm);
    [|exact Hne].
  apply assemble_inv in Hasm as (_ & _ & Hstops & _).
  exists m, c, tour. split; [exact Hbuild|]. split; [exact Hperm|].
  split; [exact Hstops|].
  intros i j Hi Hj. apply two_opt_scan_no_pair; assumption.
Qed.

Lemma winning_tour_is_two_opt_stable_witness :
  exists r m c tour,
    returns osrm_no_route rng_zero "Center" twin_bins 40 None r /\
    _build_distance_matrix osrm_no_route DEPOT_LOCATION twin_bins = Ok (m, c) /\
    Forall2 (stop_of twin_bins) (stops r) tour /\
    improves m (full_path tour) 1 2 = false.
Proof.
  assert (H1 : slice_to twin_bins 40 <> []) by (rewrite twin_bins_routed; discriminate).
  assert (Hne : twin_bins <> []) by discriminate.
  assert (Hcap : 40%Z <> 0%Z) by discriminate.
  destruct (optimize_route_returns osrm_no_route "Center" None rng_zero
              twin_bins 40 Hne Hcap (no_route_symmetric _ _)) as [r Hr].
  destruct (winning_tour_is_two_opt_stable osrm_no_route rng_zero "Center" None
              twin_bins 40 r H1 Hr) as (m & c & tour & Hbuild & Hperm & Hstops & Hlocal).
  exists r, m, c, tour. split; [exact Hr|]. split; [exact Hbuild|].
  split; [exact Hstops|].
  apply Hlocal; [lia|]. unfold full_path.
  apply Permutation_length in Hperm.
  rewrite twin_bins_routed, length_seq in Hperm.
  change (length twin_bins) with 2 in Hperm.
  cbn [length]. rewrite length_app, length_map, Hperm. cbn. lia.
Defined.

(** ** The annotations of a returned result *)

Lemma assemble_cumulative (m : Matrix) (c : GeometryCache)
  (containers : list Container) (tour : list nat) (first_order prev_idx : nat)
  (cum : R) (route : list RouteStop) :
  assemble m c containers tour first_order prev_idx cum = Ok route ->
  forall k s, route !! k = Some s ->
    cumulative_distance s
    = (cum + sum_list (map distance_from_previous (take (S k) route)))%R /\
    order s = first_order + k.
Proof.
  revert first_order prev_idx cum route.
  induction tour as [|idx tour IH]; intros first_order prev_idx cum route H k s Hs.
  - cbn in H. injection H as <-. discriminate Hs.
  - cbn [assemble] in H.
    apply bind_Ok in H as (ct & _ & H).
    apply bind_Ok in H as (rest & Hrest & [= <-]).
    destruct k as [|k].
    + cbn in Hs. injection Hs as <-.
      cbn [take map sum_list distance_from_previous cumulative_distance order].
      rewrite take_0. cbn [map sum_list]. split; [lra | lia].
    + change (rest !! k = Some s) in Hs.
      destruct (IH _ _ _ _ Hrest k s Hs) as [Hcum Hord].
      rewrite Hcum, Hord. split; [|lia].
      change (take (S (S k)) (?x :: rest)) with (x :: take (S k) rest).
      cbn [map sum_list distance_from_previous]. lra.
Qed.

Lemma optimize_route_echo (osrm : Point -> Point -> HttpOutcome) (fuel : nat)
  (name : string) (containers : list Container) (vehicle_capacity : Z)
  (depot : option Point) (g : Rng) (r : RouteResult) :
  optimize_route osrm fuel name containers vehicle_capacity depot g = Ok r ->
  neighborhood r = name /\
  exists first, containers !! 0 = Some first /\
                route_vehicle_type r = vehicle_type first.
Proof.
  unfold optimize_route. destruct containers as [|c0 cs] eqn:Hcs; [discriminate|].
  rewrite <- Hcs. intros H.
  apply bind_Ok in H as (trips & _ & H).
  apply bind_Ok in H as (route & _ & H).
  apply bind_Ok in H as (total & _ & [= <-]). cbn.
  split; [reflexivity|]. exists c0. rewrite Hcs. auto.
Qed.

(** In a returned result the stop of rank k carries order k and, as its
    cumulative distance, the sum of the leg distances of the first k
    stops; the routed count is the number of stops; the neighbourhood is
    echoed and the vehicle type is that of the first input container. *)
Theorem route_annotations (osrm : Point -> Point -> HttpOutcome)
  (g : Rng) (name : string) (depot : option Point)
  (containers : list Container) (vehicle_capacity : Z) (r : RouteResult) :
  slice_to containers vehicle_capacity <> [] ->
  returns osrm g name containers vehicle_capacity depot r ->
  (forall k s, stops r !! k = Some s ->
     order s = S k /\
     cumulative_distance s
     = sum_list (map distance_from_previous (take (S k) (stops r)))) /\
  total_containers r = length (stops r) /\
  neighborhood r = name /\
  exists first, containers !! 0 = Some first /\
                route_vehicle_type r = vehicle_type first.
Proof.
  intros Hne Hr.
  destruct (returned_route osrm g name depot containers
              vehicle_capacity r Hne Hr) as (m & c & tour & _ & Hperm & Hroute).
  destruct Hr as [fuel Hrun].
  pose proof (optimize_route_echo _ _ _ _ _ _ _ _ Hrun) as [Hnb Hvt].
  apply optimize_route_inv in Hrun as (_ & _ & _ & _ & Hcount & _).
  split; [|split; [|split; [exact Hnb | exact Hvt]]].
  - intros k s Hs.
    destruct (assemble_cumulative _ _ _ _ _ _ _ _ Hroute k s Hs) as [Hcum Hord].
    split; [exact Hord | rewrite Hcum; lra].
  - rewrite Hcount. apply assemble_inv in Hroute as (_ & _ & Hstops & _).
    apply Forall2_length in Hstops. apply Permutation_length in Hperm.
    rewrite length_seq in Hperm. lia.
Qed.

Lemma route_annotations_witness :
  exists r,
    returns osrm_no_route rng_zero "Center" twin_bins 40 None r /\
    total_containers r = length (stops r) /\
    neighborhood r = "Center"%string.
Proof.
  assert (H1 : slice_to twin_bins 40 <> []) by (rewrite twin_bins_routed; discriminate).
  assert (Hne : twin_bins <> []) by discriminate.
  assert (Hcap : 40%Z <> 0%Z) by discriminate.
  destruct (optimize_route_returns osrm_no_route "Center" None rng_zero
              twin_bins 40 Hne Hcap (no_route_symmetric _ _)) as [r Hr].
  exists r. split; [exact Hr|].
  destruct (route_annotations osrm_no_route rng_zero "Center" None twin_bins 40 r
              H1 Hr) as (_ & Hcount & Hnb & _).
  split; [exact Hcount | exact Hnb].
Defined.

(** ** What the entry point raises *)

(** The entry point raises exactly two exceptions: the input error on an
    empty list, and a division by zero on a non-empty list with capacity
    0; no other exception leaves it. *)
Theorem optimize_route_raises (osrm : Point -> Point -> HttpOutcome)
  (fuel : nat) (neighborhood : string) (containers : list Container)
  (vehicle_capacity : Z) (depot : option Point) (g : Rng) (e : exn) :
  optimize_route osrm fuel neighborhood containers vehicle_capacity depot g
    = Raise e <->
  (containers = [] /\ e = ValueError "No containers provided") \/
  (containers <> [] /\ vehicle_capacity = 0%Z /\ e = ZeroDivisionError).
Proof.
  split.
  - intros H. destruct containers as [|c0 cs] eqn:Hcs.
    + left. cbn in H. injection H as <-. auto.
    + right. rewrite <- Hcs in *.
      assert (Hne : containers <> []) by (rewrite Hcs; discriminate).
      destruct (decide (vehicle_capacity = 0%Z)) as [->|Hcap].
      * rewrite optimize_route_zero_capacity in H by exact Hne.
        injection H as <-. auto.
      * destruct (optimize_route_safe osrm neighborhood depot g fuel containers
                    vehicle_capacity Hne Hcap) as [(r & Hr)|[Hr _]];
          rewrite Hr in H; discriminate.
  - intros [[-> ->]|(Hne & -> & ->)]; [reflexivity|].
    apply optimize_route_zero_capacity, Hne.
Qed.

(** ** A negative capacity *)

(** A negative capacity -k with k below the stop count is not rejected:
    the call returns (given symmetric distances), the last k containers
    are left out, multiple trips are flagged and the trip count is not
    positive. *)
Theorem negative_capacity_drops_tail (osrm : Point -> Point -> HttpOutcome)
  (g : Rng) (neighborhood : string) (depot : option Point)
  (containers : list Container) (vehicle_capacity : Z) :
  (vehicle_capacity < 0)%Z ->
  (- vehicle_capacity < Z.of_nat (length containers))%Z ->
  let kept := (length containers - Z.to_nat (- vehicle_capacity))%nat in
  (symmetric_distances osrm (default DEPOT_LOCATION depot)
     (slice_to containers vehicle_capacity) ->
   exists r, returns osrm g neighborhood containers vehicle_capacity depot r) /\
  forall r,
    returns osrm g neighborhood containers vehicle_capacity depot r ->
    Permutation (map stop_key (stops r))
      (map container_key (take kept containers)) /\
    total_containers r = kept /\
    requires_multiple_trips r = true /\
    (trip_count r <= 0)%Z.
Proof.
  intros Hneg Hlen kept.
  assert (Hslice : slice_to containers vehicle_capacity = take kept containers).
  { unfold slice_to. rewrite decide_False by lia. f_equal. subst kept. lia. }
  assert (Hkept : length (take kept containers) = kept)
    by (rewrite length_take; subst kept; lia).
  assert (Hne : slice_to containers vehicle_capacity <> []).
  { rewrite Hslice. intros Hnil. rewrite Hnil in Hkept. cbn in Hkept.
    subst kept. lia. }
  destruct (slice_to_nonempty _ _ Hne) as [Hcs Hcap]. split.
  - apply optimize_route_returns; assumption.
  - intros r Hr.
    destruct (returned_route osrm g neighborhood depot containers
                vehicle_capacity r Hne Hr) as (m & c & tour & _ & Hperm & Hroute).
    apply assemble_inv in Hroute as (_ & _ & Hstops & _).
    destruct Hr as [fuel Hrun].
    apply optimize_route_inv in Hrun as (_ & _ & Hflag & Htrips & Hcount & _).
    rewrite Hslice in *. repeat split.
    + eapply stops_permutation; eassumption.
    + rewrite Hcount. exact Hkept.
    + rewrite Hflag. apply bool_decide_eq_true. lia.
    + rewrite Htrips.
      set (n := Z.of_nat (length containers)) in *.
      pose proof (Z.div_mod (n + vehicle_capacity - 1) vehicle_capacity Hcap).
      pose proof (Z.mod_neg_bound (n + vehicle_capacity - 1) vehicle_capacity Hneg).
      nia.
Qed.

Lemma negative_capacity_drops_tail_witness :
  exists r,
    returns osrm_no_route rng_zero "Center" twin_bins (-1) None r /\
    total_containers r = 1 /\
    requires_multiple_trips r = true /\
    (trip_count r <= 0)%Z.
Proof.
  assert (H1 : (-1 < 0)%Z) by lia.
  assert (H2 : (- -1 < Z.of_nat (length twin_bins))%Z) by (cbn; lia).
  destruct (negative_capacity_drops_tail osrm_no_route rng_zero "Center" None
              twin_bins (-1) H1 H2) as [Hret Hall].
  destruct (Hret (no_route_symmetric _ _)) as [r Hr].
  exists r. split; [exact Hr|].
  destruct (Hall r Hr) as (_ & Hcount & Hflag & Htrips).
  split; [exact Hcount|]. split; [exact Hflag | exact Htrips].
Defined.

(** ** The nearest-neighbour route *)

Lemma for_each_prefix_inv {A S : Type} (P : list A -> S -> Prop)
  (body : A -> S -> result S) (xs : list A) (s : S) :
  P [] s ->
  (forall seen x t, P seen t -> exists t', body x t = Ok t' /\ P (seen ++ [x]) t') ->
  exists s', for_each xs body s = Ok s' /\ P xs s'.
Proof.
  intros Hs Hstep.
  assert (Hgen : forall seen t, P seen t ->
            exists s', for_each xs body t = Ok s' /\ P (seen ++ xs) s').
  { induction xs as [|x xs IH]; intros seen t Ht.
    - exists t. rewrite app_nil_r. auto.
    - destruct (Hstep seen x t Ht) as (t' & Hbody & Ht').
      destruct (IH _ _ Ht') as (s' & Hrun & Hs').
      exists s'. cbn [for_each]. rewrite Hbody. cbn.
      rewrite <- app_assoc in Hs'. auto. }
  exact (Hgen [] s Hs).
Qed.

Lemma list_remove_container_In (x : Container) (l : list Container) :
  In x l ->
  exists l', list_remove_container x l = Ok l' /\ Permutation l (x :: l').
Proof.
  induction l as [|y l IH]; [contradiction|]. intros Hin. cbn.
  destruct (decide (y = x)) as [->|Hne].
  - exists l. auto.
  - destruct Hin as [Heq|Hin]; [congruence|].
    destruct (IH Hin) as (l' & -> & Hperm). exists (y :: l'). cbn.
    split; [reflexivity|]. rewrite Hperm. apply perm_swap.
Qed.

Section NearestNeighborProperties.

Variable osrm : Point -> Point -> HttpOutcome.

Lemma nearest_scan_spec (p : Point) (unvisited : list Container) :
  exists best,
    nearest_scan osrm p unvisited = Ok best /\
    nearest_so_far osrm p unvisited best.
Proof.
  unfold nearest_scan.
  apply for_each_prefix_inv with (P := nearest_so_far osrm p).
  - intros c [].
  - intros seen x best Hbest.
    destruct (get_distance_total osrm p (container_point x)) as ([d geo] & Hget).
    rewrite Hget. cbn [mbind result_mbind result_bind].
    destruct d as [d|].
    + destruct best as [[[c m] geo0]|].
      * destruct Hbest as (Hin & Hc & Hmin).
        destruct (Rlt_dec d m) as [Hlt|Hge]; eexists; (split; [reflexivity|]).
        -- split; [apply in_app_iff; right; left; reflexivity|].
           split; [exact Hget|].
           intros c' d' geo' Hc' Hd'. apply in_app_iff in Hc' as [Hc'|[<-|[]]].
           ++ pose proof (Hmin _ _ _ Hc' Hd'). lra.
           ++ rewrite Hget in Hd'. injection Hd' as <- _. lra.
        -- split; [apply in_app_iff; left; exact Hin|].
           split; [exact Hc|].
           intros c' d' geo' Hc' Hd'. apply in_app_iff in Hc' as [Hc'|[<-|[]]].
           ++ exact (Hmin _ _ _ Hc' Hd').
           ++ rewrite Hget in Hd'. injection Hd' as <- _. lra.
      * eexists. split; [reflexivity|].
        split; [apply in_app_iff; right; left; reflexivity|].
        split; [exact Hget|].
        intros c' d' geo' Hc' Hd'. apply in_app_iff in Hc' as [Hc'|[<-|[]]].
        -- destruct (Hbest _ Hc') as (geo1 & Hnone). congruence.
        -- rewrite Hget in Hd'. injection Hd' as <- _. lra.
    + exists best. split; [destruct best as [[[? ?] ?]|]; reflexivity|].
      destruct best as [[[c m] geo0]|].
      * destruct Hbest as (Hin & Hc & Hmin).
        split; [apply in_app_iff; left; exact Hin|].
        split; [exact Hc|].
        intros c' d' geo' Hc' Hd'. apply in_app_iff in Hc' as [Hc'|[<-|[]]].
        -- exact (Hmin _ _ _ Hc' Hd').
        -- congruence.
      * intros c' Hc'. apply in_app_iff in Hc' as [Hc'|[<-|[]]].
        -- exact (Hbest _ Hc').
        -- exists geo. exact Hget.
Qed.

Lemma nearest_neighbor_loop_spec (rounds : nat) :
  forall (p : Point) (unvisited : list Container) (route : list RouteStop)
         (cum : R) (first_order : nat),
    length unvisited <= rounds ->
    exists new left,
      nearest_neighbor_loop osrm rounds p unvisited route cum first_order
        = Ok (route ++ new) /\
      nearest_first osrm p unvisited new left /\
      map order new = seq first_order (length new) /\
      forall k s, new !! k = Some s ->
        cumulative_distance s
        = (cum + sum_list (map distance_from_previous (take (S k) new)))%R.
Proof.
  assert (Hdone : forall p route cum first_order rounds',
            exists new left,
              nearest_neighbor_loop osrm rounds' p [] route cum first_order
                = Ok (route ++ new) /\
              nearest_first osrm p [] new left /\
              map order new = seq first_order (length new) /\
              forall k s, new !! k = Some s ->
                cumulative_distance s
                = (cum + sum_list (map distance_from_previous (take (S k) new)))%R).
  { intros p route cum first_order rounds'. exists [], [].
    split; [destruct rounds'; cbn; rewrite app_nil_r; reflexivity|].
    split; [constructor; intros c []|].
    split; [reflexivity|]. intros k s Hs. discriminate Hs. }
  induction rounds as [|rounds IH]; intros p unvisited route cum first_order Hlen.
  - destruct unvisited; [apply Hdone | cbn in Hlen; lia].
  - destruct unvisited as [|u us]; [apply Hdone|].
    cbn [nearest_neighbor_loop].
    remember (u :: us) as unvisited eqn:Hunv.
    destruct (nearest_scan_spec p unvisited) as (best & Hscan & Hbest).
    rewrite Hscan. cbn [mbind result_mbind result_bind].
    destruct best as [[[c d] geo]|].
    + destruct Hbest as (Hin & Hc & Hmin).
      destruct (list_remove_container_In c unvisited Hin) as (unv' & Hrem & Hperm).
      rewrite Hrem. cbn [mbind result_mbind result_bind].
      assert (Hlen' : length unv' <= rounds).
      { apply Permutation_length in Hperm. cbn [length] in Hperm. lia. }
      destruct (IH (container_point c) unv'
                  (route ++ [{| stop_container_id := container_id c;
                                stop_latitude := latitude c;
                                stop_longitude := longitude c;
                                distance_from_previous := d;
                                cumulative_distance := (cum + d)%R;
                                order := first_order;
                                geometry_to_here := geo |}])
                  (cum + d)%R (S first_order) Hlen')
        as (new & left & Hrun & Hnf & Hord & Hcum).
      eexists (_ :: new), left. rewrite Hrun, <- app_assoc.
      split; [reflexivity|]. split; [|split].
      * eapply nearest_step; [exact Hperm | reflexivity | exact Hc | | exact Hnf].
        exact Hmin.
      * cbn [map length seq order]. rewrite Hord. reflexivity.
      * intros k s Hs. destruct k as [|k].
        -- injection Hs as <-.
           change (take 1 (?x :: new)) with (x :: take 0 new).
           rewrite take_0. cbn [map sum_list distance_from_previous cumulative_distance].
           lra.
        -- change (new !! k = Some s) in Hs. rewrite (Hcum k s Hs).
           change (take (S (S k)) (?x :: new)) with (x :: take (S k) new).
           cbn [map sum_list distance_from_previous]. lra.
    + exists [], unvisited. rewrite app_nil_r. split; [reflexivity|].
      split; [constructor; exact Hbest|].
      split; [reflexivity|]. intros k s Hs. discriminate Hs.
Qed.

Lemma create_nearest_neighbor_route_spec (start_point : Point)
  (containers : list Container) :
  exists route left,
    _create_nearest_neighbor_route osrm start_point containers = Ok route /\
    nearest_first osrm start_point containers route left /\
    map order route = seq 1 (length route) /\
    forall k s, route !! k = Some s ->
      cumulative_distance s
      = sum_list (map distance_from_previous (take (S k) route)).
Proof.
  destruct (nearest_neighbor_loop_spec (length containers) start_point
              containers [] 0%R 1 (le_n _))
    as (new & left & Hrun & Hnf & Hord & Hcum).
  exists new, left. split; [exact Hrun|]. split; [exact Hnf|].
  split; [exact Hord|]. intros k s Hs. rewrite (Hcum k s Hs). lra.
Qed.

Lemma nearest_first_visited (p : Point) (remaining : list Container)
  (route : list RouteStop) (left : list Container) :
  nearest_first osrm p remaining route left ->
  exists visited,
    Permutation remaining (visited ++ left) /\
    map stop_key route = map container_key visited.
Proof.
  induction 1 as [p remaining _|p remaining rest left c s route Hperm Hkey _ _ _ IH].
  - exists []. auto.
  - destruct IH as (visited & Hrest & Hkeys). exists (c :: visited).
    split; [rewrite Hperm, Hrest; reflexivity|].
    cbn [map]. rewrite Hkey, Hkeys. reflexivity.
Qed.

Lemma nearest_first_left (p : Point) (remaining : list Container)
  (route : list RouteStop) (left : list Container) :
  nearest_first osrm p remaining route left ->
  forall c, In c left -> unreachable osrm (departure p route (length route)) c.
Proof.
  induction 1 as [p remaining Hnone|p remaining rest left c s route _ Hkey _ _ _ IH].
  - exact Hnone.
  - intros c' Hc'. specialize (IH c' Hc').
    cbn [length departure]. destruct route as [|s' route].
    + cbn in IH |- *. unfold stop_point.
      injection Hkey as _ -> ->. exact IH.
    + cbn [length departure] in IH. cbn [length].
      change ((s :: s' :: route) !! S (length route))
        with ((s' :: route) !! length route).
      destruct ((s' :: route) !! length route) eqn:Hlast; [exact IH|].
      apply lookup_ge_None in Hlast. cbn [length] in Hlast. lia.
Qed.

Lemma nearest_first_member (p : Point) (remaining : list Container)
  (route : list RouteStop) (left : list Container) :
  nearest_first osrm p remaining route left ->
  forall s, In s route ->
    exists c, In c remaining /\ stop_point s = container_point c.
Proof.
  induction 1 as [p remaining _|p remaining rest left c s route Hperm Hkey _ _ _ IH].
  - intros s [].
  - intros s' [<-|Hs'].
    + exists c. split; [apply (Permutation_in _ (Permutation_sym Hperm)); left; reflexivity|].
      unfold stop_point, container_point. injection Hkey as _ -> ->. reflexivity.
    + destruct (IH s' Hs') as (c' & Hc' & Hpt). exists c'. split; [|exact Hpt].
      apply (Permutation_in _ (Permutation_sym Hperm)). right. exact Hc'.
Qed.

Lemma nearest_first_greedy (p : Point) (remaining : list Container)
  (route : list RouteStop) (left : list Container) :
  nearest_first osrm p remaining route left ->
  forall k s, route !! k = Some s ->
    get_distance osrm (departure p route k) (stop_point s)
      = Ok (Some (distance_from_previous s), geometry_to_here s) /\
    forall k' s' d' geometry',
      k <= k' -> route !! k' = Some s' ->
      get_distance osrm (departure p route k) (stop_point s')
        = Ok (Some d', geometry') ->
      (distance_from_previous s <= d')%R.
Proof.
  induction 1 as [p remaining _|p remaining rest left c s route Hperm Hkey Hget Hmin Hnf IH].
  - intros k s Hs. discriminate Hs.
  - assert (Hpt : stop_point s = container_point c).
    { unfold stop_point, container_point. injection Hkey as _ -> ->. reflexivity. }
    intros k s0 Hs0. destruct k as [|k].
    + injection Hs0 as <-. cbn [departure]. rewrite Hpt. split; [exact Hget|].
      intros k' s' d' geo' _ Hs' Hd'.
      assert (Hin : In s' (s :: route))
        by (apply list_elem_of_In; eapply list_elem_of_lookup_2; exact Hs').
      destruct (nearest_first_member _ _ _ _
                  (nearest_step osrm p remaining rest left c s route
                     Hperm Hkey Hget Hmin Hnf) s' Hin) as (c' & Hc' & Hpt').
      rewrite Hpt' in Hd'. exact (Hmin _ _ _ Hc' Hd').
    + change (route !! k = Some s0) in Hs0.
      destruct (IH k s0 Hs0) as [Hleg Hnext].
      assert (Hdep : departure p (s :: route) (S k)
                     = departure (container_point c) route k).
      { destruct k as [|k]; cbn [departure]; [exact Hpt|].
        change ((s :: route) !! S k) with (route !! k).
        destruct (route !! k) eqn:Hk; [reflexivity|].
        apply lookup_lt_Some in Hs0. apply lookup_ge_None in Hk. lia. }
      rewrite Hdep. split; [exact Hleg|].
      intros k' s' d' geo' Hk' Hs' Hd'. destruct k' as [|k']; [lia|].
      change (route !! k' = Some s') in Hs'.
      apply (Hnext k' s' d' geo'); [lia | exact Hs' | exact Hd'].
Qed.

End NearestNeighborProperties.

(** The nearest-neighbour constructor raises nothing and finishes within
    its rounds, whatever the provider answers: its removal always finds
    the chosen container.  The stops it returns are no more than the
    containers, carry the orders 1, 2, ... and, as cumulative distance,
    the running sum of the leg distances. *)
Theorem nearest_neighbor_route_returns (osrm : Point -> Point -> HttpOutcome)
  (start_point : Point) (containers : list Container) :
  exists route,
    _create_nearest_neighbor_route osrm start_point containers = Ok route /\
    length route <= length containers /\
    map order route = seq 1 (length route) /\
    forall k s, route !! k = Some s ->
      cumulative_distance s
      = sum_list (map distance_from_previous (take (S k) route)).
Proof.
  destruct (create_nearest_neighbor_route_spec osrm start_point containers)
    as (route & left & Hrun & Hnf & Hord & Hcum).
  exists route. split; [exact Hrun|]. split; [|split; assumption].
  destruct (nearest_first_visited osrm _ _ _ _ Hnf) as (visited & Hperm & Hkeys).
  apply Permutation_length in Hperm. rewrite length_app in Hperm.
  apply (f_equal length) in Hkeys. rewrite !length_map in Hkeys. lia.
Qed.

(** The stops of a nearest-neighbour route are distinct containers of the
    input, in visiting order; the containers it leaves out are exactly
    those left when the provider reported no distance from the last
    location reached to any of them. *)
Theorem nearest_neighbor_visits_distinct_containers
  (osrm : Point -> Point -> HttpOutcome) (start_point : Point)
  (containers : list Container) (route : list RouteStop) :
  _create_nearest_neighbor_route osrm start_point containers = Ok route ->
  exists visited left,
    Permutation containers (visited ++ left) /\
    map stop_key route = map container_key visited /\
    forall c, In c left ->
      unreachable osrm (departure start_point route (length route)) c.
Proof.
  intros Hrun.
  destruct (create_nearest_neighbor_route_spec osrm start_point containers)
    as (route' & left & Hrun' & Hnf & _).
  rewrite Hrun in Hrun'. injection Hrun' as <-.
  destruct (nearest_first_visited osrm _ _ _ _ Hnf) as (visited & Hperm & Hkeys).
  exists visited, left. split; [exact Hperm|]. split; [exact Hkeys|].
  exact (nearest_first_left osrm _ _ _ _ Hnf).
Qed.

Lemma nearest_neighbor_visits_distinct_containers_witness :
  exists route visited left,
    _create_nearest_neighbor_route osrm_unreachable DEPOT_LOCATION twin_bins
      = Ok route /\
    Permutation twin_bins (visited ++ left) /\
    map stop_key route = map container_key visited.
Proof.
  destruct (create_nearest_neighbor_route_spec osrm_unreachable DEPOT_LOCATION
              twin_bins) as (route & left0 & Hrun & _).
  destruct (nearest_neighbor_visits_distinct_containers osrm_unreachable
              DEPOT_LOCATION twin_bins route Hrun)
    as (visited & left & Hperm & Hkeys & _).
  exists route, visited, left. auto.
Defined.

(** When the provider never answers "no route", the nearest-neighbour
    route visits every container exactly once. *)
Theorem nearest_neighbor_complete (osrm : Point -> Point -> HttpOutcome)
  (start_point : Point) (containers : list Container) (route : list RouteStop) :
  (forall p q, no_route (osrm p q) = false) ->
  _create_nearest_neighbor_route osrm start_point containers = Ok route ->
  Permutation (map stop_key route) (map container_key containers).
Proof.
  intros Hreach Hrun.
  destruct (create_nearest_neighbor_route_spec osrm start_point containers)
    as (route' & left & Hrun' & Hnf & _).
  rewrite Hrun in Hrun'. injection Hrun' as <-.
  destruct (nearest_first_visited osrm _ _ _ _ Hnf) as (visited & Hperm & Hkeys).
  pose proof (nearest_first_left osrm _ _ _ _ Hnf) as Hleft.
  destruct left as [|c left].
  - rewrite app_nil_r in Hperm. rewrite Hkeys, Hperm. reflexivity.
  - destruct (Hleft c (or_introl eq_refl)) as (geo & Hnone).
    pose proof (get_distance_by_no_route osrm
                  (departure start_point route (length route))
                  (container_point c)) as Hsome.
    rewrite Hreach in Hsome. destruct Hsome as (d & geo' & Hsome). congruence.
Qed.

Lemma nearest_neighbor_complete_witness :
  exists route,
    _create_nearest_neighbor_route osrm_unreachable DEPOT_LOCATION twin_bins
      = Ok route /\
    Permutation (map stop_key route) (map container_key twin_bins).
Proof.
  destruct (create_nearest_neighbor_route_spec osrm_unreachable DEPOT_LOCATION
              twin_bins) as (route & left0 & Hrun & _).
  exists route. split; [exact Hrun|].
  apply (nearest_neighbor_complete osrm_unreachable DEPOT_LOCATION twin_bins route);
    [reflexivity | exact Hrun].
Defined.

(** Every leg of a nearest-neighbour route has the distance the provider
    reports from the previous location (the start point for the first
    leg) to the stop, and that distance is no larger than the reported
    distance from the same location to any stop visited later. *)
Theorem nearest_neighbor_is_greedy (osrm : Point -> Point -> HttpOutcome)
  (start_point : Point) (containers : list Container) (route : list RouteStop) :
  _create_nearest_neighbor_route osrm start_point containers = Ok route ->
  forall k s, route !! k = Some s ->
    get_distance osrm (departure start_point route k) (stop_point s)
      = Ok (Some (distance_from_previous s), geometry_to_here s) /\
    forall k' s' d' geometry',
      k <= k' -> route !! k' = Some s' ->
      get_distance osrm (departure start_point route k) (stop_point s')
        = Ok (Some d', geometry') ->
      (distance_from_previous s <= d')%R.
Proof.
  intros Hrun.
  destruct (create_nearest_neighbor_route_spec osrm start_point containers)
    as (route' & left & Hrun' & Hnf & _).
  rewrite Hrun in Hrun'. injection Hrun' as <-.
  exact (nearest_first_greedy osrm _ _ _ _ Hnf).
Qed.

Lemma nearest_neighbor_is_greedy_witness :
  exists route,
    _create_nearest_neighbor_route osrm_unreachable DEPOT_LOCATION twin_bins
      = Ok route /\
    forall k s, route !! k = Some s ->
      get_distance osrm_unreachable (departure DEPOT_LOCATION route k)
        (stop_point s)
      = Ok (Some (distance_from_previous s), geometry_to_here s).
Proof.
  destruct (create_nearest_neighbor_route_spec osrm_unreachable DEPOT_LOCATION
              twin_bins) as (route & left0 & Hrun & _).
  exists route. split; [exact Hrun|]. intros k s Hs.
  apply (nearest_neighbor_is_greedy osrm_unreachable DEPOT_LOCATION twin_bins
           route Hrun k s Hs).
Defined.

(** When the provider answers "no route" from the start point to every
    container, the nearest-neighbour constructor returns the empty route
    without raising, however many containers it was given. *)
Theorem nearest_neighbor_nothing_reachable
  (osrm : Point -> Point -> HttpOutcome) (start_point : Point)
  (containers : list Container) :
  (forall c, In c containers ->
     no_route (osrm start_point (container_point c)) = true) ->
  _create_nearest_neighbor_route osrm start_point containers = Ok [].
Proof.
  intros Hnone.
  destruct (create_nearest_neighbor_route_spec osrm start_point containers)
    as (route & left & Hrun & Hnf & _).
  rewrite Hrun. f_equal. inversion Hnf as [|? ? rest ? c s ? Hperm _ Hget _ _];
    [reflexivity|]. subst.
  assert (Hin : In c containers)
    by (apply (Permutation_in _ (Permutation_sym Hperm)); left; reflexivity).
  pose proof (get_distance_by_no_route osrm start_point (container_point c)) as H.
  rewrite (Hnone c Hin) in H. congruence.
Qed.

Lemma nearest_neighbor_nothing_reachable_witness :
  _create_nearest_neighbor_route osrm_no_route DEPOT_LOCATION twin_bins = Ok [].
Proof.
  apply nearest_neighbor_nothing_reachable. intros c _. reflexivity.
Defined.

(** ** The endpoint *)

Lemma unreachable_no_geometry (g : Rng) (neighborhood : string)
  (depot : option Point) (containers : list Container) (vehicle_capacity : Z)
  (r : RouteResult) :
  slice_to containers vehicle_capacity <> [] ->
  returns osrm_unreachable g neighborhood containers vehicle_capacity depot r ->
  Forall (fun s => geometry_to_here s = None) (stops r).
Proof.
  intros Hne Hr.
  destruct (returned_route osrm_unreachable g neighborhood depot containers
              vehicle_capacity r Hne Hr) as (m & c & tour & Hbuild & Hperm & Hroute).
  set (routed := slice_to containers vehicle_capacity) in *.
  pose proof (unreachable_matrix _ routed m c Hbuild) as [Hsq Hcells].
  assert (Hin : Forall (fun idx => idx + 1 < length routed + 1) tour).
  { rewrite Forall_forall. intros idx Hidx. apply list_elem_of_In in Hidx.
    apply (Permutation_in _ Hperm), in_seq in Hidx. lia. }
  pose proof (assemble_geometry m c routed (length routed + 1) tour 1 0 0%R
                (stops r) Hroute ltac:(lia) Hin) as Hgeo.
  eapply Forall_impl; [exact Hgeo|]. intros s (i & j & Hi & Hj & ->).
  apply (Hcells i j Hi Hj).
Qed.

Lemma returned_stop_count (osrm : Point -> Point -> HttpOutcome) (g : Rng)
  (neighborhood : string) (depot : option Point) (containers : list Container)
  (r : RouteResult) :
  containers <> [] ->
  returns osrm g neighborhood containers 40 depot r ->
  length (stops r) = Nat.min 40 (length containers).
Proof.
  intros Hne Hr.
  assert (Hslice : slice_to containers 40 = take 40 containers)
    by (apply slice_to_positive; lia).
  assert (Hrouted : slice_to containers 40 <> []).
  { rewrite Hslice. destruct containers; [congruence | discriminate]. }
  destruct (returned_route osrm g neighborhood depot containers 40 r Hrouted Hr)
    as (m & c & tour & _ & Hperm & Hroute).
  apply assemble_inv in Hroute as (_ & _ & Hstops & _).
  apply Forall2_length in Hstops. apply Permutation_length in Hperm.
  rewrite length_seq, Hslice, length_take in Hperm. lia.
Qed.

Lemma collect_segments_length (stops : list RouteStop)
  (route_coordinates : list (R * R)) :
  length route_coordinates + length stops
  <= length (collect_segments stops route_coordinates).
Proof.
  revert route_coordinates.
  induction stops as [|stop stops IH]; intros acc; cbn [collect_segments length].
  - lia.
  - destruct (geometry_to_here stop) as [[|p ps]|].
    + etransitivity; [|apply IH]. rewrite length_app.
      destruct acc; cbn [length]; lia.
    + etransitivity; [|apply IH]. rewrite length_app. cbn [length]. lia.
    + etransitivity; [|apply IH]. rewrite length_app.
      destruct acc; cbn [length]; lia.
Qed.

Lemma collect_segments_covers (stops : list RouteStop)
  (route_coordinates : list (R * R)) :
  (forall x, In x route_coordinates ->
     In x (collect_segments stops route_coordinates)) /\
  forall s, In s stops ->
    match geometry_to_here s with
    | Some (p :: ps) =>
        forall x, In x (p :: ps) -> In x (collect_segments stops route_coordinates)
    | _ => In (stop_coordinates s) (collect_segments stops route_coordinates)
    end.
Proof.
  revert route_coordinates.
  induction stops as [|stop stops IH]; intros acc; cbn [collect_segments].
  - split; [auto | intros s []].
  - destruct (geometry_to_here stop) as [[|p ps]|] eqn:Hgeo.
    + destruct (IH (match acc with [] => [depot_coordinates] | _ :: _ => acc end
                    ++ [stop_coordinates stop])) as [Hacc Hstops].
      split.
      * intros x Hx. apply Hacc, in_app_iff. left.
        destruct acc; [contradiction | exact Hx].
      * intros s [<-|Hs]; [|exact (Hstops s Hs)]. rewrite Hgeo.
        apply Hacc, in_app_iff. right. left. reflexivity.
    + destruct (IH (acc ++ p :: ps)) as [Hacc Hstops]. split.
      * intros x Hx. apply Hacc, in_app_iff. left. exact Hx.
      * intros s [<-|Hs]; [|exact (Hstops s Hs)]. rewrite Hgeo.
        intros x Hx. apply Hacc, in_app_iff. right. exact Hx.
    + destruct (IH (match acc with [] => [depot_coordinates] | _ :: _ => acc end
                    ++ [stop_coordinates stop])) as [Hacc Hstops].
      split.
      * intros x Hx. apply Hacc, in_app_iff. left.
        destruct acc; [contradiction | exact Hx].
      * intros s [<-|Hs]; [|exact (Hstops s Hs)]. rewrite Hgeo.
        apply Hacc, in_app_iff. right. left. reflexivity.
Qed.

Lemma collect_segments_straight (stops : list RouteStop)
  (route_coordinates : list (R * R)) :
  Forall (fun s => geometry_to_here s = None) stops ->
  route_coordinates <> [] ->
  collect_segments stops route_coordinates
  = route_coordinates ++ map stop_coordinates stops.
Proof.
  intros Hgeo. revert route_coordinates.
  induction Hgeo as [|stop stops Hstop _ IH]; intros acc Hacc;
    cbn [collect_segments map].
  - rewrite app_nil_r. reflexivity.
  - rewrite Hstop. destruct acc as [|a acc]; [congruence|].
    rewrite IH by discriminate. rewrite <- app_assoc. reflexivity.
Qed.

Lemma straight_line (stops : list RouteStop) (last_stop : RouteStop) :
  Forall (fun s => geometry_to_here s = None) stops ->
  last stops = Some last_stop ->
  close_line last_stop (collect_segments stops [])
  = depot_coordinates :: map stop_coordinates stops ++ [depot_coordinates].
Proof.
  intros Hgeo Hlast.
  assert (Hcollect : collect_segments stops []
                     = depot_coordinates :: map stop_coordinates stops).
  { destruct Hgeo as [|stop stops Hstop Hgeo]; [discriminate|].
    cbn [collect_segments]. rewrite Hstop.
    rewrite (collect_segments_straight _ _ Hgeo) by discriminate. reflexivity. }
  rewrite Hcollect. unfold close_line.
  assert (Hend : last (depot_coordinates :: map stop_coordinates stops)
                 = Some (stop_coordinates last_stop)).
  { destruct stops as [|stop stops]; [discriminate|].
    change (last (depot_coordinates :: map stop_coordinates (stop :: stops)))
      with (last (stop_coordinates <$> (stop :: stops))).
    rewrite fmap_last, Hlast. reflexivity. }
  rewrite Hend. rewrite decide_False by (intros Hne; apply Hne; reflexivity).
  reflexivity.
Qed.

Section EndpointProperties.

Variable osrm : Point -> Point -> HttpOutcome.
Variable fetch_neighborhood : string -> option NeighborhoodRow.
Variable fetch_containers : Z -> string -> list Container.
Variable round3 : R -> R.
Variable str_lower : string -> string.
Variable exn_str : exn -> string.

Local Abbreviation endpoint :=
  (optimize_route_endpoint osrm fetch_neighborhood fetch_containers round3
     str_lower exn_str).

Lemma endpoint_Respond_inv (fuel : nat) (request : RouteRequest) (g : Rng)
  (resp : RouteResponse) :
  endpoint fuel request g = Respond resp ->
  exists row r,
    fetch_neighborhood (request_neighborhood request) = Some row /\
    fetch_containers (neighborhood_id row) (row_vehicle_type row) <> [] /\
    optimize_route osrm fuel (request_neighborhood request)
      (fetch_containers (neighborhood_id row) (row_vehicle_type row)) 40 None g
    = Ok r /\
    resp = {| response_neighborhood := request_neighborhood request;
              response_week_start_date := week_start_date request;
              response_vehicle_type := row_vehicle_type row;
              vehicle_id :=
                (str_lower (replace_spaces (row_vehicle_type row)) ++ "_001")%string;
              schedule :=
                [ {| day := "Monday";
                     schedule_containers := length (stops r);
                     distance_km := total_distance_km r |} ];
              geojson := route_features round3 r |}.
Proof.
  unfold optimize_route_endpoint.
  destruct (fetch_neighborhood (request_neighborhood request)) as [row|];
    [|discriminate].
  fold (row_vehicle_type row).
  destruct (fetch_containers (neighborhood_id row) (row_vehicle_type row))
    as [|c0 cs] eqn:Hcs; [discriminate|].
  destruct (optimize_route osrm fuel (request_neighborhood request) (c0 :: cs)
              40 None g) as [r|e|] eqn:Hrun; try discriminate.
  intros [= <-]. exists row, r. rewrite Hcs. repeat split; try assumption.
  discriminate.
Qed.

Lemma endpoint_Respond (fuel : nat) (request : RouteRequest) (g : Rng)
  (row : NeighborhoodRow) (r : RouteResult) :
  fetch_neighborhood (request_neighborhood request) = Some row ->
  optimize_route osrm fuel (request_neighborhood request)
    (fetch_containers (neighborhood_id row) (row_vehicle_type row)) 40 None g
  = Ok r ->
  exists resp, endpoint fuel request g = Respond resp.
Proof.
  intros Hrow Hrun. unfold optimize_route_endpoint. rewrite Hrow.
  fold (row_vehicle_type row).
  destruct (fetch_containers (neighborhood_id row) (row_vehicle_type row))
    as [|c0 cs] eqn:Hcs; [discriminate Hrun|].
  rewrite Hrun. eexists. reflexivity.
Qed.

(** With a provider whose requests fail or are answered with a code and
    routes, the endpoint's error answers all carry status 404, and arise
    exactly when the neighbourhood is unknown or has no container of its
    vehicle type.  The handler of the optimizer's exceptions (status 500)
    is not reached: the optimizer is only called with a non-empty list
    and capacity 40. *)
Theorem endpoint_errors (fuel : nat) (request : RouteRequest) (g : Rng) :
  (forall status_code detail,
     endpoint fuel request g = HTTPException status_code detail ->
     status_code = 404) /\
  ((exists status_code detail,
      endpoint fuel request g = HTTPException status_code detail) <->
   fetch_neighborhood (request_neighborhood request) = None \/
   exists row,
     fetch_neighborhood (request_neighborhood request) = Some row /\
     fetch_containers (neighborhood_id row) (row_vehicle_type row) = []).
Proof.
  unfold optimize_route_endpoint.
  destruct (fetch_neighborhood (request_neighborhood request)) as [row|].
  - fold (row_vehicle_type row).
    destruct (fetch_containers (neighborhood_id row) (row_vehicle_type row))
      as [|c0 cs] eqn:Hcs.
    + split; [intros ? ? [= <- _]; reflexivity|]. split.
      * intros _. right. exists row. rewrite Hcs. auto.
      * intros _. eauto.
    + destruct (optimize_route_safe osrm (request_neighborhood request) None g
                  fuel (c0 :: cs) 40 ltac:(discriminate) ltac:(discriminate))
        as [(r & ->)|[-> _]].
      * split; [discriminate|]. split.
        -- intros (? & ? & H). discriminate H.
        -- intros [H|(row' & [= <-] & H)]; [discriminate H|].
           rewrite Hcs in H. discriminate H.
      * split; [discriminate|]. split.
        -- intros (? & ? & H). discriminate H.
        -- intros [H|(row' & [= <-] & H)]; [discriminate H|].
           rewrite Hcs in H. discriminate H.
  - split; [intros ? ? [= <- _]; reflexivity|]. split; eauto.
Qed.

(** A response echoes the request's neighbourhood and week, names a
    non-empty vehicle type (the row's, or the default), and its schedule
    is one Monday entry counting min(40, number of containers) stops; its
    GeoJSON has two features more than that: the depot first, then one
    point per stop in visiting order, then the route line. *)
Theorem endpoint_response (fuel : nat) (request : RouteRequest) (g : Rng)
  (resp : RouteResponse) :
  endpoint fuel request g = Respond resp ->
  exists row r,
    fetch_neighborhood (request_neighborhood request) = Some row /\
    optimize_route osrm fuel (request_neighborhood request)
      (fetch_containers (neighborhood_id row) (row_vehicle_type row)) 40 None g
    = Ok r /\
    let n := Nat.min 40
               (length (fetch_containers (neighborhood_id row)
                          (row_vehicle_type row))) in
    0 < n /\ length (stops r) = n /\
    response_neighborhood resp = request_neighborhood request /\
    response_week_start_date resp = week_start_date request /\
    response_vehicle_type resp = row_vehicle_type row /\
    response_vehicle_type resp <> EmptyString /\
    schedule resp = [ {| day := "Monday"; schedule_containers := n;
                         distance_km := total_distance_km r |} ] /\
    length (geojson resp) = n + 2 /\
    geojson resp !! 0
      = Some {| geometry := GeoPoint depot_coordinates;
                properties := DepotProperties |} /\
    (forall k s, stops r !! k = Some s ->
       geojson resp !! S k
       = Some {| geometry := GeoPoint (stop_coordinates s);
                 properties :=
                   ContainerProperties (stop_container_id s) (order s)
                     (round3 (distance_from_previous s))
                     (round3 (cumulative_distance s)) |}) /\
    exists line,
      geojson resp !! S n
      = Some {| geometry := GeoLineString line;
                properties :=
                  RouteProperties (round3 (total_distance_km r))
                    (total_containers r) |}.
Proof.
  intros H. apply endpoint_Respond_inv in H as (row & r & Hrow & Hne & Hrun & ->).
  exists row, r. split; [exact Hrow|]. split; [exact Hrun|].
  set (containers := fetch_containers (neighborhood_id row) (row_vehicle_type row))
    in *.
  assert (Hlen : length (stops r) = Nat.min 40 (length containers)).
  { apply (returned_stop_count osrm g (request_neighborhood request) None);
      [exact Hne | exists fuel; exact Hrun]. }
  assert (Hpos : 0 < Nat.min 40 (length containers)).
  { destruct containers; [congruence | cbn [length]; lia]. }
  cbn zeta. cbn [response_neighborhood response_week_start_date
                 response_vehicle_type schedule geojson].
  split; [exact Hpos|]. split; [exact Hlen|].
  do 3 (split; [reflexivity|]).
  split.
  { unfold row_vehicle_type. destruct (garbage_truck_type row) as [[|? ?]|];
      discriminate. }
  split; [rewrite Hlen; reflexivity|].
  unfold route_features.
  destruct (last (stops r)) as [last_stop|] eqn:Hlast.
  2:{ apply last_None in Hlast. rewrite Hlast in Hlen. cbn [length] in Hlen. lia. }
  split.
  { cbn [length]. rewrite length_app, length_map, Hlen. cbn [length]. lia. }
  split; [reflexivity|]. split.
  - intros k s Hs.
    change ((?x :: ?l) !! S k) with (l !! k).
    rewrite lookup_app_l by (rewrite length_map; eapply lookup_lt_Some; exact Hs).
    change (map ?f ?l) with (f <$> l). rewrite list_lookup_fmap, Hs. reflexivity.
  - eexists.
    change ((?x :: ?l) !! S ?k) with (l !! k).
    rewrite lookup_app_r by (rewrite length_map; lia).
    rewrite length_map, Hlen, Nat.sub_diag. reflexivity.
Qed.

End EndpointProperties.

Lemma endpoint_response_witness :
  exists fuel resp,
    optimize_route_endpoint osrm_unreachable any_district twin_bins_of
      (fun x => x) (fun s => s) (fun _ => EmptyString) fuel center_request
      rng_zero = Respond resp /\
    length (geojson resp) = 4.
Proof.
  assert (Hne : twin_bins <> []) by discriminate.
  assert (Hcap : 40%Z <> 0%Z) by discriminate.
  destruct (optimize_route_returns osrm_unreachable "Center" None rng_zero
              twin_bins 40 Hne Hcap (unreachable_symmetric _ _)) as (r & fuel & Hr).
  destruct (endpoint_Respond osrm_unreachable any_district twin_bins_of
              (fun x => x) (fun s => s) (fun _ => EmptyString) fuel
              center_request rng_zero _ r eq_refl Hr) as (resp & Hresp).
  exists fuel, resp. split; [exact Hresp|].
  destruct (endpoint_response osrm_unreachable any_district twin_bins_of
              (fun x => x) (fun s => s) (fun _ => EmptyString) fuel
              center_request rng_zero resp Hresp)
    as (row & r' & _ & _ & _ & _ & _ & _ & _ & _ & _ & Hcount & _).
  exact Hcount.
Defined.

(** The route line of a result with stops ends at the depot, has at
    least one position more than there are stops, passes through the
    position of every stop that comes without geometry and through every
    position of every geometry; a result without stops gets no route
    line. *)
Theorem route_line_covers_stops (round3 : R -> R) (r : RouteResult) :
  (stops r = [] ->
   route_features round3 r
   = [ {| geometry := GeoPoint depot_coordinates;
          properties := DepotProperties |} ]) /\
  (stops r <> [] ->
   exists line,
     last (route_features round3 r)
     = Some {| geometry := GeoLineString line;
               properties :=
                 RouteProperties (round3 (total_distance_km r))
                   (total_containers r) |} /\
     last line = Some depot_coordinates /\
     length (stops r) + 1 <= length line /\
     forall s, In s (stops r) ->
       match geometry_to_here s with
       | Some (p :: ps) => forall x, In x (p :: ps) -> In x line
       | _ => In (stop_coordinates s) line
       end).
Proof.
  unfold route_features. split.
  - intros ->. reflexivity.
  - intros Hne. destruct (last (stops r)) as [last_stop|] eqn:Hlast;
      [|apply last_None in Hlast; contradiction].
    eexists. split.
    { rewrite app_comm_cons, last_snoc. reflexivity. }
    assert (Hshape : exists extra,
              close_line last_stop (collect_segments (stops r) [])
              = collect_segments (stops r) [] ++ extra ++ [depot_coordinates]).
    { unfold close_line.
      destruct (last (collect_segments (stops r) [])) as [last_coord|].
      - destruct (decide (last_coord <> stop_coordinates last_stop)).
        + eexists [_]. rewrite <- app_assoc. reflexivity.
        + exists []. reflexivity.
      - exists []. reflexivity. }
    destruct Hshape as (extra & ->). split; [|split].
    + rewrite !app_assoc. apply last_snoc.
    + pose proof (collect_segments_length (stops r) []) as Hlen.
      rewrite !length_app. cbn [length] in Hlen |- *. lia.
    + intros s Hs.
      pose proof (proj2 (collect_segments_covers (stops r) []) s Hs) as Hcov.
      destruct (geometry_to_here s) as [[|p ps]|].
      * apply in_app_iff. left. exact Hcov.
      * intros x Hx. apply in_app_iff. left. exact (Hcov x Hx).
      * apply in_app_iff. left. exact Hcov.
Qed.

(** When every request to the provider fails, the route line of a
    response is the straight polyline from the depot through the stops
    in visiting order and back to the depot. *)
Theorem unreachable_provider_straight_line
  (fetch_neighborhood : string -> option NeighborhoodRow)
  (fetch_containers : Z -> string -> list Container)
  (round3 : R -> R) (str_lower : string -> string) (exn_str : exn -> string)
  (fuel : nat) (request : RouteRequest) (g : Rng) (resp : RouteResponse) :
  optimize_route_endpoint osrm_unreachable fetch_neighborhood fetch_containers
    round3 str_lower exn_str fuel request g = Respond resp ->
  exists row r,
    fetch_neighborhood (request_neighborhood request) = Some row /\
    optimize_route osrm_unreachable fuel (request_neighborhood request)
      (fetch_containers (neighborhood_id row) (row_vehicle_type row)) 40 None g
    = Ok r /\
    last (geojson resp)
    = Some {| geometry :=
                GeoLineString
                  (depot_coordinates :: map stop_coordinates (stops r)
                   ++ [depot_coordinates]);
              properties :=
                RouteProperties (round3 (total_distance_km r))
                  (total_containers r) |}.
Proof.
  intros H. apply endpoint_Respond_inv in H as (row & r & Hrow & Hne & Hrun & ->).
  exists row, r. split; [exact Hrow|]. split; [exact Hrun|].
  set (containers := fetch_containers (neighborhood_id row) (row_vehicle_type row))
    in *.
  assert (Hr : returns osrm_unreachable g (request_neighborhood request)
                 containers 40 None r) by (exists fuel; exact Hrun).
  assert (Hrouted : slice_to containers 40 <> []).
  { rewrite slice_to_positive by lia.
    destruct containers; [congruence | discriminate]. }
  pose proof (unreachable_no_geometry g _ None containers 40 r Hrouted Hr) as Hgeo.
  pose proof (returned_stop_count osrm_unreachable g _ None containers r Hne Hr)
    as Hlen.
  cbn [geojson]. unfold route_features.
  destruct (last (stops r)) as [last_stop|] eqn:Hlast.
  - rewrite (straight_line _ _ Hgeo Hlast).
    rewrite app_comm_cons, last_snoc. reflexivity.
  - apply last_None in Hlast. rewrite Hlast in Hlen. cbn [length] in Hlen.
    destruct containers; [congruence | cbn [length] in Hlen; lia].
Qed.

Lemma unreachable_provider_straight_line_witness :
  exists fuel resp r,
    optimize_route_endpoint osrm_unreachable any_district twin_bins_of
      (fun x => x) (fun s => s) (fun _ => EmptyString) fuel center_request
      rng_zero = Respond resp /\
    last (geojson resp)
    = Some {| geometry :=
                GeoLineString
                  (depot_coordinates :: map stop_coordinates (stops r)
                   ++ [depot_coordinates]);
              properties :=
                RouteProperties (total_distance_km r) (total_containers r) |}.
Proof.
  assert (Hne : twin_bins <> []) by discriminate.
  assert (Hcap : 40%Z <> 0%Z) by discriminate.
  destruct (optimize_route_returns osrm_unreachable "Center" None rng_zero
              twin_bins 40 Hne Hcap (unreachable_symmetric _ _)) as (r & fuel & Hr).
  destruct (endpoint_Respond osrm_unreachable any_district twin_bins_of
              (fun x => x) (fun s => s) (fun _ => EmptyString) fuel
              center_request rng_zero _ r eq_refl Hr) as (resp & Hresp).
  destruct (unreachable_provider_straight_line any_district twin_bins_of
              (fun x => x) (fun s => s) (fun _ => EmptyString) fuel
              center_request rng_zero resp Hresp)
    as (row & r' & _ & _ & Hline).
  exists fuel, resp, r'. split; [exact Hresp | exact Hline].
Defined.
